(** * SecureTransfer: handshake state machine and chunked transfer engine

    A shallow embedding of the security utilities ([utils/security.ts]),
    the connection hook ([hooks/useWebRTC.ts]), the approval modal
    ([ConnectionApprovalModal.tsx]) and the transfer hook
    ([hooks/useFileTransfer.ts]), together with the properties the
    specification states about them.

    Conventions.
    - Byte buffers ([ArrayBuffer], [Uint8Array], [File] contents) are
      [list byte].
    - Identifiers, hex digests and protocol reason strings are [string];
      file names, which are arbitrary UTF-16, are lists of code units.
    - [Map<string, V>] is [gmap string V].
    - [Date.now()] is an explicit argument [now : Z] of every operation
      that reads the clock.
    - React state updates are applied in program order on an explicit
      state record; refs are plain fields of that record. *)

From Stdlib Require Import ZArith NArith List String Ascii Bool Lia.
From Stdlib Require Import Init.Byte.
From stdpp Require Import base gmap strings list pretty.

Import ListNotations.

(** ** The platform digest: [crypto.subtle.digest('SHA-256', data)]

    The digest is a platform primitive, not repository code; it is
    embedded after FIPS 180-4 so that checksums can be evaluated. *)
Module SHA256.
Local Open Scope N_scope.

Definition mask32 : N := 0xffffffff.
Definition add32 (a b : N) : N := (a + b) mod 2 ^ 32.
Definition not32 (x : N) : N := N.lxor x mask32.
Definition rotr (n x : N) : N :=
  N.lor (N.shiftr x n) (N.land (N.shiftl x (32 - n)) mask32).

Definition Ch (x y z : N) : N := N.lxor (N.land x y) (N.land (not32 x) z).
Definition Maj (x y z : N) : N :=
  N.lxor (N.lxor (N.land x y) (N.land x z)) (N.land y z).
Definition bsig0 (x : N) : N :=
  N.lxor (N.lxor (rotr 2 x) (rotr 13 x)) (rotr 22 x).
Definition bsig1 (x : N) : N :=
  N.lxor (N.lxor (rotr 6 x) (rotr 11 x)) (rotr 25 x).
Definition ssig0 (x : N) : N :=
  N.lxor (N.lxor (rotr 7 x) (rotr 18 x)) (N.shiftr x 3).
Definition ssig1 (x : N) : N :=
  N.lxor (N.lxor (rotr 17 x) (rotr 19 x)) (N.shiftr x 10).

(** The round constants and the initial state are derived as the
    standard derives them: from the first primes, the fractional parts of
    their cube roots and square roots on 32 bits. *)
Definition isPrime (n : nat) : bool :=
  (1 <? n)%nat
  && List.forallb (fun d => negb (n mod d =? 0)%nat) (List.seq 2 (n - 2)).

Definition primes : list N :=
  List.map N.of_nat (List.filter isPrime (List.seq 2 310)).

(** Integer cube root by bisection on the bits of the result. *)
Fixpoint cbrt_bits (bit : nat) (n r : N) : N :=
  let r' := N.lor r (N.shiftl 1 (N.of_nat bit)) in
  let r := if (r' * r' * r' <=? n) then r' else r in
  match bit with
  | O => r
  | S b => cbrt_bits b n r
  end.

Definition fracCbrt32 (p : N) : N := cbrt_bits 35 (p * 2 ^ 96) 0 mod 2 ^ 32.
Definition fracSqrt32 (p : N) : N := N.sqrt (p * 2 ^ 64) mod 2 ^ 32.

Definition K : list N := Eval vm_compute in List.map fracCbrt32 primes.

(** The eight working words. *)
Record state := mkState
  { ha : N; hb : N; hc : N; hd : N; he : N; hf : N; hg : N; hh : N }.

Definition H0 : state :=
  Eval vm_compute in
    match List.map fracSqrt32 primes with
    | a :: b :: c :: d :: e :: f :: g :: h :: _ => mkState a b c d e f g h
    | _ => mkState 0 0 0 0 0 0 0 0
    end.

(** Big-endian packing. *)
Fixpoint be_word (bs : list N) (acc : N) : N :=
  match bs with
  | [] => acc
  | b :: bs' => be_word bs' (acc * 256 + b)
  end.

Fixpoint words_of (fuel : nat) (bs : list N) : list N :=
  match fuel with
  | O => []
  | S f =>
      match bs with
      | b0 :: b1 :: b2 :: b3 :: rest =>
          be_word [b0; b1; b2; b3] 0 :: words_of f rest
      | _ => []
      end
  end.

Fixpoint be_bytes (n : nat) (x : N) : list N :=
  match n with
  | O => []
  | S n' => be_bytes n' (x / 256) ++ [x mod 256]
  end.

(** Padding: a one bit, zeros up to 56 mod 64, the bit length on 64 bits. *)
Definition pad (msg : list N) : list N :=
  let len := N.of_nat (List.length msg) in
  let zeros := N.to_nat ((119 - len mod 64) mod 64) in
  msg ++ [0x80] ++ List.repeat 0 zeros ++ be_bytes 8 (8 * len).

(** Message schedule, kept most-recent-first while it is extended. *)
Fixpoint extend (n : nat) (rev_w : list N) : list N :=
  match n with
  | O => rev_w
  | S n' =>
      let w2 := List.nth 1 rev_w 0 in
      let w7 := List.nth 6 rev_w 0 in
      let w15 := List.nth 14 rev_w 0 in
      let w16 := List.nth 15 rev_w 0 in
      extend n'
        (add32 (add32 (ssig1 w2) w7) (add32 (ssig0 w15) w16) :: rev_w)
  end.

Definition schedule (block : list N) : list N :=
  List.rev (extend 48 (List.rev (words_of 16 block))).

Definition round (s : state) (kw : N * N) : state :=
  let t1 :=
    add32 (add32 (add32 (hh s) (bsig1 (he s)))
                 (add32 (Ch (he s) (hf s) (hg s)) (fst kw))) (snd kw) in
  let t2 := add32 (bsig0 (ha s)) (Maj (ha s) (hb s) (hc s)) in
  mkState (add32 t1 t2) (ha s) (hb s) (hc s)
          (add32 (hd s) t1) (he s) (hf s) (hg s).

Definition compress (h : state) (block : list N) : state :=
  let s := List.fold_left round (List.combine K (schedule block)) h in
  mkState (add32 (ha h) (ha s)) (add32 (hb h) (hb s))
          (add32 (hc h) (hc s)) (add32 (hd h) (hd s))
          (add32 (he h) (he s)) (add32 (hf h) (hf s))
          (add32 (hg h) (hg s)) (add32 (hh h) (hh s)).

Fixpoint blocks (fuel : nat) (bs : list N) (h : state) : state :=
  match fuel with
  | O => h
  | S f =>
      match bs with
      | [] => h
      | _ => blocks f (List.skipn 64 bs) (compress h (List.firstn 64 bs))
      end
  end.

Definition byte_of_N (n : N) : byte :=
  match Byte.of_N (n mod 256) with
  | Some b => b
  | None => x00
  end.

Definition output (s : state) : list byte :=
  List.map byte_of_N
    (List.flat_map (be_bytes 4)
       [ha s; hb s; hc s; hd s; he s; hf s; hg s; hh s]).

Definition digest (data : list byte) : list byte :=
  let padded := pad (List.map Byte.to_N data) in
  output (blocks (S (List.length padded / 64)) padded H0).

End SHA256.


(** ** JavaScript built-ins used by the sources *)
Module JS.

(** Relative index resolution of [slice]: negative indices count from the
    end, everything is clamped to [0, len]. *)
Definition relIndex (len i : Z) : Z :=
  if (i <? 0)%Z then Z.max (len + i) 0 else Z.min i len.

(** [s.slice(start, end)] on any sequence. *)
Definition slice {A} (l : list A) (start end_ : Z) : list A :=
  let len := Z.of_nat (List.length l) in
  let from := relIndex len start in
  let to := relIndex len end_ in
  firstn (Z.to_nat (to - from)) (skipn (Z.to_nat from) l).

(** [s.slice(start)]. *)
Definition sliceFrom {A} (l : list A) (start : Z) : list A :=
  slice l start (Z.of_nat (List.length l)).

(** [s.lastIndexOf(c)] for a one-unit needle; [-1] when absent. *)
Fixpoint lastIndexOf_from (c : N) (s : list N) (i : Z) (found : Z) : Z :=
  match s with
  | [] => found
  | x :: r => lastIndexOf_from c r (i + 1) (if (x =? c)%N then i else found)
  end.

Definition lastIndexOf (c : N) (s : list N) : Z :=
  lastIndexOf_from c s 0 (-1).

(** White space and line terminators removed by [String.prototype.trim]. *)
Definition isWhiteSpace (c : N) : bool :=
  ((9 <=? c) && (c <=? 13) || (c =? 32) || (c =? 0xA0) || (c =? 0x1680)
   || (0x2000 <=? c) && (c <=? 0x200A) || (c =? 0x2028) || (c =? 0x2029)
   || (c =? 0x202F) || (c =? 0x205F) || (c =? 0x3000) || (c =? 0xFEFF))%N.

Fixpoint trimStart (s : list N) : list N :=
  match s with
  | [] => []
  | c :: r => if isWhiteSpace c then trimStart r else s
  end.

Definition trim (s : list N) : list N :=
  List.rev (trimStart (List.rev (trimStart s))).

(** Code units of an ASCII literal. *)
Definition units (s : string) : list N :=
  List.map N_of_ascii (list_ascii_of_string s).

(** [n.toString(16)] for a non-negative integer. *)
Definition hexDigit (d : N) : ascii :=
  List.nth (N.to_nat d)
    ["0"; "1"; "2"; "3"; "4"; "5"; "6"; "7";
     "8"; "9"; "a"; "b"; "c"; "d"; "e"; "f"]%char "?"%char.

Fixpoint toString16_acc (fuel : nat) (n : N) (acc : string) : string :=
  match fuel with
  | O => acc
  | S f =>
      let acc' := String (hexDigit (n mod 16)) acc in
      if (n / 16 =? 0)%N then acc' else toString16_acc f (n / 16)%N acc'
  end.

Definition toString16 (n : N) : string :=
  toString16_acc (S (N.to_nat (N.log2 n))) n "".

(** [s.padStart(len, c)] for a one-character filler. *)
Definition padStart (len : nat) (c : ascii) (s : string) : string :=
  string_of_list_ascii (List.repeat c (len - String.length s)) +:+ s.

(** [parts.join('')]. *)
Definition join (parts : list string) : string :=
  List.fold_right String.append "" parts.

(** Sparse-array store [arr[i] = v]: holes are [None]; an index that is
    negative or above [2^32 - 2] is no array index, the store then sets a
    named property and leaves the elements alone. *)
Definition arraySet {A} (arr : list (option A)) (i : Z) (v : A)
  : list (option A) :=
  if ((i <? 0) || (4294967294 <? i))%Z then arr
  else
    let n := Z.to_nat i in
    if (n <? List.length arr)%nat then <[n := Some v]> arr
    else arr ++ List.repeat None (n - List.length arr) ++ [Some v].

(** [str.replace(/-/g, '')] and an upper-casing restricted to the ASCII
    letters, which is the range room codes live in. *)
Definition stripDashes (s : string) : string :=
  string_of_list_ascii
    (List.filter (fun c => negb (Ascii.eqb c "-")) (list_ascii_of_string s)).

Definition upperAscii (c : ascii) : ascii :=
  let n := N_of_ascii c in
  if ((97 <=? n) && (n <=? 122))%N then ascii_of_N (n - 32) else c.

Definition toUpperCase (s : string) : string :=
  string_of_list_ascii (List.map upperAscii (list_ascii_of_string s)).

(** [s.replace(/c/g, replacement)] where the pattern matches the one code
    unit [c]: every occurrence is replaced, left to right. *)
Definition replaceAll (c : N) (replacement : list N) (s : list N) : list N :=
  List.flat_map (fun x => if (x =? c)%N then replacement else [x]) s.

(** [s.startsWith(needle)] and [s.includes(needle)]. *)
Fixpoint startsWith (needle s : list N) : bool :=
  match needle, s with
  | [], _ => true
  | _ :: _, [] => false
  | a :: needle', b :: s' => (a =? b)%N && startsWith needle' s'
  end.

Fixpoint includes (needle s : list N) : bool :=
  startsWith needle s
  || match s with
     | [] => false
     | _ :: s' => includes needle s'
     end.

(** [s.split(/[/\\]/)]: the pieces between path separators; there is
    always at least one piece. *)
Fixpoint splitOn (sep : N -> bool) (s : list N) : list (list N) :=
  match s with
  | [] => [[]]
  | c :: r =>
      if sep c then [] :: splitOn sep r
      else match splitOn sep r with
           | piece :: pieces => (c :: piece) :: pieces
           | [] => [[c]]
           end
  end.

(** [ToInt32], the conversion the bitwise operators apply. *)
Definition toInt32 (z : Z) : Z :=
  let m := (z mod 4294967296)%Z in
  if (2147483648 <=? m)%Z then (m - 4294967296)%Z else m.

(** [n.toString(36)] for a non-negative integer, lower-case digits. *)
Definition digit36 (d : N) : ascii :=
  List.nth (N.to_nat d)
    (list_ascii_of_string "0123456789abcdefghijklmnopqrstuvwxyz") "?"%char.

Fixpoint toString36_acc (fuel : nat) (n : N) (acc : string) : string :=
  match fuel with
  | O => acc
  | S f =>
      let acc' := String (digit36 (n mod 36)) acc in
      if (n / 36 =? 0)%N then acc' else toString36_acc f (n / 36)%N acc'
  end.

Definition toString36 (n : N) : string :=
  toString36_acc (S (N.to_nat (N.log2 n))) n "".

End JS.

(** ** Constants ([types/index.ts]) *)
Module Constants.

Definition MAX_FILE_SIZE : Z := 2 * 1024 * 1024 * 1024.
Definition MAX_SESSION_SIZE : Z := 10 * 1024 * 1024 * 1024.
Definition CHUNK_SIZE : nat := 64 * 1024.
Definition MAX_FILES_PER_BATCH : Z := 500.

Definition ROOM_CODE_LENGTH : nat := 8.
Definition ROOM_CODE_EXPIRY_MS : Z := 60 * 60 * 1000.
Definition PIN_LENGTH : nat := 4.
Definition MAX_PIN_ATTEMPTS : Z := 3.
Definition MAX_CONNECTION_ATTEMPTS : Z := 3.
Definition CONNECTION_ATTEMPT_WINDOW_MS : Z := 5 * 60 * 1000.
Definition APPROVAL_TIMEOUT_MS : Z := 30 * 1000.
Definition HEARTBEAT_INTERVAL_MS : Z := 5 * 1000.
Definition CONNECTION_TIMEOUT_MS : Z := 30 * 1000.

Definition BLOCKED_EXTENSIONS : list string :=
  [ ".exe"; ".bat"; ".cmd"; ".com"; ".msi"; ".scr";
    ".vbs"; ".vbe"; ".js"; ".jse"; ".ws"; ".wsf"; ".wsc"; ".wsh";
    ".ps1"; ".psm1"; ".psd1";
    ".sh"; ".bash"; ".zsh";
    ".app"; ".dmg"; ".pkg";
    ".apk"; ".deb"; ".rpm" ].

Module ALLOWED_FILE_TYPES.
Definition images : list string :=
  [ "image/jpeg"; "image/png"; "image/gif"; "image/webp"; "image/heic";
    "image/heif" ].
Definition videos : list string :=
  [ "video/mp4"; "video/quicktime"; "video/x-m4v"; "video/webm" ].
Definition documents : list string :=
  [ "application/pdf";
    "application/msword";
    "application/vnd.openxmlformats-officedocument.wordprocessingml.document";
    "text/plain";
    "application/vnd.ms-excel";
    "application/vnd.openxmlformats-officedocument.spreadsheetml.sheet" ].
Definition audio : list string :=
  [ "audio/mpeg"; "audio/mp4"; "audio/wav"; "audio/ogg" ].
End ALLOWED_FILE_TYPES.

End Constants.

(** ** Security utilities ([utils/security.ts]) *)
Module Security.
Import Constants.

(** *** Room codes *)

Definition ROOM_CODE_ALPHABET : string := "ABCDEFGHJKMNPQRSTUVWXYZ23456789".

(** [ROOM_CODE_ALPHABET[i]]; an out-of-range read is [undefined], which
    [join] renders as the empty string. *)
Definition alphabetAt (i : nat) : string :=
  match String.get i ROOM_CODE_ALPHABET with
  | Some c => String c ""
  | None => ""
  end.

(** [random i] is the [i]-th byte written by [crypto.getRandomValues]. *)
Definition generateSecureRoomCode (random : nat -> byte) : string :=
  let array := List.map random (List.seq 0 ROOM_CODE_LENGTH) in
  let code :=
    JS.join
      (List.map
         (fun b =>
            alphabetAt
              (N.to_nat (Byte.to_N b) mod String.length ROOM_CODE_ALPHABET))
         array) in
  String.substring 0 4 code +:+ "-"
    +:+ String.substring 4 (String.length code - 4) code.

Definition normalizeRoomCode (code : string) : string :=
  JS.toUpperCase (JS.stripDashes code).

Definition alphabetIncludes (c : ascii) : bool :=
  List.existsb (Ascii.eqb c) (list_ascii_of_string ROOM_CODE_ALPHABET).

Definition isValidRoomCodeFormat (code : string) : bool :=
  let normalized := normalizeRoomCode code in
  if negb (String.length normalized =? ROOM_CODE_LENGTH)%nat then false
  else List.forallb alphabetIncludes (list_ascii_of_string normalized).

(** *** File-name sanitisation *)

Definition DOT : N := 46.

(** The first replace deletes every match of two consecutive dots,
    leftmost first and without overlap. *)
Fixpoint removeDotDot (s : list N) : list N :=
  match s with
  | [] => []
  | a :: t =>
      match t with
      | b :: r =>
          if ((a =? DOT) && (b =? DOT))%N then removeDotDot r
          else a :: removeDotDot t
      | [] => [a]
      end
  end.

(** The class of the second replace: slash and backslash. *)
Definition isPathSeparator (c : N) : bool := ((c =? 47) || (c =? 92))%N.

(** The class of the third replace: less-than, greater-than, colon,
    double quote, vertical bar, question mark and asterisk. *)
Definition isSpecial (c : N) : bool :=
  ((c =? 60) || (c =? 62) || (c =? 58) || (c =? 34) || (c =? 124)
   || (c =? 63) || (c =? 42))%N.

(** The class of the fourth replace: code units 0x00 to 0x1f, and 0x7f. *)
Definition isControl (c : N) : bool := ((c <=? 0x1f) || (c =? 0x7f))%N.

Definition remove (p : N -> bool) (s : list N) : list N :=
  List.filter (fun c => negb (p c)) s.

Definition limitLength (sanitized : list N) : list N :=
  if (255 <? List.length sanitized)%nat then
    let ext := JS.lastIndexOf DOT sanitized in
    if (0 <? ext)%Z then
      let extension := JS.sliceFrom sanitized ext in
      let baseName :=
        JS.slice sanitized 0 (255 - Z.of_nat (List.length extension)) in
      baseName ++ extension
    else JS.slice sanitized 0 255
  else sanitized.

Definition sanitizeFileName (name : list N) : list N :=
  let sanitized := removeDotDot name in
  let sanitized := remove isPathSeparator sanitized in
  let sanitized := remove isSpecial sanitized in
  let sanitized := remove isControl sanitized in
  let sanitized := limitLength sanitized in
  match JS.trim sanitized with
  | [] => JS.units "unnamed_file"
  | _ :: _ => sanitized
  end.

(** *** Rate limiting *)

Record RateLimitEntry := mkRateLimitEntry
  { attempts : Z;
    firstAttempt : Z;
    lastAttempt : Z;
    blocked : bool;
    blockedUntil : option Z }.

(** [entry.blocked && entry.blockedUntil && now < entry.blockedUntil]; a
    [null] or zero [blockedUntil] is falsy. *)
Definition blockActive (now : Z) (entry : RateLimitEntry) : bool :=
  blocked entry &&
  match blockedUntil entry with
  | Some t => negb (t =? 0)%Z && (now <? t)%Z
  | None => false
  end.

(** Returns the answer together with the store, from which an expired
    entry is deleted. *)
Definition isRateLimited (now : Z) (key : string) (maxAttempts windowMs : Z)
    (rateLimitStore : gmap string RateLimitEntry)
  : bool * gmap string RateLimitEntry :=
  match rateLimitStore !! key with
  | None => (false, rateLimitStore)
  | Some entry =>
      if blockActive now entry then (true, rateLimitStore)
      else if (windowMs <? now - firstAttempt entry)%Z
           then (false, delete key rateLimitStore)
           else ((maxAttempts <=? attempts entry)%Z, rateLimitStore)
  end.

Definition recordAttempt (now : Z) (key : string)
    (maxAttempts windowMs blockDurationMs : Z)
    (rateLimitStore : gmap string RateLimitEntry)
  : RateLimitEntry * gmap string RateLimitEntry :=
  let fresh := mkRateLimitEntry 1 now now false None in
  let entry :=
    match rateLimitStore !! key with
    | None => fresh
    | Some entry =>
        if (windowMs <? now - firstAttempt entry)%Z then fresh
        else
          let n := (attempts entry + 1)%Z in
          if (maxAttempts <=? n)%Z
          then mkRateLimitEntry n (firstAttempt entry) now
                 true (Some (now + blockDurationMs)%Z)
          else mkRateLimitEntry n (firstAttempt entry) now
                 (blocked entry) (blockedUntil entry)
    end in
  (entry, <[key := entry]> rateLimitStore).

Definition clearRateLimit (key : string)
    (rateLimitStore : gmap string RateLimitEntry)
  : gmap string RateLimitEntry :=
  delete key rateLimitStore.

(** The default block duration of [recordAttempt]. *)
Definition BLOCK_DURATION_MS : Z := 5 * 60 * 1000.

(** *** Sessions *)

Record Session := mkSession
  { sessionRoomCode : string;
    createdAt : Z;
    expiresAt : Z;
    pin : option string }.

Definition createSession (now : Z) (roomCode : string)
    (sessionStore : gmap string Session) : Session * gmap string Session :=
  let session :=
    mkSession (normalizeRoomCode roomCode) now
      (now + ROOM_CODE_EXPIRY_MS)%Z None in
  (session, <[sessionRoomCode session := session]> sessionStore).

Definition isSessionValid (now : Z) (roomCode : string)
    (sessionStore : gmap string Session) : bool * gmap string Session :=
  let normalized := normalizeRoomCode roomCode in
  match sessionStore !! normalized with
  | None => (false, sessionStore)
  | Some session =>
      if (expiresAt session <? now)%Z
      then (false, delete normalized sessionStore)
      else (true, sessionStore)
  end.

Definition destroySession (roomCode : string)
    (sessionStore : gmap string Session) : gmap string Session :=
  delete (normalizeRoomCode roomCode) sessionStore.

(** *** Checksums and PIN hashing *)

(** [b.toString(16).padStart(2, '0')] *)
Definition hexByte (b : byte) : string :=
  JS.padStart 2 "0" (JS.toString16 (Byte.to_N b)).

Definition generateChecksum (data : list byte) : string :=
  let hashArray := SHA256.digest data in
  JS.join (List.map hexByte (JS.slice hashArray 0 8)).

Definition verifyChecksum (data : list byte) (expectedChecksum : string)
  : bool :=
  let actualChecksum := generateChecksum data in
  String.eqb actualChecksum expectedChecksum.

(** [TextEncoder.encode] on code units below 256. *)
Definition utf8 (c : ascii) : list byte :=
  let n := N_of_ascii c in
  if (n <? 128)%N then [SHA256.byte_of_N n]
  else [SHA256.byte_of_N (N.lor 0xC0 (N.shiftr n 6));
        SHA256.byte_of_N (N.lor 0x80 (N.land n 0x3F))].

Definition hashPin (pin : string) : string :=
  let data := List.flat_map utf8 (list_ascii_of_string pin) in
  JS.join (List.map hexByte (SHA256.digest data)).

(** *** The remaining exports of [utils/security.ts] *)

(** [formatRoomCode]: a code that does not normalise to eight characters
    is returned as it came. *)
Definition formatRoomCode (code : string) : string :=
  let normalized := normalizeRoomCode code in
  if negb (String.length normalized =? ROOM_CODE_LENGTH)%nat then code
  else String.substring 0 4 normalized +:+ "-"
         +:+ String.substring 4 (String.length normalized - 4) normalized.

(** The pattern of [isValidPinFormat]: exactly four decimal digits. *)
Definition isDigit (c : ascii) : bool :=
  let n := N_of_ascii c in ((48 <=? n) && (n <=? 57))%N.

Definition isValidPinFormat (pin : string) : bool :=
  (String.length pin =? 4)%nat
  && List.forallb isDigit (list_ascii_of_string pin).

(** [sanitizeText]: five global replacements, the ampersand first. *)
Definition sanitizeText (text : list N) : list N :=
  let text := JS.replaceAll 38 (JS.units "&amp;") text in
  let text := JS.replaceAll 60 (JS.units "&lt;") text in
  let text := JS.replaceAll 62 (JS.units "&gt;") text in
  let text := JS.replaceAll 34 (JS.units "&quot;") text in
  JS.replaceAll 39 (JS.units "&#039;") text.

Definition getSession (roomCode : string)
    (sessionStore : gmap string Session) : option Session :=
  sessionStore !! normalizeRoomCode roomCode.

Definition setSessionPin (roomCode hashedPin : string)
    (sessionStore : gmap string Session) : bool * gmap string Session :=
  let normalized := normalizeRoomCode roomCode in
  match sessionStore !! normalized with
  | None => (false, sessionStore)
  | Some session =>
      let session :=
        mkSession (sessionRoomCode session) (createdAt session)
          (expiresAt session) (Some hashedPin) in
      (true, <[normalized := session]> sessionStore)
  end.

(** [cleanupExpiredSessions]: one pass over the entries of the store,
    deleting the expired ones from it and counting them. *)
Definition cleanupExpiredSessions (now : Z)
    (sessionStore : gmap string Session) : nat * gmap string Session :=
  map_fold
    (fun code session acc =>
       if (expiresAt session <? now)%Z
       then (S (fst acc), delete code (snd acc))
       else acc)
    (O, sessionStore) sessionStore.

(** [generateDeviceId]; [data] is the string joined from the navigator
    and screen values.  The loop keeps [hash] a 32-bit integer. *)
Definition deviceHash (data : list N) : Z :=
  List.fold_left
    (fun hash char =>
       let hash := (JS.toInt32 (hash * 32) - hash + Z.of_N char)%Z in
       JS.toInt32 hash)
    data 0%Z.

Definition generateDeviceId (data : list N) : string :=
  let text := JS.toString36 (Z.to_N (Z.abs (deviceHash data))) in
  JS.toUpperCase
    (string_of_list_ascii (JS.slice (list_ascii_of_string text) 0 8)).

End Security.

(** ** Wire messages ([types/index.ts])

    [PeerMessage] is the envelope [{type, timestamp, payload}]; the type
    tag and its payload are one constructor here.  The [timestamp] field,
    which no handler reads, is left out. *)
Module Protocol.

Record FileMetadata := mkFileMetadata
  { id : string;
    name : list N;
    sanitizedName : list N;
    size : Z;
    type : string;
    lastModified : Z;
    totalChunks : Z;
    hash : option string }.

Record FileMetadataPayload := mkFileMetadataPayload
  { metadata : FileMetadata;
    batchId : string;
    fileIndex : Z;
    totalFilesInBatch : Z }.

Record FileChunkPayload := mkFileChunkPayload
  { fileId : string;
    chunkIndex : Z;
    chunkTotalChunks : Z;
    data : list byte;
    checksum : string }.

Inductive PeerMessage :=
| connection_request (peerId : string) (deviceInfo : string)
| connection_approved
| connection_denied (reason : option string)
| pin_required
| pin_attempt (hashedPin : string) (attemptNumber : Z)
| pin_verified
| pin_invalid (attemptsRemaining : Z)
| batch_start (batchId : string) (totalFiles : Z) (totalSize : Z)
| file_metadata (payload : FileMetadataPayload)
| file_chunk (payload : FileChunkPayload)
| file_complete (fileId : string) (finalHash : string)
| batch_complete (batchId : string)
| file_error (fileId : string) (error : string)
| heartbeat
| disconnect.

End Protocol.

(** ** The connection hook ([hooks/useWebRTC.ts])

    One record holds the React state ([connectionInfo]), the refs and the
    two module-level stores of [utils/security.ts].  [sent] lists what was
    handed to [connection.send] and [calls] the option callbacks that were
    invoked, both oldest first (an optional callback is recorded as if
    the caller had supplied it).  Audit-log and console calls are
    write-only sinks and are left out.  A handler activation reads the
    clock once. *)
Module WebRTC.
Import Constants Security Protocol.

Inductive Mode := host | client.

Inductive ConnectionState :=
| idle | connecting | awaiting_approval | connected
| transferring | completed | error | disconnected.

Record ConnectionInfo := mkConnectionInfo
  { state : ConnectionState;
    peerId : option string;
    remotePeerId : option string;
    roomCode : option string;
    connectedAt : option Z;
    errorText : option string;
    isPinRequired : bool;
    isPinVerified : bool }.

Definition initialConnectionInfo : ConnectionInfo :=
  mkConnectionInfo idle None None None None None false false.

Inductive Callback :=
| onConnectionRequest (remotePeerId : string)
| onPinRequired
| onMessage (message : PeerMessage)
| onConnected
| onDisconnected
| onError (error : string).

Record Hook := mkHook
  { mode : Mode;
    hasOnConnectionRequest : bool;
    hasOnPinRequired : bool;
    connectionInfo : ConnectionInfo;
    connectionRef : option bool;       (* [None]: null; [Some b]: [open] is [b] *)
    peerRef : bool;                    (* a live [Peer] is held *)
    heartbeatIntervalRef : bool;       (* the heartbeat interval is armed *)
    pinHashRef : option string;
    pinAttemptsRef : Z;
    roomCodeRef : option string;
    rateLimitStore : gmap string RateLimitEntry;
    sessionStore : gmap string Session;
    sent : list PeerMessage;
    calls : list Callback }.

Definition setInfo (f : ConnectionInfo -> ConnectionInfo) (h : Hook) : Hook :=
  mkHook (mode h) (hasOnConnectionRequest h) (hasOnPinRequired h)
    (f (connectionInfo h)) (connectionRef h) (peerRef h)
    (heartbeatIntervalRef h) (pinHashRef h) (pinAttemptsRef h)
    (roomCodeRef h) (rateLimitStore h) (sessionStore h) (sent h) (calls h).

Definition setRateLimitStore (s : gmap string RateLimitEntry) (h : Hook)
  : Hook :=
  mkHook (mode h) (hasOnConnectionRequest h) (hasOnPinRequired h)
    (connectionInfo h) (connectionRef h) (peerRef h)
    (heartbeatIntervalRef h) (pinHashRef h) (pinAttemptsRef h)
    (roomCodeRef h) s (sessionStore h) (sent h) (calls h).

Definition setPinAttempts (n : Z) (h : Hook) : Hook :=
  mkHook (mode h) (hasOnConnectionRequest h) (hasOnPinRequired h)
    (connectionInfo h) (connectionRef h) (peerRef h)
    (heartbeatIntervalRef h) (pinHashRef h) n
    (roomCodeRef h) (rateLimitStore h) (sessionStore h) (sent h) (calls h).

Definition pushSent (m : PeerMessage) (h : Hook) : Hook :=
  mkHook (mode h) (hasOnConnectionRequest h) (hasOnPinRequired h)
    (connectionInfo h) (connectionRef h) (peerRef h)
    (heartbeatIntervalRef h) (pinHashRef h) (pinAttemptsRef h)
    (roomCodeRef h) (rateLimitStore h) (sessionStore h)
    (sent h ++ [m]) (calls h).

Definition call (c : Callback) (h : Hook) : Hook :=
  mkHook (mode h) (hasOnConnectionRequest h) (hasOnPinRequired h)
    (connectionInfo h) (connectionRef h) (peerRef h)
    (heartbeatIntervalRef h) (pinHashRef h) (pinAttemptsRef h)
    (roomCodeRef h) (rateLimitStore h) (sessionStore h)
    (sent h) (calls h ++ [c]).

(** [updateState] with the partial objects the handlers pass. *)
Definition withState (s : ConnectionState) (i : ConnectionInfo)
  : ConnectionInfo :=
  mkConnectionInfo s (peerId i) (remotePeerId i) (roomCode i)
    (connectedAt i) (errorText i) (isPinRequired i) (isPinVerified i).

Definition withRemotePeerId (p : string) (i : ConnectionInfo)
  : ConnectionInfo :=
  mkConnectionInfo (state i) (peerId i) (Some p) (roomCode i)
    (connectedAt i) (errorText i) (isPinRequired i) (isPinVerified i).

Definition withConnectedAt (t : Z) (i : ConnectionInfo) : ConnectionInfo :=
  mkConnectionInfo (state i) (peerId i) (remotePeerId i) (roomCode i)
    (Some t) (errorText i) (isPinRequired i) (isPinVerified i).

Definition withError (e : string) (i : ConnectionInfo) : ConnectionInfo :=
  mkConnectionInfo (state i) (peerId i) (remotePeerId i) (roomCode i)
    (connectedAt i) (Some e) (isPinRequired i) (isPinVerified i).

Definition withPinRequired (b : bool) (i : ConnectionInfo)
  : ConnectionInfo :=
  mkConnectionInfo (state i) (peerId i) (remotePeerId i) (roomCode i)
    (connectedAt i) (errorText i) b (isPinVerified i).

Definition withPinVerified (b : bool) (i : ConnectionInfo)
  : ConnectionInfo :=
  mkConnectionInfo (state i) (peerId i) (remotePeerId i) (roomCode i)
    (connectedAt i) (errorText i) (isPinRequired i) b.

(** Truthiness of a [string | null]. *)
Definition truthy (s : option string) : bool :=
  match s with
  | Some s => negb (String.eqb s "")
  | None => false
  end.

(** [cleanup]: stop the heartbeat, close the channel, destroy the peer
    and the session, forget the PIN. *)
Definition cleanup (h : Hook) : Hook :=
  mkHook (mode h) (hasOnConnectionRequest h) (hasOnPinRequired h)
    (connectionInfo h) None false false None 0%Z
    (if truthy (roomCodeRef h) then None else roomCodeRef h)
    (rateLimitStore h)
    (if truthy (roomCodeRef h)
     then destroySession (default "" (roomCodeRef h)) (sessionStore h)
     else sessionStore h)
    (sent h) (calls h).

(** [sendMessage]: refused without an open channel.  The [catch] branch
    around [connection.send] belongs to the transport and is not
    modelled. *)
Definition sendMessage (m : PeerMessage) (h : Hook) : bool * Hook :=
  match connectionRef h with
  | Some true => (true, pushSent m h)
  | _ => (false, h)
  end.

Definition send (m : PeerMessage) (h : Hook) : Hook := snd (sendMessage m h).

Definition startHeartbeat (h : Hook) : Hook :=
  mkHook (mode h) (hasOnConnectionRequest h) (hasOnPinRequired h)
    (connectionInfo h) (connectionRef h) (peerRef h)
    true (pinHashRef h) (pinAttemptsRef h)
    (roomCodeRef h) (rateLimitStore h) (sessionStore h) (sent h) (calls h).

(** The interval callback armed by [startHeartbeat]. *)
Definition heartbeatTick (h : Hook) : Hook :=
  if heartbeatIntervalRef h then send heartbeat h else h.

(** The passage of [ms] milliseconds, in which no message arrives and no
    callback promise settles: the one timer the hook keeps while it
    serves a channel is the heartbeat interval. *)
Definition elapse (ms : Z) (h : Hook) : Hook :=
  Nat.iter (Z.to_nat (ms / HEARTBEAT_INTERVAL_MS)) heartbeatTick h.

(** Where an activation of the [async] handler stops: at its end, or at
    one of its [await]s on an option callback. *)
Inductive Suspension :=
| Finished
| AwaitApproval (remotePeerId : string)
| AwaitPinAfterRequired
| AwaitPinAfterInvalid (attemptsRemaining : Z).

Definition isHost (h : Hook) : bool :=
  match mode h with host => true | client => false end.

Definition isClient (h : Hook) : bool := negb (isHost h).

(** [pinHashRef.current] compared with [===] to the received hash. *)
Definition pinMatches (hashedPin : string) (h : Hook) : bool :=
  match pinHashRef h with
  | Some p => String.eqb hashedPin p
  | None => false
  end.

Definition handleMessage (now : Z) (message : PeerMessage) (h : Hook)
  : Hook * Suspension :=
  match message with
  | connection_request remotePeerId _ =>
      if isHost h && hasOnConnectionRequest h then
        let '(limited, store) :=
          isRateLimited now remotePeerId MAX_CONNECTION_ATTEMPTS
            CONNECTION_ATTEMPT_WINDOW_MS (rateLimitStore h) in
        let h := setRateLimitStore store h in
        if limited then
          (send (connection_denied (Some "Too many attempts")) h, Finished)
        else
          let '(_, store) :=
            recordAttempt now remotePeerId MAX_CONNECTION_ATTEMPTS
              CONNECTION_ATTEMPT_WINDOW_MS BLOCK_DURATION_MS
              (rateLimitStore h) in
          let h := setRateLimitStore store h in
          let h := setInfo (withState awaiting_approval) h in
          (call (onConnectionRequest remotePeerId) h,
           AwaitApproval remotePeerId)
      else (h, Finished)
  | connection_approved =>
      if isClient h then
        let h :=
          setInfo (fun i => withPinVerified true
                              (withConnectedAt now (withState connected i)))
            h in
        (call onConnected (startHeartbeat h), Finished)
      else (h, Finished)
  | connection_denied reason =>
      if isClient h then
        let reason := if truthy reason then default "" reason
                      else "Connection denied" in
        let h := setInfo (fun i => withError reason (withState error i)) h in
        (call (onError reason) h, Finished)
      else (h, Finished)
  | pin_required =>
      if isClient h && hasOnPinRequired h then
        let h := setInfo (withPinRequired true) h in
        (call onPinRequired h, AwaitPinAfterRequired)
      else (h, Finished)
  | pin_attempt hashedPin attemptNumber =>
      if isHost h then
        if pinMatches hashedPin h then
          let h := send pin_verified h in
          let h := send connection_approved h in
          let h :=
            setInfo (fun i => withPinVerified true
                                (withConnectedAt now (withState connected i)))
              h in
          (call onConnected (startHeartbeat h), Finished)
        else
          let h := setPinAttempts attemptNumber h in
          if (MAX_PIN_ATTEMPTS <=? attemptNumber)%Z then
            let h := send (connection_denied (Some "Too many PIN attempts")) h in
            let h := cleanup h in
            (setInfo (withState idle) h, Finished)
          else
            (send (pin_invalid (MAX_PIN_ATTEMPTS - attemptNumber)%Z) h,
             Finished)
      else (h, Finished)
  | pin_verified =>
      if isClient h then (setInfo (withPinVerified true) h, Finished)
      else (h, Finished)
  | pin_invalid attemptsRemaining =>
      if isClient h && hasOnPinRequired h then
        let h :=
          call (onError ("Invalid PIN. " +:+ pretty attemptsRemaining
                           +:+ " attempts remaining.")) h in
        (call onPinRequired h, AwaitPinAfterInvalid attemptsRemaining)
      else (h, Finished)
  | heartbeat => (h, Finished)
  | disconnect =>
      let h := cleanup h in
      let h := setInfo (withState disconnected) h in
      (call onDisconnected h, Finished)
  | other => (call (onMessage other) h, Finished)
  end.

(** The rest of the [connection_request] case, run when the promise of
    the approval callback settles with [approved]. *)
Definition resumeApproval (now : Z) (remotePeerId : string)
    (approved : bool) (h : Hook) : Hook :=
  if approved then
    let h :=
      setRateLimitStore (clearRateLimit remotePeerId (rateLimitStore h)) h in
    if truthy (pinHashRef h) then
      let h := send pin_required h in
      setInfo (withPinRequired true) h
    else
      let h := send connection_approved h in
      let h :=
        setInfo (fun i => withRemotePeerId remotePeerId
                            (withConnectedAt now (withState connected i))) h in
      call onConnected (startHeartbeat h)
  else
    let h := send (connection_denied (Some "Connection denied")) h in
    setInfo (withState idle) h.

(** The rest of the [pin_required] and [pin_invalid] cases, run when
    the PIN prompt settles. *)
Definition resumePin (s : Suspension) (pin : option string) (h : Hook)
  : Hook :=
  match s with
  | AwaitPinAfterRequired =>
      if truthy pin then
        send (pin_attempt (hashPin (default "" pin))
                (pinAttemptsRef h + 1)%Z) h
      else
        let h := send disconnect h in
        let h := cleanup h in
        setInfo (fun i => withError "PIN entry cancelled" (withState idle i))
          h
  | AwaitPinAfterInvalid attemptsRemaining =>
      if truthy pin then
        send (pin_attempt (hashPin (default "" pin))
                (MAX_PIN_ATTEMPTS - attemptsRemaining + 1)%Z) h
      else h
  | _ => h
  end.

End WebRTC.

(** ** The approval dialog ([ConnectionApprovalModal.tsx]) and the part of
    [ReceiverView.tsx] that drives it

    [pendingApproval] holds the peer whose promise the dialog will
    settle; the dialog is open exactly when it is set.  The dialog keeps
    [timeRemaining] and [isExpired] across openings.  Each operation
    returns the promise it settles, if any: the peer and the decision. *)
Module ApprovalUI.
Import Constants.

Record Modal := mkModal { timeRemaining : Z; isExpired : bool }.

Definition mounted : Modal := mkModal (APPROVAL_TIMEOUT_MS / 1000) false.

Record View := mkView { pendingApproval : option string; modal : Modal }.

Definition isOpen (v : View) : bool :=
  match pendingApproval v with Some _ => true | None => false end.

(** [handleDeny] and [handleApprove] of the view: settle the pending
    promise and close the dialog. *)
Definition settlePending (decision : bool) (v : View)
  : View * option (string * bool) :=
  match pendingApproval v with
  | Some p => (mkView None (modal v), Some (p, decision))
  | None => (v, None)
  end.

(** The updater the one-second interval applies. *)
Definition countdown (m : Modal) : Modal :=
  if (timeRemaining m <=? 1)%Z then mkModal 0 true
  else mkModal (timeRemaining m - 1) (isExpired m).

(** The interval runs while the dialog is open and not expired; the
    auto-deny effect fires when [isExpired] turns true. *)
Definition tick (v : View) : View * option (string * bool) :=
  if isOpen v && negb (isExpired (modal v)) then
    let m := countdown (modal v) in
    if isExpired m then settlePending false (mkView (pendingApproval v) m)
    else (mkView (pendingApproval v) m, None)
  else (v, None).

(** [handleConnectionRequest]: a new promise replaces the pending one.
    On opening, the reset effect restarts the countdown; the auto-deny
    effect runs in the same commit with the [isExpired] of the previous
    opening, because its [onDeny] dependency changed. *)
Definition handleConnectionRequest (peerId : string) (v : View)
  : View * option (string * bool) :=
  let m := if isOpen v then modal v else mounted in
  if isExpired (modal v) then (mkView None m, Some (peerId, false))
  else (mkView (Some peerId) m, None).

(** The Approve button is inert once the countdown has expired. *)
Definition clickApprove (v : View) : View * option (string * bool) :=
  if isExpired (modal v) then (v, None) else settlePending true v.

Definition clickDeny (v : View) : View * option (string * bool) :=
  settlePending false v.

End ApprovalUI.

(** ** The receiving device: the hook in host mode wired to the dialog *)
Module Receiver.
Import Protocol WebRTC ApprovalUI.

Record System := mkSystem { hook : Hook; view : View }.

(** What can happen to the receiving device: a message arrives on the
    data channel, the one-second interval of the dialog fires, or the
    user presses one of the two buttons of the dialog. *)
Inductive Event :=
| Receive (message : PeerMessage)
| TimerTick
| ClickApprove
| ClickDeny.

Definition settle (now : Z) (d : option (string * bool)) (h : Hook) : Hook :=
  match d with
  | Some (p, approved) => resumeApproval now p approved h
  | None => h
  end.

Definition step (s : System) (ev : Z * Event) : System :=
  let now := fst ev in
  match snd ev with
  | Receive m =>
      let '(h, susp) := handleMessage now m (hook s) in
      match susp with
      | AwaitApproval p =>
          let '(v, d) := handleConnectionRequest p (view s) in
          mkSystem (settle now d h) v
      | _ => mkSystem h (view s)
      end
  | TimerTick =>
      let '(v, d) := tick (view s) in mkSystem (settle now d (hook s)) v
  | ClickApprove =>
      let '(v, d) := clickApprove (view s) in
      mkSystem (settle now d (hook s)) v
  | ClickDeny =>
      let '(v, d) := clickDeny (view s) in
      mkSystem (settle now d (hook s)) v
  end.

Definition run (s : System) (evs : list (Z * Event)) : System :=
  List.fold_left step evs s.

End Receiver.

(** ** The transfer hook ([hooks/useFileTransfer.ts]) with the helpers of
    [utils/fileValidation.ts] it calls

    The floating-point fields of the progress records ([percentage],
    [speed], [estimatedTimeRemaining], [overallPercentage],
    [averageSpeed]) and the speed sampler that feeds only them are left
    out.  [handleMessage] here runs the continuation of the checksum
    promise of the [file_chunk] case as part of the activation that
    received the chunk, which is the schedule in which every digest is
    there before the next message is handled.  Module [Receiving] below
    has the handler and the continuation as the separate steps they are;
    [view_immediately] shows that the two agree on that schedule. *)
Module FileTransfer.
Import Constants Security Protocol.

Record File := mkFile
  { fileName : list N;
    fileType : string;
    fileLastModified : Z;
    content : list byte }.

Definition fileSize (f : File) : Z := Z.of_nat (List.length (content f)).

Inductive FileStatus := pending | transferring | completed | failed | cancelled.

Inductive BatchStatus :=
| batch_idle | batch_transferring | batch_completed | batch_cancelled.

Record TransferProgress := mkTransferProgress
  { progressFileId : string;
    progressFileName : list N;
    progressFileSize : Z;
    bytesTransferred : Z;
    status : FileStatus;
    progressError : option string }.

Record BatchProgress := mkBatchProgress
  { totalFiles : Z;
    completedFiles : Z;
    totalBytes : Z;
    batchBytesTransferred : Z;
    currentFileId : option string;
    batchStatus : BatchStatus }.

Definition initialBatchProgress : BatchProgress :=
  mkBatchProgress 0 0 0 0 None batch_idle.

Record Blob := mkBlob { blobBytes : list byte; blobType : string }.

(** What [onError] is called with. *)
Inductive ErrorReport :=
| ValidationFailed (fileName : list N) (errors : list string)
| NoValidFiles                      (* 'No valid files to send' *)
| SessionLimitExceeded (totalSize : Z)
| SendFailed                        (* 'Failed to send file chunk' *)
| UnknownFileChunk                  (* 'Received chunk for unknown file' *)
| CorruptionDetected                (* 'File corruption detected' *)
| UnknownFileComplete               (* 'File completion for unknown file' *)
| RemoteError (error : string).     (* the text of a [file_error] *)

Inductive Callback :=
| onProgress (fileProgress : TransferProgress) (batchProgress : BatchProgress)
| onFileReceived (file : Blob) (metadata : FileMetadata)
| onTransferComplete
| onError (error : ErrorReport).

Record Engine := mkEngine
  { fileProgress : gmap string TransferProgress;
    batchProgress : BatchProgress;
    isSending : bool;
    isReceiving : bool;
    receivedChunksRef : gmap string (list (option (list byte)));
    fileMetadataRef : gmap string FileMetadata;
    outbox : list PeerMessage;      (* passed to [sendMessage], oldest first *)
    calls : list Callback }.        (* callbacks invoked, oldest first *)

Definition initialEngine : Engine :=
  mkEngine ∅ initialBatchProgress false false ∅ ∅ [] [].

Definition setFileProgress
    (f : gmap string TransferProgress -> gmap string TransferProgress)
    (e : Engine) : Engine :=
  mkEngine (f (fileProgress e)) (batchProgress e) (isSending e)
    (isReceiving e) (receivedChunksRef e) (fileMetadataRef e)
    (outbox e) (calls e).

Definition setBatchProgress (f : BatchProgress -> BatchProgress)
    (e : Engine) : Engine :=
  mkEngine (fileProgress e) (f (batchProgress e)) (isSending e)
    (isReceiving e) (receivedChunksRef e) (fileMetadataRef e)
    (outbox e) (calls e).

Definition setIsSending (b : bool) (e : Engine) : Engine :=
  mkEngine (fileProgress e) (batchProgress e) b
    (isReceiving e) (receivedChunksRef e) (fileMetadataRef e)
    (outbox e) (calls e).

Definition setIsReceiving (b : bool) (e : Engine) : Engine :=
  mkEngine (fileProgress e) (batchProgress e) (isSending e)
    b (receivedChunksRef e) (fileMetadataRef e) (outbox e) (calls e).

Definition setReceivedChunks
    (m : gmap string (list (option (list byte)))) (e : Engine) : Engine :=
  mkEngine (fileProgress e) (batchProgress e) (isSending e)
    (isReceiving e) m (fileMetadataRef e) (outbox e) (calls e).

Definition setFileMetadata (m : gmap string FileMetadata) (e : Engine)
  : Engine :=
  mkEngine (fileProgress e) (batchProgress e) (isSending e)
    (isReceiving e) (receivedChunksRef e) m (outbox e) (calls e).

Definition emit (m : PeerMessage) (e : Engine) : Engine :=
  mkEngine (fileProgress e) (batchProgress e) (isSending e)
    (isReceiving e) (receivedChunksRef e) (fileMetadataRef e)
    (outbox e ++ [m]) (calls e).

Definition call (c : Callback) (e : Engine) : Engine :=
  mkEngine (fileProgress e) (batchProgress e) (isSending e)
    (isReceiving e) (receivedChunksRef e) (fileMetadataRef e)
    (outbox e) (calls e ++ [c]).

(** Partial updates of the progress records. *)
Definition withBytes (n : Z) (p : TransferProgress) : TransferProgress :=
  mkTransferProgress (progressFileId p) (progressFileName p)
    (progressFileSize p) n (status p) (progressError p).

Definition withStatus (s : FileStatus) (p : TransferProgress)
  : TransferProgress :=
  mkTransferProgress (progressFileId p) (progressFileName p)
    (progressFileSize p) (bytesTransferred p) s (progressError p).

Definition withError (err : string) (p : TransferProgress)
  : TransferProgress :=
  mkTransferProgress (progressFileId p) (progressFileName p)
    (progressFileSize p) (bytesTransferred p) (status p) (Some err).

Definition withCurrentFile (i : string) (b : BatchProgress) : BatchProgress :=
  mkBatchProgress (totalFiles b) (completedFiles b) (totalBytes b)
    (batchBytesTransferred b) (Some i) (batchStatus b).

Definition withBatchBytes (n : Z) (b : BatchProgress) : BatchProgress :=
  mkBatchProgress (totalFiles b) (completedFiles b) (totalBytes b)
    n (currentFileId b) (batchStatus b).

Definition withOneMoreCompleted (b : BatchProgress) : BatchProgress :=
  mkBatchProgress (totalFiles b) (completedFiles b + 1) (totalBytes b)
    (batchBytesTransferred b) (currentFileId b) (batchStatus b).

Definition withBatchStatus (s : BatchStatus) (b : BatchProgress)
  : BatchProgress :=
  mkBatchProgress (totalFiles b) (completedFiles b) (totalBytes b)
    (batchBytesTransferred b) (currentFileId b) s.

(** [updateFileProgress]: entries that do not exist are not created. *)
Definition updateFileProgress (fileId : string)
    (updates : TransferProgress -> TransferProgress) (e : Engine) : Engine :=
  setFileProgress
    (fun prev =>
       match prev !! fileId with
       | Some current => <[fileId := updates current]> prev
       | None => prev
       end) e.

(** [Math.ceil(size / chunk)] on natural numbers. *)
Definition ceilDiv (size chunk : nat) : nat := (size + chunk - 1) / chunk.

(** [chunks.reduce((sum, c) => sum + (c?.byteLength || 0), 0)] *)
Definition bytesIn (chunks : list (option (list byte))) : Z :=
  List.fold_left
    (fun sum c =>
       (sum + match c with
              | Some d => Z.of_nat (List.length d)
              | None => 0
              end)%Z)
    chunks 0%Z.

(** The [forEach] over [receivedChunksRef] that adds up every buffer. *)
Definition totalBytesReceived (m : gmap string (list (option (list byte))))
  : Z :=
  map_fold (fun _ fileChunks total => (total + bytesIn fileChunks)%Z) 0%Z m.

(** [chunks.filter(c => c !== undefined)] handed to the [Blob]
    constructor, which concatenates its parts. *)
Definition assemble (chunks : list (option (list byte))) : list byte :=
  List.concat (omap (fun c => c) chunks).

(** The sum the batch counter is compared against. *)
Definition sumFileBytes (m : gmap string TransferProgress) : Z :=
  map_fold (fun _ p total => (total + bytesTransferred p)%Z) 0%Z m.

(** *** Receiving *)

Definition handleMessage (message : PeerMessage) (e : Engine) : Engine :=
  match message with
  | batch_start _ totalFiles totalSize =>
      let e := setIsReceiving true e in
      let e := setReceivedChunks ∅ e in
      let e := setFileMetadata ∅ e in
      setBatchProgress
        (fun _ => mkBatchProgress totalFiles 0 totalSize 0 None
                    batch_transferring) e
  | file_metadata payload =>
      let metadata := metadata payload in
      let sanitizedMetadata :=
        mkFileMetadata (id metadata)
          (sanitizeFileName (name metadata))
          (sanitizeFileName (sanitizedName metadata))
          (size metadata) (type metadata) (lastModified metadata)
          (totalChunks metadata) (hash metadata) in
      let e :=
        setFileMetadata
          (<[id metadata := sanitizedMetadata]> (fileMetadataRef e)) e in
      let e :=
        setReceivedChunks (<[id metadata := []]> (receivedChunksRef e)) e in
      let e :=
        setFileProgress
          (fun prev =>
             <[id metadata :=
                 mkTransferProgress (id metadata)
                   (sanitizedName sanitizedMetadata) (size metadata)
                   0 transferring None]> prev) e in
      setBatchProgress (withCurrentFile (id metadata)) e
  | file_chunk chunk =>
      match receivedChunksRef e !! fileId chunk with
      | None => call (onError UnknownFileChunk) e
      | Some chunks =>
          if negb (verifyChecksum (data chunk) (checksum chunk)) then
            call (onError CorruptionDetected) e
          else
            let chunks := JS.arraySet chunks (chunkIndex chunk) (data chunk) in
            let e :=
              setReceivedChunks
                (<[fileId chunk := chunks]> (receivedChunksRef e)) e in
            let bytesTransferred := bytesIn chunks in
            match fileMetadataRef e !! fileId chunk with
            | Some _ =>
                let e :=
                  updateFileProgress (fileId chunk)
                    (withBytes bytesTransferred) e in
                setBatchProgress
                  (withBatchBytes (totalBytesReceived (receivedChunksRef e)))
                  e
            | None => e
            end
      end
  | file_complete fileId _ =>
      match receivedChunksRef e !! fileId, fileMetadataRef e !! fileId with
      | Some chunks, Some metadata =>
          let blob := mkBlob (assemble chunks) (type metadata) in
          let e :=
            updateFileProgress fileId
              (fun p => withBytes (size metadata) (withStatus completed p))
              e in
          let e := setBatchProgress withOneMoreCompleted e in
          let e :=
            setReceivedChunks (delete fileId (receivedChunksRef e)) e in
          call (onFileReceived blob metadata) e
      | _, _ => call (onError UnknownFileComplete) e
      end
  | batch_complete _ =>
      let e := setBatchProgress (withBatchStatus batch_completed) e in
      let e := setIsReceiving false e in
      let e := setFileMetadata ∅ e in
      call onTransferComplete e
  | file_error fileId error =>
      let e :=
        updateFileProgress fileId
          (fun p => withError error (withStatus failed p)) e in
      call (onError (RemoteError error)) e
  | _ => e
  end.

Definition receive (e : Engine) (messages : list PeerMessage) : Engine :=
  List.fold_left (fun e m => handleMessage m e) messages e.

(** *** Sending

    [sendFiles] is an [async] function; what it cannot decide itself is
    a parameter of the section: the channel's answer to each message, the
    value [cancelledRef.current] has at each place it is read (the flag
    is raised by [cancelTransfer] between two steps of the loop), the
    identifiers [generateFileId] draws, the batch identifier built from
    the clock, and [String.prototype.toLowerCase]. *)

Inductive CheckPoint :=
| AtFile (fileIndex : nat)
| AtChunk (fileIndex chunkIndex : nat)
| AtEnd.

Record Loop := mkLoop { engine : Engine; totalBytesTransferred : Z }.

(** A loop either runs on or has hit the [return] of a failed send. *)
Inductive Outcome :=
| Running (l : Loop)
| Returned (e : Engine).

Section Sender.

Variable toLowerCase : list N -> list N.
Variable generateFileId : nat -> string.
Variable batchId : string.
Variable sendMessage : PeerMessage -> bool.
Variable cancelled : CheckPoint -> bool.

Definition getFileExtension (fileName : list N) : list N :=
  let lastDot := JS.lastIndexOf DOT fileName in
  if (lastDot =? -1)%Z then [] else toLowerCase (JS.sliceFrom fileName lastDot).

Definition isBlockedExtension (fileName : list N) : bool :=
  let ext := getFileExtension fileName in
  List.existsb (fun blocked => bool_decide (JS.units blocked = ext))
    BLOCKED_EXTENSIONS.

(** The [errors] of [validateFile]; the file is valid when there are
    none.  Warnings do not influence the result. *)
Definition validateFile (file : File) : list string :=
  (if (MAX_FILE_SIZE <? fileSize file)%Z
   then ["File exceeds maximum size of 2GB"] else [])
  ++ (if (fileSize file =? 0)%Z then ["File is empty"] else [])
  ++ (if isBlockedExtension (fileName file)
      then ["This file type is not allowed for security reasons"] else []).

Definition createFileMetadata (file : File) (fileId : string) : FileMetadata :=
  let sanitizedName := sanitizeFileName (fileName file) in
  let totalChunks := ceilDiv (List.length (content file)) CHUNK_SIZE in
  let firstChunk := JS.slice (content file) 0 (Z.of_nat CHUNK_SIZE) in
  let hash := generateChecksum firstChunk in
  mkFileMetadata fileId (fileName file) sanitizedName (fileSize file)
    (if String.eqb (fileType file) "" then "application/octet-stream"
     else fileType file)
    (fileLastModified file) (Z.of_nat totalChunks) (Some hash).

(** The validation loop: position in [files], the valid files so far,
    their total size, and the engine that collects the error reports. *)
Definition validateStep
    (acc : nat * list (File * FileMetadata) * Z * Engine) (file : File)
  : nat * list (File * FileMetadata) * Z * Engine :=
  let '(i, validFiles, totalSize, e) := acc in
  match validateFile file with
  | [] =>
      (S i, validFiles ++ [(file, createFileMetadata file (generateFileId i))],
       (totalSize + fileSize file)%Z, e)
  | errors =>
      (S i, validFiles, totalSize,
       call (onError (ValidationFailed (fileName file) errors)) e)
  end.

Definition initialProgress (validFiles : list (File * FileMetadata))
  : gmap string TransferProgress :=
  snd
    (List.fold_left
       (fun acc vf =>
          let '(index, m) := acc in
          let metadata := snd vf in
          (S index,
           <[id metadata :=
               mkTransferProgress (id metadata) (sanitizedName metadata)
                 (size metadata) 0
                 (match index with O => transferring | S _ => pending end)
                 None]> m))
       validFiles (O, ∅)).

(** [fileProgress.get(metadata.id)?.bytesTransferred || 0], read from the
    map the callback closed over when it was created. *)
Definition previousBytes (snapshot : gmap string TransferProgress)
    (fileId : string) : Z :=
  match snapshot !! fileId with
  | Some p => bytesTransferred p
  | None => 0
  end.

Fixpoint sendChunks (snapshot : gmap string TransferProgress)
    (initialBatch : BatchProgress) (file : File) (metadata : FileMetadata)
    (fileIndex : nat) (chunkIndices : list nat) (l : Loop) : Outcome :=
  match chunkIndices with
  | [] => Running l
  | chunkIndex :: rest =>
      if cancelled (AtChunk fileIndex chunkIndex) then Running l
      else
        let start := (chunkIndex * CHUNK_SIZE)%nat in
        let end_ :=
          Nat.min (start + CHUNK_SIZE) (List.length (content file)) in
        let chunkData :=
          JS.slice (content file) (Z.of_nat start) (Z.of_nat end_) in
        let checksum := generateChecksum chunkData in
        let chunkMessage :=
          file_chunk
            (mkFileChunkPayload (id metadata) (Z.of_nat chunkIndex)
               (totalChunks metadata) chunkData checksum) in
        let e := emit chunkMessage (engine l) in
        if negb (sendMessage chunkMessage) then
          let e :=
            updateFileProgress (id metadata)
              (fun p => withError "Send failed" (withStatus failed p)) e in
          Returned (call (onError SendFailed) (setIsSending false e))
        else
          let bytesTransferred := Z.of_nat end_ in
          let total :=
            (totalBytesTransferred l - previousBytes snapshot (id metadata)
             + bytesTransferred)%Z in
          let e :=
            updateFileProgress (id metadata) (withBytes bytesTransferred) e in
          let e := setBatchProgress (withBatchBytes total) e in
          let e :=
            call
              (onProgress
                 (mkTransferProgress (id metadata) (sanitizedName metadata)
                    (size metadata) bytesTransferred transferring None)
                 (withBatchBytes total initialBatch)) e in
          sendChunks snapshot initialBatch file metadata fileIndex rest
            (mkLoop e total)
  end.

(** One turn of the loop over the valid files. *)
Definition sendFile (snapshot : gmap string TransferProgress)
    (initialBatch : BatchProgress) (fileCount : nat) (fileIndex : nat)
    (vf : File * FileMetadata) (l : Loop) : Outcome :=
  let '(file, metadata) := vf in
  let e := setBatchProgress (withCurrentFile (id metadata)) (engine l) in
  let e := updateFileProgress (id metadata) (withStatus transferring) e in
  let e :=
    emit
      (file_metadata
         (mkFileMetadataPayload metadata batchId (Z.of_nat fileIndex)
            (Z.of_nat fileCount))) e in
  match
    sendChunks snapshot initialBatch file metadata fileIndex
      (List.seq 0 (Z.to_nat (totalChunks metadata)))
      (mkLoop e (totalBytesTransferred l))
  with
  | Returned e => Returned e
  | Running l =>
      let e :=
        emit (file_complete (id metadata) (default "" (hash metadata)))
          (engine l) in
      let e :=
        updateFileProgress (id metadata)
          (fun p => withBytes (fileSize file) (withStatus completed p)) e in
      Running (mkLoop (setBatchProgress withOneMoreCompleted e)
                 (totalBytesTransferred l))
  end.

Fixpoint sendEach (snapshot : gmap string TransferProgress)
    (initialBatch : BatchProgress) (fileCount : nat) (fileIndex : nat)
    (validFiles : list (File * FileMetadata)) (l : Loop) : Outcome :=
  match validFiles with
  | [] => Running l
  | vf :: rest =>
      if cancelled (AtFile fileIndex) then Running l
      else
        match sendFile snapshot initialBatch fileCount fileIndex vf l with
        | Returned e => Returned e
        | Running l =>
            sendEach snapshot initialBatch fileCount (S fileIndex) rest l
        end
  end.

Definition sendFiles (files : list File) (e : Engine) : Engine :=
  match files with
  | [] => e
  | _ :: _ =>
      let snapshot := fileProgress e in
      let e := setIsSending true e in
      let '(_, validFiles, totalSize, e) :=
        List.fold_left validateStep files (O, [], 0%Z, e) in
      match validFiles with
      | [] => call (onError NoValidFiles) (setIsSending false e)
      | first :: _ =>
          if (MAX_SESSION_SIZE <? totalSize)%Z then
            call (onError (SessionLimitExceeded totalSize))
              (setIsSending false e)
          else
            let fileCount := List.length validFiles in
            let e := setFileProgress (fun _ => initialProgress validFiles) e in
            let initialBatch :=
              mkBatchProgress (Z.of_nat fileCount) 0 totalSize 0
                (if String.eqb (id (snd first)) "" then None
                 else Some (id (snd first)))
                batch_transferring in
            let e := setBatchProgress (fun _ => initialBatch) e in
            let e :=
              emit (batch_start batchId (Z.of_nat fileCount) totalSize) e in
            match
              sendEach snapshot initialBatch fileCount 0 validFiles
                (mkLoop e 0)
            with
            | Returned e => e
            | Running l =>
                let e := engine l in
                let e :=
                  if cancelled AtEnd then e
                  else
                    let e := emit (batch_complete batchId) e in
                    let e :=
                      setBatchProgress (withBatchStatus batch_completed) e in
                    call onTransferComplete e in
                setIsSending false e
            end
      end
  end.

End Sender.

(** [cancelTransfer]; the flag it raises is the [cancelled] parameter of the
    sender. *)
Definition cancelTransfer (e : Engine) : Engine :=
  let e := setIsSending false e in
  let e := setIsReceiving false e in
  let e := setBatchProgress (withBatchStatus batch_cancelled) e in
  setFileProgress
    (fmap (fun progress =>
             match status progress with
             | pending | transferring => withStatus cancelled progress
             | _ => progress
             end)) e.

End FileTransfer.

(** ** The receiving side with its checksum promises

    The [file_chunk] case of [handleMessage] does not wait for
    [verifyChecksum]: it looks up the array of the file, starts the
    verification and returns.  What follows the check is the
    continuation of the promise; it runs once the digest is there, after
    the handler has returned and possibly after later messages have been
    handled.  Here the handler and the continuation are steps of their
    own, and a schedule says in which order they happen.

    The continuation writes into the array [chunks] that the handler had
    looked up, whether or not [receivedChunksRef] still holds that array
    by then.  Arrays are therefore kept in a store, named by their
    position in it, and [receivedChunksRef] maps a file to the name of
    its array. *)
Module Receiving.
Import Constants Security Protocol FileTransfer.

(** What the closure passed to [then] has captured. *)
Record Continuation := mkContinuation
  { chunk : FileChunkPayload;
    chunks : nat }.

Record State := mkState
  { fileProgress : gmap string TransferProgress;
    batchProgress : BatchProgress;
    isReceiving : bool;
    arrays : list (list (option (list byte)));
    receivedChunksRef : gmap string nat;
    fileMetadataRef : gmap string FileMetadata;
    calls : list Callback;          (* callbacks invoked, oldest first *)
    pending : list Continuation }.  (* verifications under way *)

Definition initialState : State :=
  mkState ∅ initialBatchProgress false [] ∅ ∅ [] [].

Definition setFileProgress
    (f : gmap string TransferProgress -> gmap string TransferProgress)
    (s : State) : State :=
  mkState (f (fileProgress s)) (batchProgress s) (isReceiving s) (arrays s)
    (receivedChunksRef s) (fileMetadataRef s) (calls s) (pending s).

Definition setBatchProgress (f : BatchProgress -> BatchProgress)
    (s : State) : State :=
  mkState (fileProgress s) (f (batchProgress s)) (isReceiving s) (arrays s)
    (receivedChunksRef s) (fileMetadataRef s) (calls s) (pending s).

Definition setIsReceiving (b : bool) (s : State) : State :=
  mkState (fileProgress s) (batchProgress s) b (arrays s)
    (receivedChunksRef s) (fileMetadataRef s) (calls s) (pending s).

Definition setArrays (a : list (list (option (list byte)))) (s : State)
  : State :=
  mkState (fileProgress s) (batchProgress s) (isReceiving s) a
    (receivedChunksRef s) (fileMetadataRef s) (calls s) (pending s).

Definition setReceivedChunks (m : gmap string nat) (s : State) : State :=
  mkState (fileProgress s) (batchProgress s) (isReceiving s) (arrays s)
    m (fileMetadataRef s) (calls s) (pending s).

Definition setFileMetadata (m : gmap string FileMetadata) (s : State)
  : State :=
  mkState (fileProgress s) (batchProgress s) (isReceiving s) (arrays s)
    (receivedChunksRef s) m (calls s) (pending s).

Definition call (c : Callback) (s : State) : State :=
  mkState (fileProgress s) (batchProgress s) (isReceiving s) (arrays s)
    (receivedChunksRef s) (fileMetadataRef s) (calls s ++ [c]) (pending s).

Definition setPending (p : list Continuation) (s : State) : State :=
  mkState (fileProgress s) (batchProgress s) (isReceiving s) (arrays s)
    (receivedChunksRef s) (fileMetadataRef s) (calls s) p.

(** [updateFileProgress]: entries that do not exist are not created. *)
Definition updateFileProgress (fileId : string)
    (updates : TransferProgress -> TransferProgress) (s : State) : State :=
  setFileProgress
    (fun prev =>
       match prev !! fileId with
       | Some current => <[fileId := updates current]> prev
       | None => prev
       end) s.

(** The elements of the array named [a]. *)
Definition elements (a : nat) (s : State) : list (option (list byte)) :=
  default [] (arrays s !! a).

(** The [forEach] over [receivedChunksRef] that adds up every buffer. *)
Definition totalBytesReceived (s : State) : Z :=
  map_fold (fun _ a total => (total + bytesIn (elements a s))%Z) 0%Z
    (receivedChunksRef s).

(** The body of [handleMessage], up to its [break] or [return]. *)
Definition handleMessage (message : PeerMessage) (s : State) : State :=
  match message with
  | batch_start _ totalFiles totalSize =>
      let s := setIsReceiving true s in
      let s := setReceivedChunks ∅ s in
      let s := setFileMetadata ∅ s in
      setBatchProgress
        (fun _ => mkBatchProgress totalFiles 0 totalSize 0 None
                    batch_transferring) s
  | file_metadata payload =>
      let metadata := metadata payload in
      let sanitizedMetadata :=
        mkFileMetadata (id metadata)
          (sanitizeFileName (name metadata))
          (sanitizeFileName (sanitizedName metadata))
          (size metadata) (type metadata) (lastModified metadata)
          (totalChunks metadata) (hash metadata) in
      let s :=
        setFileMetadata
          (<[id metadata := sanitizedMetadata]> (fileMetadataRef s)) s in
      let created := List.length (arrays s) in
      let s := setArrays (arrays s ++ [[]]) s in
      let s :=
        setReceivedChunks (<[id metadata := created]> (receivedChunksRef s))
          s in
      let s :=
        setFileProgress
          (fun prev =>
             <[id metadata :=
                 mkTransferProgress (id metadata)
                   (sanitizedName sanitizedMetadata) (size metadata)
                   0 transferring None]> prev) s in
      setBatchProgress (withCurrentFile (id metadata)) s
  | file_chunk chunk =>
      match receivedChunksRef s !! fileId chunk with
      | None => call (onError UnknownFileChunk) s
      | Some chunks =>
          setPending (pending s ++ [mkContinuation chunk chunks]) s
      end
  | file_complete fileId _ =>
      match receivedChunksRef s !! fileId, fileMetadataRef s !! fileId with
      | Some chunks, Some metadata =>
          let blob := mkBlob (assemble (elements chunks s)) (type metadata) in
          let s :=
            updateFileProgress fileId
              (fun p => withBytes (size metadata) (withStatus completed p))
              s in
          let s := setBatchProgress withOneMoreCompleted s in
          let s :=
            setReceivedChunks (delete fileId (receivedChunksRef s)) s in
          call (onFileReceived blob metadata) s
      | _, _ => call (onError UnknownFileComplete) s
      end
  | batch_complete _ =>
      let s := setBatchProgress (withBatchStatus batch_completed) s in
      let s := setIsReceiving false s in
      let s := setFileMetadata ∅ s in
      call onTransferComplete s
  | file_error fileId error =>
      let s :=
        updateFileProgress fileId
          (fun p => withError error (withStatus failed p)) s in
      call (onError (RemoteError error)) s
  | _ => s
  end.

(** The function passed to [then], applied to the result of
    [verifyChecksum (chunk.data, chunk.checksum)]. *)
Definition verified (c : Continuation) (s : State) : State :=
  let chunk := chunk c in
  if negb (verifyChecksum (data chunk) (checksum chunk)) then
    call (onError CorruptionDetected) s
  else
    let written :=
      JS.arraySet (elements (chunks c) s) (chunkIndex chunk) (data chunk) in
    let s := setArrays (<[chunks c := written]> (arrays s)) s in
    let bytesTransferred := bytesIn written in
    match fileMetadataRef s !! fileId chunk with
    | Some _ =>
        let s :=
          updateFileProgress (fileId chunk) (withBytes bytesTransferred) s in
        setBatchProgress (withBatchBytes (totalBytesReceived s)) s
    | None => s
    end.

(** One activation: a message is handled, or the digest of the
    verification at position [k] of the pending ones is there and its
    continuation runs. *)
Inductive Event :=
| Message (message : PeerMessage)
| Verified (k : nat).

Definition step (ev : Event) (s : State) : State :=
  match ev with
  | Message message => handleMessage message s
  | Verified k =>
      match pending s !! k with
      | Some c => verified c (setPending (delete k (pending s)) s)
      | None => s
      end
  end.

Definition run (schedule : list Event) (s : State) : State :=
  List.fold_left (fun s ev => step ev s) schedule s.

(** The messages of a schedule, in the order they are handled. *)
Definition messagesOf (schedule : list Event) : list PeerMessage :=
  omap (fun ev => match ev with Message m => Some m | Verified _ => None end)
    schedule.

(** No verification is under way whenever a [file_complete] is
    handled. *)
Fixpoint verifiedBeforeCompletion (schedule : list Event) (s : State)
  : bool :=
  match schedule with
  | [] => true
  | ev :: rest =>
      match ev with
      | Message (file_complete _ _) =>
          match pending s with
          | [] => verifiedBeforeCompletion rest (step ev s)
          | _ :: _ => false
          end
      | _ => verifiedBeforeCompletion rest (step ev s)
      end
  end.

(** The schedule in which the verification started by a message is
    through before the next message is handled. *)
Definition immediately (messages : list PeerMessage) : list Event :=
  List.flat_map (fun m => [Message m; Verified 0]) messages.

(** What [FileTransfer.handleMessage] sees of a receiver: each file with
    the elements of its array.  The sending side is that of [e]. *)
Definition view (e : Engine) (s : State) : Engine :=
  mkEngine (fileProgress s) (batchProgress s) (isSending e) (isReceiving s)
    ((fun a => elements a s) <$> receivedChunksRef s) (fileMetadataRef s)
    (outbox e) (calls s).

End Receiving.

(** ** The rest of [utils/fileValidation.ts]

    [FileTransfer.validateFile] above is the [errors] list of
    [validateFile]; here are the warnings, the signature check and the
    batch validation.  [MAGIC_BYTES] is an object literal, so a lookup
    also finds what every object inherits; such a value is neither
    [undefined] nor an array, and [signatures.some] then raises a
    [TypeError].  A function that can raise returns [None] for it. *)
Module FileValidation.
Import Constants Security FileTransfer.

Definition MAGIC_BYTES : list (string * list (list byte)) :=
  [ ("image/jpeg", [[xff; xd8; xff]]);
    ("image/png", [[x89; x50; x4e; x47; x0d; x0a; x1a; x0a]]);
    ("image/gif",
     [[x47; x49; x46; x38; x37; x61]; [x47; x49; x46; x38; x39; x61]]);
    ("image/webp", [[x52; x49; x46; x46]]);
    ("video/mp4", [[x00; x00; x00]; [x66; x74; x79; x70]]);
    ("video/quicktime", [[x00; x00; x00]]);
    ("video/webm", [[x1a; x45; xdf; xa3]]);
    ("application/pdf", [[x25; x50; x44; x46]]);
    ("application/zip", [[x50; x4b; x03; x04]; [x50; x4b; x05; x06]]);
    ("application/msword", [[xd0; xcf; x11; xe0]]);
    ("application/vnd.openxmlformats-officedocument.wordprocessingml.document",
     [[x50; x4b; x03; x04]]) ].

(** The property names an object literal inherits. *)
Definition OBJECT_PROTOTYPE_KEYS : list string :=
  [ "constructor"; "hasOwnProperty"; "isPrototypeOf";
    "propertyIsEnumerable"; "toLocaleString"; "toString"; "valueOf";
    "__proto__"; "__defineGetter__"; "__defineSetter__";
    "__lookupGetter__"; "__lookupSetter__" ].

Definition arrayIncludes (items : list string) (s : string) : bool :=
  List.existsb (String.eqb s) items.

(** The value of [MAGIC_BYTES[fileType]]. *)
Inductive Property :=
| Own (signatures : list (list byte))
| Inherited
| Undefined.

Definition magicBytes (fileType : string) : Property :=
  match List.find (fun entry => String.eqb (fst entry) fileType) MAGIC_BYTES with
  | Some entry => Own (snd entry)
  | None =>
      if arrayIncludes OBJECT_PROTOTYPE_KEYS fileType then Inherited
      else Undefined
  end.

Definition isAllowedMimeType (mimeType : string) : bool :=
  let allAllowed :=
    ALLOWED_FILE_TYPES.images ++ ALLOWED_FILE_TYPES.videos
    ++ ALLOWED_FILE_TYPES.documents ++ ALLOWED_FILE_TYPES.audio in
  arrayIncludes allAllowed mimeType.

(** [sig.every((byte, index) => bytes[index] === byte)], from [index]
    on; a read past the end of [bytes] is [undefined]. *)
Fixpoint every (sig : list byte) (index : nat) (bytes : list byte) : bool :=
  match sig with
  | [] => true
  | byte :: rest =>
      match bytes !! index with
      | Some b => Byte.eqb b byte
      | None => false
      end
      && every rest (S index) bytes
  end.

Definition verifyFileSignature (file : File) : option bool :=
  let bytes := JS.slice (content file) 0 12 in
  match magicBytes (fileType file) with
  | Undefined => Some true
  | Inherited => None
  | Own signatures =>
      Some (List.existsb (fun sig => every sig 0 bytes) signatures)
  end.

Inductive FileCategory := Image | Video | Document | Audio | Unknown.

Definition getFileCategory (mimeType : string) : FileCategory :=
  if arrayIncludes ALLOWED_FILE_TYPES.images mimeType then Image
  else if arrayIncludes ALLOWED_FILE_TYPES.videos mimeType then Video
  else if arrayIncludes ALLOWED_FILE_TYPES.documents mimeType then Document
  else if arrayIncludes ALLOWED_FILE_TYPES.audio mimeType then Audio
  else Unknown.

Inductive Warning :=
| UnsupportedType (fileType : string)   (* File type ... may not be fully supported *)
| UnknownType                           (* Unknown file type - proceed with caution *)
| SignatureMismatch                     (* File signature does not match declared type *)
| NameModified.                         (* File name was modified for security *)

Record FileValidationResult := mkFileValidationResult
  { isValid : bool;
    errors : list string;
    warnings : list Warning }.

Record BatchValidation := mkBatchValidation
  { validFiles : list File;
    invalidFiles : list (File * FileValidationResult);
    totalSize : Z;
    isWithinSessionLimit : bool }.

Section Validation.

Variable toLowerCase : list N -> list N.

Definition validateFile (file : File) : option FileValidationResult :=
  let errors := FileTransfer.validateFile toLowerCase file in
  let typeWarnings :=
    if isAllowedMimeType (fileType file) then []
    else if String.eqb (fileType file) "" then [UnknownType]
         else [UnsupportedType (fileType file)] in
  let signatureWarnings :=
    if negb (String.eqb (fileType file) "")
       && match magicBytes (fileType file) with
          | Undefined => false
          | _ => true
          end
    then match verifyFileSignature file with
         | Some true => Some []
         | Some false => Some [SignatureMismatch]
         | None => None
         end
    else Some [] in
  match signatureWarnings with
  | None => None
  | Some signatureWarnings =>
      let nameWarnings :=
        if bool_decide (sanitizeFileName (fileName file) = fileName file)
        then [] else [NameModified] in
      Some (mkFileValidationResult
              (match errors with [] => true | _ :: _ => false end)
              errors
              (typeWarnings ++ signatureWarnings ++ nameWarnings))
  end.

(** One turn of the loop of [validateBatch]. *)
Definition validateBatchStep (acc : option BatchValidation) (file : File)
  : option BatchValidation :=
  match acc with
  | None => None
  | Some batch =>
      match validateFile file with
      | None => None
      | Some result =>
          if isValid result then
            Some (mkBatchValidation (validFiles batch ++ [file])
                    (invalidFiles batch)
                    (totalSize batch + fileSize file)%Z
                    (isWithinSessionLimit batch))
          else
            Some (mkBatchValidation (validFiles batch)
                    (invalidFiles batch ++ [(file, result)])
                    (totalSize batch)
                    (isWithinSessionLimit batch))
      end
  end.

Definition validateBatch (files : list File) : option BatchValidation :=
  match
    List.fold_left validateBatchStep files
      (Some (mkBatchValidation [] [] 0%Z true))
  with
  | None => None
  | Some batch =>
      Some (mkBatchValidation (validFiles batch) (invalidFiles batch)
              (totalSize batch)
              (totalSize batch <=? MAX_SESSION_SIZE)%Z)
  end.

End Validation.

End FileValidation.

(** ** Display helpers ([utils/formatters.ts])

    [maxLength] is taken to be an integer. *)
Module Formatters.
Import Security.

Definition truncate (str : list N) (maxLength : Z) : list N :=
  if (Z.of_nat (List.length str) <=? maxLength)%Z then str
  else JS.slice str 0 (maxLength - 3) ++ JS.units "...".

Definition truncateFilename (filename : list N) (maxLength : Z) : list N :=
  if (Z.of_nat (List.length filename) <=? maxLength)%Z then filename
  else
    let lastDot := JS.lastIndexOf DOT filename in
    if (lastDot =? -1)%Z then truncate filename maxLength
    else
      let ext := JS.sliceFrom filename lastDot in
      let name := JS.slice filename 0 lastDot in
      let maxNameLength := (maxLength - Z.of_nat (List.length ext) - 3)%Z in
      if (maxNameLength <? 5)%Z then truncate filename maxLength
      else JS.slice name 0 maxNameLength ++ JS.units "..." ++ ext.

End Formatters.

(** ** The remaining operations of the connection hook

    [setPin], [disconnect] and the handler the hook installs for the
    [close] event of the data connection. *)
Module Connection.
Import Constants Security Protocol WebRTC.

Definition setPin (pin : string) (h : Hook) : Hook :=
  let h :=
    mkHook (mode h) (hasOnConnectionRequest h) (hasOnPinRequired h)
      (connectionInfo h) (connectionRef h) (peerRef h)
      (heartbeatIntervalRef h) (Some (hashPin pin)) (pinAttemptsRef h)
      (roomCodeRef h) (rateLimitStore h) (sessionStore h) (sent h)
      (calls h) in
  setInfo (withPinRequired true) h.

Definition disconnect (h : Hook) : Hook :=
  let h :=
    match connectionRef h with
    | Some _ => send Protocol.disconnect h
    | None => h
    end in
  let h := cleanup h in
  setInfo (fun _ => initialConnectionInfo) h.

Definition onClose (h : Hook) : Hook :=
  let h := cleanup h in
  let h := setInfo (withState disconnected) h in
  call onDisconnected h.

End Connection.

(** ** The receiving view's use of the two hooks ([ReceiverView.tsx])

    [handleIncomingMessage] is the [onMessage] callback given to the
    connection hook; [handleFileReceived] is the [onFileReceived]
    callback given to the transfer hook. *)
Module ReceiverView.
Import Security Protocol FileTransfer.

Definition isTransferMessage (message : PeerMessage) : bool :=
  match message with
  | batch_start _ _ _ | file_metadata _ | file_chunk _
  | file_complete _ _ | batch_complete _ | file_error _ _ => true
  | _ => false
  end.

Definition handleIncomingMessage (message : PeerMessage) (e : Engine)
  : Engine :=
  if isTransferMessage message then FileTransfer.handleMessage message e
  else e.

Record ReceivedFile := mkReceivedFile
  { receivedId : string;
    receivedName : list N;          (* also the name of the download *)
    receivedSize : Z;
    receivedType : string;
    receivedBlob : Blob }.

Definition handleFileReceived (blob : Blob) (metadata : FileMetadata)
    (receivedFiles : list ReceivedFile) : list ReceivedFile :=
  let sanitizedName := sanitizeFileName (name metadata) in
  receivedFiles
  ++ [mkReceivedFile (id metadata) sanitizedName (size metadata)
        (type metadata) blob].

End ReceiverView.

(** ** The audit log ([utils/auditLog.ts])

    A details object is the finite map of its own enumerable properties;
    a value is a string or something else.  The identifier of an event,
    which is drawn at random, and the clock are arguments. *)
Module AuditLog.
Import Security.

Definition MAX_EVENTS : nat := 50.

Inductive AuditEventType :=
| room_created | connection_attempt | connection_approved
| connection_denied | pin_set | pin_verified | pin_failed
| file_validation_passed | file_validation_failed | transfer_started
| transfer_completed | transfer_failed | rate_limit_exceeded
| session_timeout | error_event.

Inductive Severity := info | warning | error.

Section Log.

Variable Other : Type.
Variable toLowerCase : list N -> list N.

Inductive Value :=
| VString (s : list N)
| VOther (o : Other).

Record AuditEvent := mkAuditEvent
  { eventId : string;
    timestamp : Z;
    event : AuditEventType;
    details : gmap (list N) Value;
    severity : Severity }.

Definition SENSITIVE : list string :=
  [ "pin"; "password"; "token"; "secret"; "key" ].

Definition REDACTED : Value := VString (JS.units "[REDACTED]").

(** The last element of a list of pieces; [undefined] does not arise
    because [split] gives at least one piece. *)
Definition lastPiece (parts : list (list N)) : list N :=
  List.last parts [].

(** What the body of the loop of [sanitizeDetails] assigns under
    [key]. *)
Definition sanitizeValue (key : list N) (value : Value) : Value :=
  let lower := toLowerCase key in
  if List.existsb (fun s => JS.includes (JS.units s) lower) SENSITIVE
  then REDACTED
  else
    match value with
    | VString text =>
        if JS.includes (JS.units "peerid") lower
        then VString (JS.slice text 0 8 ++ JS.units "...")
        else if JS.includes (JS.units "filename") lower
             then VString (lastPiece (JS.splitOn isPathSeparator text))
             else value
    | VOther _ => value
    end.

(** The one key for which [sanitized[key] = ...] creates no property
    of the object: the assignment goes to the setter of the prototype. *)
Definition PROTO : list N := JS.units "__proto__".

(** The loop over [Object.entries(details)]. *)
Definition sanitizeDetails (details : gmap (list N) Value)
  : gmap (list N) Value :=
  map_imap
    (fun key value =>
       if bool_decide (key = PROTO) then None
       else Some (sanitizeValue key value))
    details.

(** [while (events.length > MAX_EVENTS) events.shift()] *)
Fixpoint shiftWhileOver (events : list AuditEvent) : list AuditEvent :=
  match events with
  | [] => []
  | _ :: rest =>
      if (MAX_EVENTS <? List.length events)%nat then shiftWhileOver rest
      else events
  end.

Definition logAuditEvent (id : string) (now : Z) (event : AuditEventType)
    (details : gmap (list N) Value) (severity : Severity)
    (events : list AuditEvent) : AuditEvent * list AuditEvent :=
  let auditEvent :=
    mkAuditEvent id now event (sanitizeDetails details) severity in
  (auditEvent, shiftWhileOver (events ++ [auditEvent])).

Definition getAuditEvents (events : list AuditEvent) : list AuditEvent :=
  events.

(** [events.slice(-count)] *)
Definition getRecentEvents (count : Z) (events : list AuditEvent)
  : list AuditEvent :=
  JS.sliceFrom events (- count).

Definition clearAuditLog (events : list AuditEvent) : list AuditEvent := [].

Definition logRateLimitExceeded (id : string) (now : Z) (key : list N)
    (events : list AuditEvent) : list AuditEvent :=
  snd (logAuditEvent id now rate_limit_exceeded
         {[ JS.units "key" := VString key ]} warning events).

Definition logConnectionApproved (id : string) (now : Z) (peerId : list N)
    (events : list AuditEvent) : list AuditEvent :=
  snd (logAuditEvent id now connection_approved
         {[ JS.units "peerId" := VString peerId ]} info events).

End Log.

Arguments VString {Other} s.
Arguments VOther {Other} o.
Arguments REDACTED {Other}.
Arguments mkAuditEvent {Other} eventId timestamp event details severity.
Arguments eventId {Other} a.
Arguments timestamp {Other} a.
Arguments event {Other} a.
Arguments details {Other} a.
Arguments severity {Other} a.
Arguments sanitizeValue {Other} toLowerCase key value.
Arguments sanitizeDetails {Other} toLowerCase details.
Arguments shiftWhileOver {Other} events.
Arguments logAuditEvent {Other} toLowerCase id now event details severity
  events.
Arguments getAuditEvents {Other} events.
Arguments getRecentEvents {Other} count events.
Arguments clearAuditLog {Other} events.
Arguments logRateLimitExceeded {Other} toLowerCase id now key events.
Arguments logConnectionApproved {Other} toLowerCase id now peerId events.

End AuditLog.

(** * Statements

    The vocabulary of the statements and the sample inputs come first,
    the lemmas and theorems after them. *)

Import Constants Security Protocol FileTransfer WebRTC ApprovalUI Receiver.

Definition isLowerHex (c : ascii) : bool :=
  List.existsb (Ascii.eqb c) (list_ascii_of_string "0123456789abcdef").

Definition hexByteOk (b : byte) : bool :=
  match hexByte b with
  | String c1 (String c2 EmptyString) => isLowerHex c1 && isLowerHex c2
  | _ => false
  end.

Definition idleHost : Hook :=
  mkHook host true false initialConnectionInfo (Some true) true false
    None 0 (Some "ABCD-EFGH") ∅ ∅ [] [].

(** What the user does with a request that is put before them, short of
    approving it. *)
Inductive Answer := TurnedDown | Unanswered.

(** A request that is not approved: the callback settles with [false],
    or has not settled. *)
Definition unapprovedRequest (now : Z) (remotePeerId deviceInfo : string)
    (answer : Answer) (h : Hook) : Hook :=
  let r := WebRTC.handleMessage now (connection_request remotePeerId deviceInfo) h in
  match snd r, answer with
  | AwaitApproval peer, TurnedDown => resumeApproval now peer false (fst r)
  | _, _ => fst r
  end.

(** The requests a peer sends one after the other, each with its time
    and device text. *)
Definition requestsFrom (remotePeerId : string) (requests : list (Z * string))
    (h : Hook) : Hook :=
  List.fold_left
    (fun h r =>
       fst (WebRTC.handleMessage (fst r) (connection_request remotePeerId (snd r)) h))
    requests h.

(** The host after two requests of [client-1] that were turned down and
    a third that was approved. *)
Definition approvedAtTheThird : Hook :=
  resumeApproval 3000 "client-1" true
    (fst (WebRTC.handleMessage 3000 (connection_request "client-1" "agent")
            (unapprovedRequest 2000 "client-1" "agent" TurnedDown
               (unapprovedRequest 1000 "client-1" "agent" TurnedDown
                  idleHost)))).

(** The host handling a run of [pin_attempt] messages. *)
Definition hostReceives (now : Z) (messages : list PeerMessage) (h : Hook)
  : Hook :=
  List.fold_left (fun h m => fst (WebRTC.handleMessage now m h)) messages h.

Definition pinHost : Hook :=
  mkHook host true false
    (mkConnectionInfo awaiting_approval (Some "st-abcdefgh") (Some "client-1")
       (Some "ABCD-EFGH") None None true false)
    (Some true) true false
    (Some (hashPin "1234")) 0 (Some "ABCD-EFGH") ∅
    {[ "ABCDEFGH" := mkSession "ABCDEFGH" 0 3600000 None ]} [] [].

(** The client of this repository numbers its attempts 1, 2, 3: the
    exchange below is the one a user who types three wrong PINs
    produces.  The host denies at the third, and the PIN prompt was
    shown three times. *)
Definition pinClient : Hook :=
  mkHook client false true
    (mkConnectionInfo awaiting_approval (Some "client-1") (Some "ABCDEFGH")
       (Some "ABCD-EFGH") None None false false)
    (Some true) true false None 0 None ∅ ∅ [] [].

(** The client handles [m] and answers the prompt, if one opens, with
    [typed]. *)
Definition clientTurn (m : PeerMessage) (typed : option string) (c : Hook)
  : Hook :=
  let '(c, susp) := WebRTC.handleMessage 0 m c in resumePin susp typed c.

Definition lastSent (h : Hook) : list PeerMessage :=
  match List.rev (sent h) with
  | m :: _ => [m]
  | [] => []
  end.

(** Whether a name contains two consecutive dots. *)
Fixpoint hasDotDot (s : list N) : bool :=
  match s with
  | a :: ((b :: _) as t) => ((a =? DOT) && (b =? DOT))%N || hasDotDot t
  | _ => false
  end.

Definition alphabetOk (i : nat) : bool :=
  match String.get i ROOM_CODE_ALPHABET with
  | Some c =>
      alphabetIncludes c && negb (Ascii.eqb c "-")
      && Ascii.eqb (JS.upperAscii c) c
  | None => false
  end.

Definition ticksAt (times : list Z) : list (Z * Event) :=
  List.map (fun t => (t, TimerTick)) times.

Definition notes : list byte := [x01; x02; x03].

Definition notesMetadata : FileMetadata :=
  mkFileMetadata "file-1" (JS.units "notes.txt") (JS.units "notes.txt")
    3 "text/plain" 0 1 (Some (generateChecksum notes)).

(** The delivery of [notes] in which the third byte of the only chunk
    was changed on the way. *)
Definition corruptedDelivery : list PeerMessage :=
  [ batch_start "batch-1" 1 3;
    file_metadata (mkFileMetadataPayload notesMetadata "batch-1" 0 1);
    file_chunk
      (mkFileChunkPayload "file-1" 0 1 [x01; x02; xff]
         (generateChecksum notes));
    file_complete "file-1" (generateChecksum notes);
    batch_complete "batch-1" ].

Definition asciiLower (s : list N) : list N :=
  List.map (fun c => if ((65 <=? c) && (c <=? 90))%N then (c + 32)%N else c) s.

Definition memo : File := mkFile (JS.units "memo.txt") "text/plain" 0 [x04].

Definition notesFile : File :=
  mkFile (JS.units "notes.txt") "text/plain" 0 notes.

Definition emptyFile : File :=
  mkFile (JS.units "empty.txt") "text/plain" 0 [].

Definition twoFileIds (i : nat) : string :=
  match i with O => "file-1" | _ => "file-2" end.

(** What a sender with a working channel and no cancellation emits for
    the batch of [notesFile] and [memo]. *)
Definition twoFileStream : list PeerMessage :=
  outbox (sendFiles asciiLower twoFileIds "batch-1" (fun _ => true)
            (fun _ => false) [notesFile; memo] initialEngine).

Definition video : File :=
  mkFile (JS.units "video.mp4") "video/mp4" 0
    (List.repeat x00 (CHUNK_SIZE + 1)).

Definition videoSent : Engine :=
  sendFiles asciiLower (fun _ => "file-1") "batch-1" (fun _ => true)
    (fun _ => false) [video] initialEngine.

Definition progressReports (e : Engine) : list (Z * Z) :=
  omap (fun c => match c with
                 | onProgress f b =>
                     Some (bytesTransferred f, batchBytesTransferred b)
                 | _ => None
                 end) (FileTransfer.calls e).

(** The bytes of chunk [i]: the [i]-th run of [CHUNK_SIZE] bytes. *)
Definition chunkBytes (file : File) (i : nat) : list byte :=
  take CHUNK_SIZE (drop (i * CHUNK_SIZE) (content file)).

(** The chunk message the specification describes for chunk [i]. *)
Definition expectedChunk (file : File) (metadata : FileMetadata) (i : nat)
  : PeerMessage :=
  file_chunk
    (mkFileChunkPayload (id metadata) (Z.of_nat i) (totalChunks metadata)
       (chunkBytes file i) (generateChecksum (chunkBytes file i))).



(** The files of a batch that pass validation, in order, each with the
    metadata the sender creates for it; [generateFileId i] is the
    identifier drawn for the file at position [i] of the batch. *)
Fixpoint validFilesOf (toLowerCase : list N -> list N)
    (generateFileId : nat -> string) (i : nat) (files : list File)
  : list (File * FileMetadata) :=
  match files with
  | [] => []
  | file :: rest =>
      match validateFile toLowerCase file with
      | [] =>
          (file, createFileMetadata file (generateFileId i))
          :: validFilesOf toLowerCase generateFileId (S i) rest
      | _ :: _ => validFilesOf toLowerCase generateFileId (S i) rest
      end
  end.

Definition totalSizeOf (validFiles : list (File * FileMetadata)) : Z :=
  List.fold_right (fun vf total => (fileSize (fst vf) + total)%Z) 0%Z
    validFiles.

(** A pair of the valid list: a file that passed validation with metadata
    created from it. *)
Definition validPair (toLowerCase : list N -> list N)
    (vf : File * FileMetadata) : Prop :=
  validateFile toLowerCase (fst vf) = []
  /\ exists fileId, snd vf = createFileMetadata (fst vf) fileId.



(** The metadata record the receiver keeps: the names sanitised again. *)
Definition sanitizedCopy (m : FileMetadata) : FileMetadata :=
  mkFileMetadata (id m) (sanitizeFileName (name m))
    (sanitizeFileName (sanitizedName m)) (size m) (type m) (lastModified m)
    (totalChunks m) (hash m).

(** What the receiver hands on for a file that arrived whole. *)
Definition delivered (vf : File * FileMetadata) : FileTransfer.Callback :=
  onFileReceived (mkBlob (content (fst vf)) (type (snd vf)))
    (sanitizedCopy (snd vf)).

(** The chunk indices of the file are array indices. *)
Definition chunksFitAnArray (vf : File * FileMetadata) : Prop :=
  (Z.of_nat (ceilDiv (List.length (content (fst vf))) CHUNK_SIZE)
   <= 4294967295)%Z.

Definition storedChunks (file : File) (k : nat) : list (option (list byte)) :=
  List.map (fun i => Some (chunkBytes file i)) (List.seq 0 k).



(** The declared type is not the name of a property every object
    inherits, so that the lookup of signatures cannot raise. *)
Definition hasPlainType (file : File) : Prop :=
  FileValidation.arrayIncludes FileValidation.OBJECT_PROTOTYPE_KEYS
    (fileType file) = false.

(** The buffer of a file of [n] chunks holds the chunks with an index in
    [received] at their places, and no chunk that is not of the file. *)
Definition holdsChunksOf (file : File) (n : nat) (received : nat -> Prop)
    (arr : list (option (list byte))) : Prop :=
  (List.length arr <= n)%nat
  /\ (forall j d, arr !! j = Some (Some d) -> d = chunkBytes file j)
  /\ (forall j, received j -> arr !! j = Some (Some (chunkBytes file j))).

(** The payload of the chunk message for chunk [i]. *)
Definition chunkPayload (file : File) (metadata : FileMetadata) (i : nat)
  : FileChunkPayload :=
  mkFileChunkPayload (id metadata) (Z.of_nat i) (totalChunks metadata)
    (chunkBytes file i) (generateChecksum (chunkBytes file i)).

(** The number of chunks of a file. *)
Definition chunkCount (file : File) : nat :=
  ceilDiv (List.length (content file)) CHUNK_SIZE.

(** The verification of chunk [j] of the file, started while the array
    [a] was the array of the file. *)
Definition verificationOf (file : File) (metadata : FileMetadata) (a j : nat)
  : Receiving.Continuation :=
  Receiving.mkContinuation (chunkPayload file metadata j) a.

(** The receiver between the metadata of a file and its [file_complete]:
    the array [a] is the array of the file, the chunks with an index in
    [arrived] are in it or under verification, and nothing was handed
    on since [kept]. *)
Definition receivingFile (file : File) (metadata : FileMetadata) (a : nat)
    (arrived : list nat) (kept : list FileTransfer.Callback)
    (s : Receiving.State) : Prop :=
  Receiving.receivedChunksRef s !! id metadata = Some a
  /\ Receiving.fileMetadataRef s !! id metadata = Some (sanitizedCopy metadata)
  /\ Receiving.calls s = kept
  /\ Forall
       (fun c =>
          exists j,
            (j < chunkCount file)%nat /\ c = verificationOf file metadata a j)
       (Receiving.pending s)
  /\ exists arr,
       Receiving.arrays s !! a = Some arr
       /\ holdsChunksOf file (chunkCount file)
            (fun j =>
               List.In j arrived
               /\ ~ List.In (verificationOf file metadata a j)
                      (Receiving.pending s))
            arr.


(** The schedule in which every message of the stream is handled before
    any verification is through. *)
Definition nothingVerified (stream : list PeerMessage)
  : list Receiving.Event :=
  List.map Receiving.Message stream.

(** The glyphs the comment on the alphabet lists as ambiguous. *)
Definition isAmbiguousGlyph (c : ascii) : bool :=
  List.existsb (Ascii.eqb c) ["0"; "O"; "I"; "1"; "L"]%char.

Definition isAsciiText (s : string) : Prop :=
  Forall (fun c => (N_of_ascii c < 128)%N) (list_ascii_of_string s).

Definition noDash (l : list ascii) : Prop :=
  Forall (fun c => Ascii.eqb c "-" = false) l.

(** The normalised code as a list of characters. *)
Definition normalizedChars (code : string) : list ascii :=
  List.map JS.upperAscii
    (List.filter (fun c => negb (Ascii.eqb c "-"))
       (list_ascii_of_string code)).

(** What one code unit becomes when all five replacements are applied
    at once. *)
Definition escapeUnit (c : N) : list N :=
  if (c =? 38)%N then JS.units "&amp;"
  else if (c =? 60)%N then JS.units "&lt;"
  else if (c =? 62)%N then JS.units "&gt;"
  else if (c =? 34)%N then JS.units "&quot;"
  else if (c =? 39)%N then JS.units "&#039;"
  else [c].

(** Less-than, greater-than, double quote and apostrophe. *)
Definition isMarkup (c : N) : bool :=
  ((c =? 60) || (c =? 62) || (c =? 34) || (c =? 39))%N.

(** The units [sanitizeText] leaves alone. *)
Definition isPlain (c : N) : bool := negb (isMarkup c || (c =? 38)%N).

(** A name without slash or backslash, without any of the seven special
    characters, without control character, and not blank. *)
Definition isCleanName (s : list N) : Prop :=
  Forall (fun c => isPathSeparator c = false) s
  /\ Forall (fun c => isSpecial c = false) s
  /\ Forall (fun c => isControl c = false) s
  /\ JS.trim s <> [].

(** The store after a first attempt at [t1] and further attempts at
    [times], all by [key]. *)
Definition recordAttempts (key : string) (m w b : Z) (times : list Z)
    (store : gmap string RateLimitEntry) : gmap string RateLimitEntry :=
  List.fold_left (fun store t => snd (recordAttempt t key m w b store))
    times store.

(** [content] begins with the bytes of [sig]. *)
Fixpoint beginsWith (sig content : list byte) : bool :=
  match sig, content with
  | [], _ => true
  | _ :: _, [] => false
  | byte :: sig', b :: content' => Byte.eqb b byte && beginsWith sig' content'
  end.

(** Whether [validateFile] finds no error. *)
Definition passesValidation (toLowerCase : list N -> list N) (file : File)
  : bool :=
  match FileTransfer.validateFile toLowerCase file with
  | [] => true
  | _ :: _ => false
  end.

(** The files that fail validation, each with the result of its own
    validation. *)
Definition invalidEntries (toLowerCase : list N -> list N)
    (files : list File)
  : list (File * FileValidation.FileValidationResult) :=
  omap
    (fun file =>
       match FileValidation.validateFile toLowerCase file with
       | Some result =>
           if FileValidation.isValid result then None
           else Some (file, result)
       | None => None
       end)
    files.

Definition sizeOfFiles (files : list File) : Z :=
  List.fold_right (fun file total => (fileSize file + total)%Z) 0%Z files.

(** The error reports of the validation loop, in the order of the
    files. *)
Definition validationErrors (toLowerCase : list N -> list N)
    (files : list File) : list FileTransfer.Callback :=
  List.flat_map
    (fun file =>
       match FileTransfer.validateFile toLowerCase file with
       | [] => []
       | errors =>
           [FileTransfer.onError (ValidationFailed (fileName file) errors)]
       end)
    files.

(** The engine after further callbacks were invoked. *)
Definition reported (reports : list FileTransfer.Callback) (e : Engine)
  : Engine :=
  mkEngine (fileProgress e) (batchProgress e) (isSending e) (isReceiving e)
    (receivedChunksRef e) (fileMetadataRef e) (outbox e)
    (FileTransfer.calls e ++ reports).

(** A schedule for the one chunk of [notesFile]: the chunk arrives
    twice, and the verification started last comes through first. *)
Definition notesTwice : list Receiving.Event :=
  [ Receiving.Message
      (file_metadata
         (mkFileMetadataPayload
            (createFileMetadata notesFile "file-1") "batch-1" 0 1));
    Receiving.Message
      (expectedChunk notesFile (createFileMetadata notesFile "file-1") 0);
    Receiving.Message
      (expectedChunk notesFile (createFileMetadata notesFile "file-1") 0);
    Receiving.Verified 1;
    Receiving.Verified 0;
    Receiving.Message
      (file_complete "file-1"
         (default "" (hash (createFileMetadata notesFile "file-1")))) ].

(** What a callback of the transfer hook hands on has clean names. *)
Definition handsOnCleanNames (c : FileTransfer.Callback) : Prop :=
  match c with
  | onFileReceived _ metadata =>
      isCleanName (name metadata) /\ isCleanName (sanitizedName metadata)
  | _ => True
  end.

(** The invariant of the receiver: the metadata it keeps and the
    metadata it has handed on carry sanitised names. *)
Definition keepsCleanNames (e : Engine) : Prop :=
  map_Forall
    (fun _ metadata =>
       isCleanName (name metadata) /\ isCleanName (sanitizedName metadata))
    (fileMetadataRef e)
  /\ Forall handsOnCleanNames (FileTransfer.calls e).

(** Whether the lower-cased key contains one of the sensitive words. *)
Definition isSensitiveKey (toLowerCase : list N -> list N) (key : list N)
  : bool :=
  List.existsb (fun s => JS.includes (JS.units s) (toLowerCase key))
    AuditLog.SENSITIVE.

(** What may be stored under [key] for the value given under it. *)
Definition storedSafely {Other} (toLowerCase : list N -> list N)
    (key : list N) (given stored : AuditLog.Value Other) : Prop :=
  (isSensitiveKey toLowerCase key = true -> stored = AuditLog.REDACTED)
  /\ (isSensitiveKey toLowerCase key = false ->
      match given, stored with
      | AuditLog.VString text, AuditLog.VString kept =>
          (JS.includes (JS.units "peerid") (toLowerCase key) = true ->
           kept = take 8 text ++ JS.units "...")
          /\ (JS.includes (JS.units "peerid") (toLowerCase key) = false ->
              JS.includes (JS.units "filename") (toLowerCase key) = true ->
              Forall (fun c => isPathSeparator c = false) kept
              /\ exists before,
                   text = before ++ kept
                   /\ (before = []
                       \/ exists b c,
                            before = b ++ [c] /\ isPathSeparator c = true))
          /\ (JS.includes (JS.units "peerid") (toLowerCase key) = false ->
              JS.includes (JS.units "filename") (toLowerCase key) = false ->
              kept = text)
      | AuditLog.VOther o, AuditLog.VOther o' => o' = o
      | _, _ => False
      end).

(** Every file has an array of its own in the store. *)
Definition wellFormed (s : Receiving.State) : Prop :=
  (forall fileId a,
      Receiving.receivedChunksRef s !! fileId = Some a ->
      (a < List.length (Receiving.arrays s))%nat)
  /\ (forall id1 id2 a,
        Receiving.receivedChunksRef s !! id1 = Some a ->
        Receiving.receivedChunksRef s !! id2 = Some a -> id1 = id2).

(** * Properties *)

(** ** Checksums *)

Lemma digest_length (data : list byte) :
  List.length (SHA256.digest data) = 32%nat.
Proof. reflexivity. Qed.

(** The embedded digest agrees with the published vectors for the empty
    message and for the three bytes of abc. *)
Lemma digest_matches_published_vectors :
  JS.join (List.map hexByte (SHA256.digest []))
  = "e3b0c44298fc1c149afbf4c8996fb92427ae41e4649b934ca495991b7852b855"
  /\ JS.join (List.map hexByte (SHA256.digest ["a"%byte; "b"%byte; "c"%byte]))
     = "ba7816bf8f01cfea414140de5dae2223b00361a396177a9cb410ff61f20015ad".
Proof. split; vm_compute; reflexivity. Qed.

Lemma hexByteOk_all (b : byte) : hexByteOk b = true.
Proof. destruct b; vm_compute; reflexivity. Qed.

(** Every byte renders as two lowercase hex digits. *)
Lemma hexByte_shape (b : byte) :
  exists c1 c2,
    hexByte b = String c1 (String c2 EmptyString)
    /\ isLowerHex c1 = true /\ isLowerHex c2 = true.
Proof.
  pose proof (hexByteOk_all b) as H. unfold hexByteOk in H.
  destruct (hexByte b) as [|c1 [|c2 [|]]]; try discriminate.
  apply andb_prop in H. destruct H. eauto.
Qed.

Lemma slice_prefix {A} (l : list A) (k : nat) :
  (k <= List.length l)%nat -> JS.slice l 0 (Z.of_nat k) = firstn k l.
Proof.
  intros Hk. unfold JS.slice, JS.relIndex.
  destruct (Z.ltb_spec 0 0); [lia|].
  destruct (Z.ltb_spec (Z.of_nat k) 0); [lia|].
  rewrite !Z.min_l by lia.
  replace (Z.to_nat (Z.of_nat k - 0)) with k by lia.
  reflexivity.
Qed.

Lemma append_String (c : ascii) (s t : string) :
  String c s +:+ t = String c (s +:+ t).
Proof. reflexivity. Qed.

Lemma append_Empty (t : string) : EmptyString +:+ t = t.
Proof. reflexivity. Qed.

Lemma join_cons (s : string) (parts : list string) :
  JS.join (s :: parts) = s +:+ JS.join parts.
Proof. reflexivity. Qed.

Lemma join_hex_length (bs : list byte) :
  String.length (JS.join (List.map hexByte bs)) = (2 * List.length bs)%nat.
Proof.
  induction bs as [|b bs IH]; [reflexivity|].
  destruct (hexByte_shape b) as (c1 & c2 & Hb & _).
  cbn [List.map List.length]. rewrite join_cons, Hb.
  rewrite !append_String, append_Empty. cbn [String.length]. rewrite IH. lia.
Qed.

Lemma join_hex_chars (bs : list byte) :
  List.forallb isLowerHex
    (list_ascii_of_string (JS.join (List.map hexByte bs))) = true.
Proof.
  induction bs as [|b bs IH]; [reflexivity|].
  destruct (hexByte_shape b) as (c1 & c2 & Hb & H1 & H2).
  cbn [List.map]. rewrite join_cons, Hb.
  rewrite !append_String, append_Empty.
  cbn [list_ascii_of_string List.forallb].
  rewrite H1, H2, IH. reflexivity.
Qed.

Lemma generateChecksum_unfold (d : list byte) :
  generateChecksum d = JS.join (List.map hexByte (firstn 8 (SHA256.digest d))).
Proof.
  unfold generateChecksum. rewrite (slice_prefix _ 8); [reflexivity|].
  rewrite digest_length. lia.
Qed.

(** C9.  A checksum is the lowercase hex rendering of the first eight
    bytes of the SHA-256 digest, hence sixteen characters long;
    [verifyChecksum] accepts the checksum [generateChecksum] produced for
    the same bytes; and so the receiver stores an unmodified chunk of a
    known file without reporting anything. *)
Theorem checksum_of_unmodified_chunk_verifies
    (d : list byte) (e : Engine) (fileId : string) (chunkIndex total : Z)
    (chunks : list (option (list byte)))
    (Hknown : receivedChunksRef e !! fileId = Some chunks) :
  verifyChecksum d (generateChecksum d) = true
  /\ generateChecksum d
     = JS.join (List.map hexByte (firstn 8 (SHA256.digest d)))
  /\ String.length (generateChecksum d) = 16%nat
  /\ List.forallb isLowerHex (list_ascii_of_string (generateChecksum d))
     = true
  /\ let e' :=
       FileTransfer.handleMessage
         (file_chunk
            (mkFileChunkPayload fileId chunkIndex total d
               (generateChecksum d))) e in
     receivedChunksRef e' !! fileId = Some (JS.arraySet chunks chunkIndex d)
     /\ FileTransfer.calls e' = FileTransfer.calls e.
Proof.
  assert (Hv : verifyChecksum d (generateChecksum d) = true)
    by (unfold verifyChecksum; apply String.eqb_refl).
  split; [exact Hv|]. split; [apply generateChecksum_unfold|].
  rewrite generateChecksum_unfold. split.
  - rewrite join_hex_length, length_firstn, digest_length. reflexivity.
  - split; [apply join_hex_chars|].
    rewrite <- generateChecksum_unfold.
    cbn [FileTransfer.handleMessage Protocol.fileId Protocol.data Protocol.checksum
         Protocol.chunkIndex].
    rewrite Hknown, Hv. cbn [negb].
    destruct (fileMetadataRef _ !! fileId);
      cbn; rewrite lookup_insert_eq; split; reflexivity.
Qed.

Lemma checksum_of_unmodified_chunk_verifies_witness :
  let e := FileTransfer.handleMessage
             (file_metadata
                (mkFileMetadataPayload
                   (mkFileMetadata "f1" (JS.units "a.txt") (JS.units "a.txt")
                      3 "text/plain" 0 1 None) "batch-1" 0 1))
             initialEngine in
  receivedChunksRef e !! "f1" = Some []
  /\ verifyChecksum [x01; x02; x03] (generateChecksum [x01; x02; x03]) = true.
Proof.
  split; [reflexivity|].
  exact (proj1 (checksum_of_unmodified_chunk_verifies [x01; x02; x03]
                  (FileTransfer.handleMessage
                     (file_metadata
                        (mkFileMetadataPayload
                           (mkFileMetadata "f1" (JS.units "a.txt")
                              (JS.units "a.txt") 3 "text/plain" 0 1 None)
                           "batch-1" 0 1))
                     initialEngine)
                  "f1" 0 1 [] eq_refl)).
Defined.

(** ** Rate limiting of connection requests *)

Lemma isRateLimited_fresh (now : Z) (key : string) (maxAttempts windowMs : Z)
    (store : gmap string RateLimitEntry) :
  store !! key = None ->
  isRateLimited now key maxAttempts windowMs store = (false, store).
Proof. intros H. unfold isRateLimited. rewrite H. reflexivity. Qed.

Lemma isRateLimited_full (now : Z) (key : string) (maxAttempts windowMs : Z)
    (store : gmap string RateLimitEntry) (entry : RateLimitEntry) :
  store !! key = Some entry ->
  (maxAttempts <= attempts entry)%Z ->
  (now - firstAttempt entry <= windowMs)%Z ->
  isRateLimited now key maxAttempts windowMs store = (true, store).
Proof.
  intros H Hn Hw. unfold isRateLimited. rewrite H.
  destruct (blockActive now entry); [reflexivity|].
  destruct (Z.ltb_spec windowMs (now - firstAttempt entry)); [lia|].
  destruct (Z.leb_spec maxAttempts (attempts entry)); [reflexivity|lia].
Qed.

(** C10.  The rate limiter answers [false] for a key without an entry,
    and the host consults it before it records the attempt: the first
    [connection_request] of a fresh peer is passed to the approval
    callback, nothing is sent back, and only then does the peer have an
    entry, with one attempt. *)
Theorem first_request_of_fresh_peer_is_not_rate_limited
    (h : Hook) (now : Z) (remotePeerId deviceInfo : string)
    (Hhost : mode h = host)
    (Hcallback : hasOnConnectionRequest h = true)
    (Hfresh : rateLimitStore h !! remotePeerId = None) :
  isRateLimited now remotePeerId MAX_CONNECTION_ATTEMPTS
    CONNECTION_ATTEMPT_WINDOW_MS (rateLimitStore h)
  = (false, rateLimitStore h)
  /\ let r := WebRTC.handleMessage now (connection_request remotePeerId deviceInfo) h in
     snd r = AwaitApproval remotePeerId
     /\ sent (fst r) = sent h
     /\ WebRTC.calls (fst r) = WebRTC.calls h ++ [onConnectionRequest remotePeerId]
     /\ state (connectionInfo (fst r)) = awaiting_approval
     /\ rateLimitStore (fst r) !! remotePeerId
        = Some (mkRateLimitEntry 1 now now false None).
Proof.
  split; [apply isRateLimited_fresh; exact Hfresh|].
  cbn [WebRTC.handleMessage]. unfold isHost. rewrite Hhost, Hcallback.
  cbn [andb]. rewrite (isRateLimited_fresh _ _ _ _ _ Hfresh).
  unfold recordAttempt. cbn. rewrite Hfresh.
  rewrite lookup_insert_eq. repeat split; reflexivity.
Qed.

Lemma first_request_of_fresh_peer_is_not_rate_limited_witness :
  snd (WebRTC.handleMessage 1000 (connection_request "client-1" "agent") idleHost)
  = AwaitApproval "client-1".
Proof.
  exact (proj1 (proj2 (first_request_of_fresh_peer_is_not_rate_limited
                         idleHost 1000 "client-1" "agent"
                         eq_refl eq_refl eq_refl))).
Defined.

Lemma limited_request_refused
    (h : Hook) (now : Z) (remotePeerId deviceInfo : string)
    (entry : RateLimitEntry) :
  mode h = host ->
  hasOnConnectionRequest h = true ->
  connectionRef h = Some true ->
  rateLimitStore h !! remotePeerId = Some entry ->
  (MAX_CONNECTION_ATTEMPTS <= attempts entry)%Z ->
  (now - firstAttempt entry <= CONNECTION_ATTEMPT_WINDOW_MS)%Z ->
  let r := WebRTC.handleMessage now (connection_request remotePeerId deviceInfo) h in
  snd r = Finished
  /\ sent (fst r) = sent h ++ [connection_denied (Some "Too many attempts")]
  /\ WebRTC.calls (fst r) = WebRTC.calls h
  /\ connectionInfo (fst r) = connectionInfo h
  /\ rateLimitStore (fst r) = rateLimitStore h.
Proof.
  intros Hhost Hcallback Hopen Hentry Hcount Hwindow.
  cbn [WebRTC.handleMessage]. unfold isHost. rewrite Hhost, Hcallback.
  cbn [andb].
  rewrite (isRateLimited_full _ _ _ _ _ _ Hentry Hcount Hwindow).
  unfold send, sendMessage. cbn. rewrite Hopen. cbn.
  repeat split; reflexivity.
Qed.

Lemma recordAttempt_first (now : Z) (key : string) (m w b : Z)
    (store : gmap string RateLimitEntry) :
  store !! key = None ->
  snd (recordAttempt now key m w b store)
  = <[key := mkRateLimitEntry 1 now now false None]> store.
Proof. intros H. unfold recordAttempt. rewrite H. reflexivity. Qed.

Lemma recordAttempt_next (now : Z) (key : string) (m w b : Z)
    (store : gmap string RateLimitEntry) (entry : RateLimitEntry) :
  store !! key = Some entry ->
  (now - firstAttempt entry <= w)%Z ->
  snd (recordAttempt now key m w b store)
  = <[key :=
        if (m <=? attempts entry + 1)%Z
        then mkRateLimitEntry (attempts entry + 1) (firstAttempt entry) now
               true (Some (now + b)%Z)
        else mkRateLimitEntry (attempts entry + 1) (firstAttempt entry) now
               (blocked entry) (blockedUntil entry)]> store.
Proof.
  intros H Hw. unfold recordAttempt. rewrite H.
  destruct (Z.ltb_spec w (now - firstAttempt entry)); [lia|].
  reflexivity.
Qed.

Lemma isRateLimited_below (now : Z) (key : string) (m w : Z)
    (store : gmap string RateLimitEntry) (entry : RateLimitEntry) :
  store !! key = Some entry ->
  blocked entry = false ->
  (now - firstAttempt entry <= w)%Z ->
  (attempts entry < m)%Z ->
  isRateLimited now key m w store = (false, store).
Proof.
  intros H Hb Hw Hn. unfold isRateLimited, blockActive. rewrite H, Hb.
  cbn [andb].
  destruct (Z.ltb_spec w (now - firstAttempt entry)); [lia|].
  destruct (Z.leb_spec m (attempts entry)); [lia|reflexivity].
Qed.

Lemma unapprovedRequest_store (now : Z) (p dev : string) (a : Answer)
    (h : Hook) :
  mode h = host -> hasOnConnectionRequest h = true ->
  fst (isRateLimited now p MAX_CONNECTION_ATTEMPTS
         CONNECTION_ATTEMPT_WINDOW_MS (rateLimitStore h)) = false ->
  let h' := unapprovedRequest now p dev a h in
  mode h' = host /\ hasOnConnectionRequest h' = true
  /\ connectionRef h' = connectionRef h
  /\ rateLimitStore h'
     = snd (recordAttempt now p MAX_CONNECTION_ATTEMPTS
              CONNECTION_ATTEMPT_WINDOW_MS BLOCK_DURATION_MS
              (snd (isRateLimited now p MAX_CONNECTION_ATTEMPTS
                      CONNECTION_ATTEMPT_WINDOW_MS (rateLimitStore h)))).
Proof.
  intros Hhost Hcb Hfree. unfold unapprovedRequest. cbn [WebRTC.handleMessage].
  unfold isHost. rewrite Hhost, Hcb. cbn [andb].
  destruct (isRateLimited _ _ _ _ _) as [limited store] eqn:E.
  cbn in Hfree. subst limited.
  destruct (recordAttempt _ _ _ _ _ _) as [entry store'] eqn:E'.
  cbn [fst snd].
  destruct a; unfold resumeApproval, send, sendMessage; cbn;
    [destruct (connectionRef h) as [[|]|] eqn:Ec; cbn|];
    repeat split; auto.
Qed.

(** Three requests inside one window, none of them approved, leave the
    entry that the limit test looks for. *)
Lemma three_unapproved_requests (h : Hook) (p d1 d2 d3 : string)
    (t1 t2 t3 : Z) (a1 a2 a3 : Answer) :
  mode h = host -> hasOnConnectionRequest h = true ->
  rateLimitStore h !! p = None ->
  (t2 - t1 <= CONNECTION_ATTEMPT_WINDOW_MS)%Z ->
  (t3 - t1 <= CONNECTION_ATTEMPT_WINDOW_MS)%Z ->
  let h3 :=
    unapprovedRequest t3 p d3 a3
      (unapprovedRequest t2 p d2 a2 (unapprovedRequest t1 p d1 a1 h)) in
  mode h3 = host /\ hasOnConnectionRequest h3 = true
  /\ connectionRef h3 = connectionRef h
  /\ rateLimitStore h3 !! p
     = Some (mkRateLimitEntry 3 t1 t3 true (Some (t3 + BLOCK_DURATION_MS)%Z)).
Proof.
  intros Hhost Hcb Hfresh H2 H3. cbv zeta.
  (* first attempt *)
  destruct (unapprovedRequest_store t1 p d1 a1 h Hhost Hcb)
    as (Hm1 & Hc1 & Ho1 & Hs1).
  { rewrite isRateLimited_fresh by exact Hfresh. reflexivity. }
  remember (unapprovedRequest t1 p d1 a1 h) as h1 eqn:Eh1. clear Eh1.
  rewrite isRateLimited_fresh in Hs1 by exact Hfresh. cbn [snd] in Hs1.
  rewrite recordAttempt_first in Hs1 by exact Hfresh.
  assert (L1 : rateLimitStore h1 !! p
               = Some (mkRateLimitEntry 1 t1 t1 false None))
    by (rewrite Hs1; apply lookup_insert_eq).
  (* second attempt *)
  assert (E1 := isRateLimited_below t2 p MAX_CONNECTION_ATTEMPTS
                  CONNECTION_ATTEMPT_WINDOW_MS _ _ L1 eq_refl H2 eq_refl).
  destruct (unapprovedRequest_store t2 p d2 a2 h1 Hm1 Hc1)
    as (Hm2 & Hc2 & Ho2 & Hs2).
  { rewrite E1. reflexivity. }
  remember (unapprovedRequest t2 p d2 a2 h1) as h2 eqn:Eh2. clear Eh2.
  rewrite E1 in Hs2. cbn [snd] in Hs2.
  rewrite (recordAttempt_next _ _ _ _ _ _ _ L1 H2) in Hs2. cbn in Hs2.
  assert (L2 : rateLimitStore h2 !! p
               = Some (mkRateLimitEntry 2 t1 t2 false None))
    by (rewrite Hs2; apply lookup_insert_eq).
  (* third attempt *)
  assert (E2 := isRateLimited_below t3 p MAX_CONNECTION_ATTEMPTS
                  CONNECTION_ATTEMPT_WINDOW_MS _ _ L2 eq_refl H3 eq_refl).
  destruct (unapprovedRequest_store t3 p d3 a3 h2 Hm2 Hc2)
    as (Hm3 & Hc3 & Ho3 & Hs3).
  { rewrite E2. reflexivity. }
  remember (unapprovedRequest t3 p d3 a3 h2) as h3 eqn:Eh3. clear Eh3.
  rewrite E2 in Hs3. cbn [snd] in Hs3.
  rewrite (recordAttempt_next _ _ _ _ _ _ _ L2 H3) in Hs3. cbn in Hs3.
  split; [exact Hm3|]. split; [exact Hc3|]. split; [congruence|].
  rewrite Hs3. apply lookup_insert_eq.
Qed.

(** Requests that meet a full entry whose window is running are each
    refused, and change nothing but what was sent. *)
Lemma limited_requests_refused (p : string) (entry : RateLimitEntry)
    (requests : list (Z * string)) :
  (MAX_CONNECTION_ATTEMPTS <= attempts entry)%Z ->
  Forall
    (fun r => (fst r - firstAttempt entry <= CONNECTION_ATTEMPT_WINDOW_MS)%Z)
    requests ->
  forall h : Hook,
    mode h = host -> hasOnConnectionRequest h = true ->
    connectionRef h = Some true ->
    rateLimitStore h !! p = Some entry ->
    let h' := requestsFrom p requests h in
    sent h'
    = sent h
      ++ List.repeat (connection_denied (Some "Too many attempts"))
           (List.length requests)
    /\ WebRTC.calls h' = WebRTC.calls h
    /\ connectionInfo h' = connectionInfo h
    /\ rateLimitStore h' = rateLimitStore h.
Proof.
  intros Hcount Hall.
  induction Hall as [|[now dev] requests Hnow Hall IH];
    intros h Hhost Hcb Hopen Hentry.
  - cbn. rewrite app_nil_r. auto.
  - cbn [fst] in Hnow.
    destruct (limited_request_refused h now p dev entry Hhost Hcb Hopen
                Hentry Hcount Hnow) as (_ & A2 & A3 & A4 & A5).
    cbv zeta. cbn [requestsFrom List.fold_left fst snd List.length].
    set (h1 := fst (WebRTC.handleMessage now (connection_request p dev) h)) in *.
    assert (Hhost1 : mode h1 = host).
    { subst h1. cbn [WebRTC.handleMessage]. unfold isHost. rewrite Hhost, Hcb.
      cbn [andb].
      rewrite (isRateLimited_full _ _ _ _ _ _ Hentry Hcount Hnow).
      unfold send, sendMessage. cbn. rewrite Hopen. cbn. exact Hhost. }
    assert (Hcb1 : hasOnConnectionRequest h1 = true).
    { subst h1. cbn [WebRTC.handleMessage]. unfold isHost. rewrite Hhost, Hcb.
      cbn [andb].
      rewrite (isRateLimited_full _ _ _ _ _ _ Hentry Hcount Hnow).
      unfold send, sendMessage. cbn. rewrite Hopen. cbn. exact Hcb. }
    assert (Hopen1 : connectionRef h1 = Some true).
    { subst h1. cbn [WebRTC.handleMessage]. unfold isHost. rewrite Hhost, Hcb.
      cbn [andb].
      rewrite (isRateLimited_full _ _ _ _ _ _ Hentry Hcount Hnow).
      unfold send, sendMessage. cbn. rewrite Hopen. cbn. exact Hopen. }
    destruct (IH h1 Hhost1 Hcb1 Hopen1 ltac:(rewrite A5; exact Hentry))
      as (B1 & B2 & B3 & B4).
    unfold requestsFrom in B1, B2, B3, B4.
    rewrite B1, B2, B3, B4, A2, A3, A4, A5, <- app_assoc.
    cbn [List.repeat List.app]. auto.
Qed.

(** C5 as stated does not hold.  An approval clears the entry of the
    peer: after three attempts within three seconds, of which the third
    was approved, the fourth request of that peer is not refused but put
    before the user again. *)
Lemma approved_peer_is_asked_again_after_three_attempts :
  let r :=
    WebRTC.handleMessage 4000 (connection_request "client-1" "agent")
      approvedAtTheThird in
  snd r = AwaitApproval "client-1"
  /\ sent (fst r) = sent approvedAtTheThird
  /\ WebRTC.calls (fst r)
     = WebRTC.calls approvedAtTheThird ++ [onConnectionRequest "client-1"]
  /\ WebRTC.calls approvedAtTheThird
     = [onConnectionRequest "client-1"; onConnectionRequest "client-1";
        onConnectionRequest "client-1"; onConnected].
Proof. cbv zeta. vm_compute. repeat split; reflexivity. Qed.

(** C5, as amended.  When a peer unknown to the rate limiter has made
    three connection requests within the window of the first, none of
    which was approved (each was turned down or is still unanswered),
    the limiter holds three attempts for it, and every further request
    of that peer within the window is answered with [connection_denied]:
    the approval callback is not called for any of them, and neither the
    connection record nor the entry changes. *)
Theorem request_beyond_the_limit_is_denied_without_approval
    (h : Hook) (remotePeerId d1 d2 d3 : string) (t1 t2 t3 : Z)
    (a1 a2 a3 : Answer) (later : list (Z * string))
    (Hhost : mode h = host)
    (Hcallback : hasOnConnectionRequest h = true)
    (Hopen : connectionRef h = Some true)
    (Hfresh : rateLimitStore h !! remotePeerId = None)
    (Hsecond : (t2 - t1 <= CONNECTION_ATTEMPT_WINDOW_MS)%Z)
    (Hthird : (t3 - t1 <= CONNECTION_ATTEMPT_WINDOW_MS)%Z)
    (Hlater :
       Forall (fun r => (fst r - t1 <= CONNECTION_ATTEMPT_WINDOW_MS)%Z)
         later) :
  let h3 :=
    unapprovedRequest t3 remotePeerId d3 a3
      (unapprovedRequest t2 remotePeerId d2 a2
         (unapprovedRequest t1 remotePeerId d1 a1 h)) in
  let h' := requestsFrom remotePeerId later h3 in
  CONNECTION_ATTEMPT_WINDOW_MS = 300000%Z
  /\ option_map attempts (rateLimitStore h3 !! remotePeerId) = Some 3%Z
  /\ sent h'
     = sent h3
       ++ List.repeat (connection_denied (Some "Too many attempts"))
            (List.length later)
  /\ WebRTC.calls h' = WebRTC.calls h3
  /\ connectionInfo h' = connectionInfo h3
  /\ rateLimitStore h' = rateLimitStore h3.
Proof.
  cbv zeta.
  destruct (three_unapproved_requests h remotePeerId d1 d2 d3 t1 t2 t3
              a1 a2 a3 Hhost Hcallback Hfresh Hsecond Hthird)
    as (Hhost3 & Hcallback3 & Hopen3 & Hentry).
  split; [reflexivity|]. split; [rewrite Hentry; reflexivity|].
  assert (Hcount :
    (MAX_CONNECTION_ATTEMPTS
     <= attempts (mkRateLimitEntry 3 t1 t3 true
                    (Some (t3 + BLOCK_DURATION_MS)%Z)))%Z)
    by (cbn; discriminate).
  rewrite Hopen in Hopen3.
  exact (limited_requests_refused remotePeerId _ later Hcount Hlater _
           Hhost3 Hcallback3 Hopen3 Hentry).
Qed.

Lemma request_beyond_the_limit_is_denied_without_approval_witness :
  sent (requestsFrom "client-1" [(4000%Z, "agent"); (5000%Z, "agent")]
          (unapprovedRequest 3000 "client-1" "agent" Unanswered
             (unapprovedRequest 2000 "client-1" "agent" TurnedDown
                (unapprovedRequest 1000 "client-1" "agent" TurnedDown
                   idleHost))))
  = [connection_denied (Some "Connection denied");
     connection_denied (Some "Connection denied");
     connection_denied (Some "Too many attempts");
     connection_denied (Some "Too many attempts")].
Proof.
  refine (proj1 (proj2 (proj2
            (request_beyond_the_limit_is_denied_without_approval
               idleHost "client-1" "agent" "agent" "agent" 1000 2000 3000
               TurnedDown TurnedDown Unanswered
               [(4000%Z, "agent"); (5000%Z, "agent")]
               eq_refl eq_refl eq_refl eq_refl _ _ _)))).
  - vm_compute. discriminate.
  - vm_compute. discriminate.
  - repeat constructor; vm_compute; discriminate.
Defined.

(** ** The PIN challenge *)

Lemma wrong_pin_below_limit (now : Z) (h : Hook) (H g : string) (k : Z) :
  mode h = host -> pinHashRef h = Some H -> connectionRef h = Some true ->
  g <> H -> (k < MAX_PIN_ATTEMPTS)%Z ->
  let h' := fst (WebRTC.handleMessage now (pin_attempt g k) h) in
  mode h' = host /\ pinHashRef h' = Some H /\ connectionRef h' = Some true
  /\ sent h' = sent h ++ [pin_invalid (MAX_PIN_ATTEMPTS - k)]
  /\ connectionInfo h' = connectionInfo h
  /\ sessionStore h' = sessionStore h
  /\ WebRTC.calls h' = WebRTC.calls h.
Proof.
  intros Hhost Hpin Hopen Hne Hk. cbn [WebRTC.handleMessage]. unfold isHost, pinMatches.
  rewrite Hhost, Hpin.
  destruct (String.eqb_spec g H) as [|_]; [contradiction|].
  destruct (Z.leb_spec MAX_PIN_ATTEMPTS k); [lia|].
  unfold send, sendMessage. cbn. rewrite Hopen. cbn. auto 10.
Qed.

(** Any number of wrong guesses is answered with [pin_invalid] as long
    as each message carries an attempt number below the limit. *)
Lemma wrong_pins_below_limit (now : Z) (H : string) (k : Z)
    (guesses : list string) (h : Hook) :
  mode h = host -> pinHashRef h = Some H -> connectionRef h = Some true ->
  Forall (fun g => g <> H) guesses -> (k < MAX_PIN_ATTEMPTS)%Z ->
  let h' := hostReceives now (List.map (fun g => pin_attempt g k) guesses) h in
  sent h'
  = sent h ++ List.map (fun _ => pin_invalid (MAX_PIN_ATTEMPTS - k)) guesses
  /\ pinHashRef h' = Some H /\ connectionRef h' = Some true
  /\ connectionInfo h' = connectionInfo h
  /\ sessionStore h' = sessionStore h.
Proof.
  intros Hhost Hpin Hopen Hall Hk. revert h Hhost Hpin Hopen.
  induction Hall as [|g guesses Hg Hall IH]; intros h Hhost Hpin Hopen.
  - cbn. rewrite app_nil_r. auto.
  - destruct (wrong_pin_below_limit now h H g k Hhost Hpin Hopen Hg Hk)
      as (A1 & A2 & A3 & A4 & A5 & A6 & _).
    cbn [List.map hostReceives List.fold_left].
    specialize (IH _ A1 A2 A3). cbv zeta in IH. unfold hostReceives in IH.
    destruct IH as (B1 & B2 & B3 & B4 & B5).
    rewrite B1, A4, <- app_assoc. cbn [List.app].
    repeat split; congruence.
Qed.

(** C6, on the code.  Four mismatching [pin_attempt] messages that each
    declare themselves attempt number 1 are each answered with
    [pin_invalid] and two attempts remaining: no [connection_denied] is
    sent, the PIN hash, the channel and the session stay in place.  The
    host compares the number the message carries with the limit and
    keeps no count of its own. *)
Theorem host_trusts_the_declared_attempt_number :
  let h := hostReceives 5000
             [pin_attempt (hashPin "0000") 1; pin_attempt (hashPin "1111") 1;
              pin_attempt (hashPin "2222") 1; pin_attempt (hashPin "3333") 1]
             pinHost in
  sent h = [pin_invalid 2; pin_invalid 2; pin_invalid 2; pin_invalid 2]
  /\ pinHashRef h = Some (hashPin "1234")
  /\ connectionRef h = Some true
  /\ state (connectionInfo h) = awaiting_approval
  /\ sessionStore h = sessionStore pinHost.
Proof. cbv zeta. vm_compute. repeat split; reflexivity. Qed.

(** A mismatch that declares attempt number three or more is refused and
    the session is torn down. *)
Lemma wrong_pin_at_limit (now : Z) (h : Hook) (H g : string) (k : Z) :
  mode h = host -> pinHashRef h = Some H -> connectionRef h = Some true ->
  g <> H -> (MAX_PIN_ATTEMPTS <= k)%Z ->
  let h' := fst (WebRTC.handleMessage now (pin_attempt g k) h) in
  sent h' = sent h ++ [connection_denied (Some "Too many PIN attempts")]
  /\ pinHashRef h' = None /\ connectionRef h' = None /\ peerRef h' = false
  /\ state (connectionInfo h') = idle
  /\ (forall code, roomCodeRef h = Some code -> code <> "" ->
      sessionStore h' = destroySession code (sessionStore h)).
Proof.
  intros Hhost Hpin Hopen Hne Hk. cbn [WebRTC.handleMessage]. unfold isHost, pinMatches.
  rewrite Hhost, Hpin.
  destruct (String.eqb_spec g H) as [|_]; [contradiction|].
  destruct (Z.leb_spec MAX_PIN_ATTEMPTS k); [|lia].
  unfold send, sendMessage. cbn. rewrite Hopen. cbn.
  repeat split; try reflexivity.
  intros code Hc Hne'. rewrite Hc. cbn.
  destruct (String.eqb_spec code ""); [contradiction|]. reflexivity.
Qed.

Lemma three_wrong_pins_from_the_client_are_denied :
  let c1 := clientTurn pin_required (Some "0000") pinClient in
  let h1 := hostReceives 0 (lastSent c1) pinHost in
  let c2 := clientTurn (pin_invalid 2) (Some "1111") c1 in
  let h2 := hostReceives 0 (lastSent c2) h1 in
  let c3 := clientTurn (pin_invalid 1) (Some "2222") c2 in
  let h3 := hostReceives 0 (lastSent c3) h2 in
  let c4 := clientTurn (connection_denied (Some "Too many PIN attempts"))
              None c3 in
  sent h3
  = [pin_invalid 2; pin_invalid 1;
     connection_denied (Some "Too many PIN attempts")]
  /\ List.map (fun m => match m with
                        | pin_attempt _ n => n
                        | _ => 0%Z
                        end) (sent c3) = [1; 2; 3]%Z
  /\ pinHashRef h3 = None /\ connectionRef h3 = None
  /\ sessionStore h3 = ∅
  /\ List.length (List.filter (fun c => match c with
                                        | onPinRequired => true
                                        | _ => false
                                        end) (WebRTC.calls c4)) = 3%nat
  /\ state (connectionInfo c4) = error.
Proof. cbv zeta. vm_compute. repeat split; reflexivity. Qed.

(** ** File-name sanitisation *)

Lemma Forall_slice {A} (P : A -> Prop) (l : list A) (a b : Z) :
  Forall P l -> Forall P (JS.slice l a b).
Proof. intros H. unfold JS.slice. apply Forall_take, Forall_drop, H. Qed.

Lemma Forall_remove_keeps (P : N -> Prop) (p : N -> bool) (s : list N) :
  Forall P s -> Forall P (remove p s).
Proof.
  intros H. unfold remove. induction H as [|c s Hc Hs IH]; cbn; [constructor|].
  destruct (p c); cbn; auto.
Qed.

Lemma Forall_remove (p : N -> bool) (s : list N) :
  Forall (fun c => p c = false) (remove p s).
Proof.
  unfold remove. induction s as [|c s IH]; cbn; [constructor|].
  destruct (p c) eqn:E; cbn; auto.
Qed.

Lemma Forall_limitLength (P : N -> Prop) (s : list N) :
  Forall P s -> Forall P (limitLength s).
Proof.
  intros H. unfold limitLength, JS.sliceFrom.
  destruct (_ <? _)%nat; [|exact H].
  destruct (_ <? _)%Z; [apply Forall_app_2|]; apply Forall_slice, H.
Qed.

Lemma sanitizeFileName_cases (name : list N) :
  let cleaned :=
    remove isControl
      (remove isSpecial (remove isPathSeparator (removeDotDot name))) in
  sanitizeFileName name = JS.units "unnamed_file"
  \/ (sanitizeFileName name = limitLength cleaned
      /\ limitLength cleaned <> []).
Proof.
  cbv zeta. unfold sanitizeFileName.
  destruct (JS.trim _) eqn:E; [left; reflexivity|right].
  split; [reflexivity|]. intros E'. rewrite E' in E. discriminate.
Qed.

(** What the sanitiser does achieve for every name: the result has no
    slash or backslash, none of the seven special characters, no control
    character, and is not empty. *)
Lemma sanitizeFileName_strips_and_is_not_empty (name : list N) :
  Forall (fun c => isPathSeparator c = false) (sanitizeFileName name)
  /\ Forall (fun c => isSpecial c = false) (sanitizeFileName name)
  /\ Forall (fun c => isControl c = false) (sanitizeFileName name)
  /\ sanitizeFileName name <> [].
Proof.
  destruct (sanitizeFileName_cases name) as [E|[E Hne]]; rewrite E.
  - repeat split; try discriminate;
      vm_compute; repeat constructor.
  - repeat split; [| | |exact Hne]; apply Forall_limitLength.
    + apply Forall_remove_keeps, Forall_remove_keeps, Forall_remove.
    + apply Forall_remove_keeps, Forall_remove.
    + apply Forall_remove.
Qed.

(** C7, on the code.  Deleting the separators after the dot pairs lets
    a new pair form: the name dot-slash-dot is sanitised to dot-dot.  And
    when the part after the last dot is longer than 255 units the length
    cap computes a negative end for the base name, which [slice] counts
    from the end: a 302-unit name comes out 557 units long. *)
Theorem sanitizeFileName_misses_traversal_and_length :
  sanitizeFileName (JS.units "./.") = JS.units ".."
  /\ hasDotDot (sanitizeFileName (JS.units "./.")) = true
  /\ List.length (JS.units "a." ++ List.repeat 98%N 300) = 302%nat
  /\ List.length
       (sanitizeFileName (JS.units "a." ++ List.repeat 98%N 300)) = 557%nat.
Proof. cbv zeta. vm_compute. repeat split; reflexivity. Qed.

(** ** Room codes *)

Lemma alphabetOk_all :
  List.forallb alphabetOk (List.seq 0 (String.length ROOM_CODE_ALPHABET))
  = true.
Proof. vm_compute. reflexivity. Qed.

(** Whatever the random byte, the index stays inside the alphabet. *)
Lemma alphabetAt_byte (b : byte) :
  exists c,
    alphabetAt (N.to_nat (Byte.to_N b) mod String.length ROOM_CODE_ALPHABET)
    = String c EmptyString
    /\ alphabetIncludes c = true
    /\ Ascii.eqb c "-" = false
    /\ JS.upperAscii c = c.
Proof.
  set (i := (N.to_nat (Byte.to_N b) mod String.length ROOM_CODE_ALPHABET)%nat).
  assert (Hi : (i < String.length ROOM_CODE_ALPHABET)%nat)
    by (apply Nat.mod_upper_bound; discriminate).
  pose proof (proj1 (List.forallb_forall _ _) alphabetOk_all i) as H.
  specialize (H ltac:(apply in_seq; lia)).
  unfold alphabetOk in H. unfold alphabetAt.
  destruct (String.get i ROOM_CODE_ALPHABET) as [c|]; [|discriminate].
  exists c. apply andb_prop in H. destruct H as [H H3].
  apply andb_prop in H. destruct H as [H1 H2].
  apply negb_true_iff in H2. apply Ascii.eqb_eq in H3. auto.
Qed.

(** What holds of every generated code: it reads XXXX-XXXX, its
    normalised form has eight characters, all of them from the alphabet,
    and it passes the format check. *)
Lemma generateSecureRoomCode_shape (random : nat -> byte) :
  exists c0 c1 c2 c3 c4 c5 c6 c7,
    generateSecureRoomCode random
    = string_of_list_ascii [c0; c1; c2; c3; "-"%char; c4; c5; c6; c7]
    /\ normalizeRoomCode (generateSecureRoomCode random)
       = string_of_list_ascii [c0; c1; c2; c3; c4; c5; c6; c7]
    /\ List.forallb alphabetIncludes [c0; c1; c2; c3; c4; c5; c6; c7] = true
    /\ isValidRoomCodeFormat (generateSecureRoomCode random) = true.
Proof.
  destruct (alphabetAt_byte (random 0%nat)) as (c0 & E0 & I0 & D0 & U0).
  destruct (alphabetAt_byte (random 1%nat)) as (c1 & E1 & I1 & D1 & U1).
  destruct (alphabetAt_byte (random 2%nat)) as (c2 & E2 & I2 & D2 & U2).
  destruct (alphabetAt_byte (random 3%nat)) as (c3 & E3 & I3 & D3 & U3).
  destruct (alphabetAt_byte (random 4%nat)) as (c4 & E4 & I4 & D4 & U4).
  destruct (alphabetAt_byte (random 5%nat)) as (c5 & E5 & I5 & D5 & U5).
  destruct (alphabetAt_byte (random 6%nat)) as (c6 & E6 & I6 & D6 & U6).
  destruct (alphabetAt_byte (random 7%nat)) as (c7 & E7 & I7 & D7 & U7).
  exists c0, c1, c2, c3, c4, c5, c6, c7.
  assert (G : generateSecureRoomCode random
              = string_of_list_ascii
                  [c0; c1; c2; c3; "-"%char; c4; c5; c6; c7]).
  { unfold generateSecureRoomCode, ROOM_CODE_LENGTH.
    cbn [List.seq List.map]. rewrite !join_cons.
    rewrite E0, E1, E2, E3, E4, E5, E6, E7. reflexivity. }
  assert (Nm : normalizeRoomCode (generateSecureRoomCode random)
               = string_of_list_ascii [c0; c1; c2; c3; c4; c5; c6; c7]).
  { rewrite G. unfold normalizeRoomCode, JS.stripDashes, JS.toUpperCase.
    rewrite !list_ascii_of_string_of_list_ascii.
    cbn [List.filter]. rewrite D0, D1, D2, D3, D4, D5, D6, D7.
    change (Ascii.eqb "-" "-") with true. cbn [negb List.map].
    rewrite U0, U1, U2, U3, U4, U5, U6, U7. reflexivity. }
  assert (F : List.forallb alphabetIncludes [c0; c1; c2; c3; c4; c5; c6; c7]
              = true).
  { cbn [List.forallb]. rewrite I0, I1, I2, I3, I4, I5, I6, I7. reflexivity. }
  repeat split; auto.
  unfold isValidRoomCodeFormat. rewrite Nm.
  rewrite list_ascii_of_string_of_list_ascii, F. reflexivity.
Qed.

(** The glyphs the source comment lists as ambiguous are not in the
    alphabet. *)
Lemma alphabet_excludes_ambiguous_glyphs :
  List.map alphabetIncludes ["0"; "O"; "I"; "1"; "L"]%char
  = [false; false; false; false; false].
Proof. reflexivity. Qed.

(** C8, on the code.  The alphabet constant holds 31 symbols, not 32:
    the random byte 31 wraps around to the first symbol, and the eight
    bytes 31 give the code AAAA-AAAA. *)
Theorem room_code_alphabet_has_31_symbols :
  String.length ROOM_CODE_ALPHABET = 31%nat
  /\ NoDup (list_ascii_of_string ROOM_CODE_ALPHABET)
  /\ generateSecureRoomCode (fun _ => x1f) = "AAAA-AAAA"
  /\ generateSecureRoomCode (fun _ => x00) = "AAAA-AAAA".
Proof.
  split; [reflexivity|]. split; [|split; reflexivity].
  apply (bool_decide_unpack _). vm_compute. reflexivity.
Qed.

(** ** Approval of a connection request *)

(** C3 as stated does not hold of the hook.  After a request is accepted
    for approval the activation is suspended on the promise of the
    approval callback; nothing has been sent, no timer is armed, and the
    passage of thirty seconds, or of an hour, changes nothing.  A refusal
    is only sent when the promise settles. *)
Lemma hook_awaits_approval_without_a_timeout :
  let r := WebRTC.handleMessage 0 (connection_request "client-1" "agent") idleHost in
  snd r = AwaitApproval "client-1"
  /\ heartbeatIntervalRef (fst r) = false
  /\ elapse APPROVAL_TIMEOUT_MS (fst r) = fst r
  /\ sent (elapse APPROVAL_TIMEOUT_MS (fst r)) = []
  /\ sent (elapse (120 * APPROVAL_TIMEOUT_MS) (fst r)) = []
  /\ state (connectionInfo (elapse (120 * APPROVAL_TIMEOUT_MS) (fst r)))
     = awaiting_approval.
Proof. cbv zeta. vm_compute. repeat split; reflexivity. Qed.

Lemma ticks_on_closed_dialog (h : Hook) (m : Modal) (times : list Z) :
  run (mkSystem h (mkView None m)) (ticksAt times)
  = mkSystem h (mkView None m).
Proof. induction times as [|t times IH]; [reflexivity|]. exact IH. Qed.

Lemma resumeApproval_refusal (now : Z) (p : string) (h : Hook) :
  resumeApproval now p false h
  = setInfo (withState idle)
      (send (connection_denied (Some "Connection denied")) h).
Proof. reflexivity. Qed.

(** An open dialog showing [n] seconds settles its promise with a
    refusal at the [n]-th tick, and not before. *)
Lemma countdown_runs_out (h : Hook) (p : string) (times : list Z) :
  times <> [] ->
  run (mkSystem h
         (mkView (Some p) (mkModal (Z.of_nat (List.length times)) false)))
      (ticksAt times)
  = mkSystem (resumeApproval 0 p false h) (mkView None (mkModal 0 true)).
Proof.
  induction times as [|t times IH]; [congruence|]. intros _.
  destruct times as [|t' times].
  - reflexivity.
  - cbn [ticksAt List.map run List.fold_left].
    replace (step _ (t, TimerTick))
      with (mkSystem h
              (mkView (Some p)
                 (mkModal (Z.of_nat (List.length (t' :: times))) false))).
    + apply IH. discriminate.
    + unfold step, tick, isOpen, countdown. cbn [fst snd pendingApproval
        modal view hook isExpired timeRemaining andb negb].
      destruct (Z.leb_spec (Z.of_nat (List.length (t :: t' :: times))) 1)
        as [Hle|_]; [cbn [List.length] in Hle; lia|].
      cbn [isExpired settle]. do 3 f_equal. cbn [List.length]. lia.
Qed.

Lemma accepted_request (h : Hook) (now : Z) (p dev : string) :
  mode h = host -> hasOnConnectionRequest h = true ->
  fst (isRateLimited now p MAX_CONNECTION_ATTEMPTS
         CONNECTION_ATTEMPT_WINDOW_MS (rateLimitStore h)) = false ->
  exists h1,
    WebRTC.handleMessage now (connection_request p dev) h = (h1, AwaitApproval p)
    /\ sent h1 = sent h /\ connectionRef h1 = connectionRef h
    /\ WebRTC.calls h1 = WebRTC.calls h ++ [onConnectionRequest p]
    /\ state (connectionInfo h1) = awaiting_approval.
Proof.
  intros Hhost Hcb Hfree. cbn [WebRTC.handleMessage]. unfold isHost.
  rewrite Hhost, Hcb. cbn [andb].
  destruct (isRateLimited _ _ _ _ _) as [limited store].
  cbn in Hfree. subst limited.
  eexists. split; [reflexivity|]. repeat split; reflexivity.
Qed.

(** C3, amended.  With the approval dialog of the receiver view as the
    approval callback: when a request is accepted for approval while no
    other request is pending and nobody answers the dialog, then once its
    one-second interval has ticked [APPROVAL_TIMEOUT_MS / 1000] times the
    host has replied [connection_denied], is back in [idle], and has
    called neither [onConnected] nor anything but the approval callback. *)
Theorem unanswered_dialog_denies_the_request
    (s : System) (now : Z) (p dev : string) (times : list Z)
    (Hhost : mode (hook s) = host)
    (Hcallback : hasOnConnectionRequest (hook s) = true)
    (Hopen : connectionRef (hook s) = Some true)
    (Hnone : pendingApproval (view s) = None)
    (Hfree :
       fst (isRateLimited now p MAX_CONNECTION_ATTEMPTS
              CONNECTION_ATTEMPT_WINDOW_MS (rateLimitStore (hook s))) = false)
    (Hticks : List.length times = Z.to_nat (APPROVAL_TIMEOUT_MS / 1000)) :
  let s' := run s ((now, Receive (connection_request p dev)) :: ticksAt times) in
  sent (hook s')
  = sent (hook s) ++ [connection_denied (Some "Connection denied")]
  /\ WebRTC.calls (hook s') = WebRTC.calls (hook s) ++ [onConnectionRequest p]
  /\ state (connectionInfo (hook s')) = idle
  /\ pendingApproval (view s') = None.
Proof.
  destruct (accepted_request (hook s) now p dev Hhost Hcallback Hfree)
    as (h1 & E & Hs & Hc & Hk & _).
  assert (R : sent (resumeApproval 0 p false h1)
              = sent (hook s) ++ [connection_denied (Some "Connection denied")]
              /\ WebRTC.calls (resumeApproval 0 p false h1)
                 = WebRTC.calls (hook s) ++ [onConnectionRequest p]
              /\ state (connectionInfo (resumeApproval 0 p false h1)) = idle).
  { rewrite resumeApproval_refusal. unfold send, sendMessage.
    rewrite Hc, Hopen. cbn. rewrite Hs, Hk. auto. }
  assert (Hrun :
    exists v,
      run s ((now, Receive (connection_request p dev)) :: ticksAt times)
      = mkSystem (resumeApproval 0 p false h1) v
      /\ pendingApproval v = None).
  { change (run s ((now, Receive (connection_request p dev)) :: ticksAt times))
      with (run (step s (now, Receive (connection_request p dev)))
              (ticksAt times)).
    unfold step. cbn [fst snd]. rewrite E.
    destruct s as [h [pend m]]. cbn [hook view pendingApproval] in *.
    subst pend. unfold handleConnectionRequest, isOpen.
    cbn [pendingApproval modal].
    destruct (isExpired m); cbn [settle].
    - rewrite ticks_on_closed_dialog. eexists. split; reflexivity.
    - replace mounted with (mkModal (Z.of_nat (List.length times)) false)
        by (rewrite Hticks; reflexivity).
      rewrite countdown_runs_out by (intros ->; discriminate Hticks).
      eexists. split; reflexivity. }
  destruct Hrun as (v & -> & Hv). cbn [hook view].
  destruct R as (R1 & R2 & R3). auto.
Qed.

Lemma unanswered_dialog_denies_the_request_witness :
  sent (hook (run (mkSystem idleHost (mkView None mounted))
                ((0%Z, Receive (connection_request "client-1" "agent"))
                 :: ticksAt (List.map Z.of_nat (List.seq 1 30)))))
  = [connection_denied (Some "Connection denied")].
Proof.
  exact (proj1 (unanswered_dialog_denies_the_request
                  (mkSystem idleHost (mkView None mounted)) 0
                  "client-1" "agent" (List.map Z.of_nat (List.seq 1 30))
                  eq_refl eq_refl eq_refl eq_refl eq_refl eq_refl)).
Defined.

(** ** Receiving: integrity failures and progress accounting *)

(** A chunk whose checksum does not verify is reported and dropped: the
    buffers and both progress records stay as they were. *)
Lemma corrupted_chunk_is_reported_and_dropped
    (e : Engine) (chunk : FileChunkPayload)
    (chunks : list (option (list byte))) :
  receivedChunksRef e !! fileId chunk = Some chunks ->
  verifyChecksum (data chunk) (checksum chunk) = false ->
  FileTransfer.handleMessage (file_chunk chunk) e = FileTransfer.call (FileTransfer.onError CorruptionDetected) e.
Proof. intros Hk Hv. cbn [FileTransfer.handleMessage]. rewrite Hk, Hv. reflexivity. Qed.

(** [file_complete] marks a file with a buffer and metadata as completed,
    whatever the buffer holds. *)
Lemma file_complete_marks_completed
    (e : Engine) (fileId finalHash : string)
    (chunks : list (option (list byte))) (metadata : FileMetadata)
    (progress : TransferProgress) :
  receivedChunksRef e !! fileId = Some chunks ->
  fileMetadataRef e !! fileId = Some metadata ->
  fileProgress e !! fileId = Some progress ->
  let e' := FileTransfer.handleMessage (file_complete fileId finalHash) e in
  FileTransfer.status <$> (fileProgress e' !! fileId) = Some FileTransfer.completed
  /\ FileTransfer.calls e'
     = FileTransfer.calls e
       ++ [onFileReceived (mkBlob (assemble chunks) (type metadata)) metadata].
Proof.
  intros Hc Hm Hp. cbn [FileTransfer.handleMessage]. rewrite Hc, Hm.
  unfold updateFileProgress. cbn. rewrite Hp, lookup_insert_eq.
  split; reflexivity.
Qed.

(** C1, on the code.  The receiver reports the corruption, and then, on
    the sender's [file_complete], hands on an empty file and marks the
    entry completed with all three bytes transferred. *)
Theorem corrupted_file_is_reported_yet_marked_completed :
  let e := receive initialEngine corruptedDelivery in
  verifyChecksum [x01; x02; xff] (generateChecksum notes) = false
  /\ FileTransfer.calls e
     = [ FileTransfer.onError CorruptionDetected;
         onFileReceived (mkBlob [] "text/plain") notesMetadata;
         onTransferComplete ]
  /\ fileProgress e !! "file-1"
     = Some (mkTransferProgress "file-1" (JS.units "notes.txt") 3 3
               FileTransfer.completed None)
  /\ completedFiles (batchProgress e) = 1%Z
  /\ batchStatus (batchProgress e) = batch_completed.
Proof. cbv zeta. vm_compute. repeat split; reflexivity. Qed.

(** C2, on the code.  Receiving: once the buffer of the first file is
    released, the batch counter is recomputed from the buffers that
    remain; after the chunk of the second file the entries add up to 4
    bytes and the batch counter reads 1.  Sending: for a file of two
    chunks the batch counter adds each chunk's end offset, because the
    progress map it subtracts from is the one captured before the batch
    and has no entry for the file; after the second chunk the entry
    reads 65537 bytes and the batch counter 131073. *)
Theorem batch_counter_departs_from_the_file_entries :
  (let e := receive initialEngine (firstn 6 twoFileStream) in
   sumFileBytes (fileProgress e) = 4%Z
   /\ batchBytesTransferred (batchProgress e) = 1%Z)
  /\ progressReports videoSent = [(65536, 65536); (65537, 131073)]%Z
  /\ sumFileBytes (fileProgress videoSent) = 65537%Z
  /\ batchBytesTransferred (batchProgress videoSent) = 131073%Z.
Proof.
  split; [vm_compute; split; reflexivity|].
  split; [exact (eq_refl [(65536, 65536); (65537, 131073)]%Z)|].
  split; [exact (eq_refl 65537%Z)|exact (eq_refl 131073%Z)].
Qed.

(** ** Chunking and reassembly *)

Lemma slice_within {A} (l : list A) (a b : nat) :
  (a <= b)%nat ->
  JS.slice l (Z.of_nat a) (Z.of_nat (Nat.min b (List.length l)))
  = take (b - a) (drop a l).
Proof.
  intros Hab. unfold JS.slice, JS.relIndex.
  destruct (Z.ltb_spec (Z.of_nat a) 0); [lia|].
  destruct (Z.ltb_spec (Z.of_nat (Nat.min b (List.length l))) 0); [lia|].
  set (len := List.length l).
  destruct (Nat.le_gt_cases a len) as [Ha|Ha].
  - replace (Z.to_nat (Z.min (Z.of_nat a) (Z.of_nat len))) with a by lia.
    replace (Z.to_nat
               (Z.min (Z.of_nat (Nat.min b len)) (Z.of_nat len)
                - Z.min (Z.of_nat a) (Z.of_nat len)))
      with (Nat.min (b - a) (List.length (drop a l)))
      by (rewrite length_drop; fold len; lia).
    rewrite <- take_take, (take_ge _ (List.length (drop a l))) by lia.
    reflexivity.
  - replace (Z.to_nat (Z.min (Z.of_nat a) (Z.of_nat len))) with len by lia.
    rewrite !drop_ge by (fold len; lia). rewrite !take_nil. reflexivity.
Qed.

Lemma concat_runs {A} (cs : nat) (n : nat) (l : list A) :
  (0 < cs)%nat -> (List.length l <= n * cs)%nat ->
  List.concat (List.map (fun i => take cs (drop (i * cs) l)) (List.seq 0 n))
  = l.
Proof.
  intros Hcs. revert l. induction n as [|n IH]; intros l Hl.
  - destruct l; [reflexivity|cbn in Hl; lia].
  - cbn [List.seq List.map List.concat]. rewrite <- seq_shift, List.map_map.
    cbn [Nat.mul]. rewrite drop_0.
    transitivity (take cs l ++ drop cs l); [|apply take_drop]. f_equal.
    etransitivity; [|apply (IH (drop cs l)); rewrite length_drop; lia].
    f_equal. apply List.map_ext. intros i.
    rewrite drop_drop; do 2 f_equal; lia.
Qed.

Lemma ceilDiv_covers (size cs : nat) :
  (0 < cs)%nat -> (size <= ceilDiv size cs * cs)%nat.
Proof.
  intros Hcs. unfold ceilDiv.
  pose proof (Nat.div_mod_eq (size + cs - 1) cs) as E.
  pose proof (Nat.mod_upper_bound (size + cs - 1) cs ltac:(lia)) as Hm.
  nia.
Qed.

Lemma CHUNK_SIZE_pos : (0 < CHUNK_SIZE)%nat.
Proof. unfold CHUNK_SIZE. lia. Qed.

(** Concatenating the chunks in index order gives the file back. *)
Lemma chunks_reassemble (file : File) :
  List.concat
    (List.map (chunkBytes file)
       (List.seq 0 (ceilDiv (List.length (content file)) CHUNK_SIZE)))
  = content file.
Proof.
  apply (concat_runs CHUNK_SIZE); [apply CHUNK_SIZE_pos|].
  apply ceilDiv_covers, CHUNK_SIZE_pos.
Qed.

Section RoundTrip.

Variable toLowerCase : list N -> list N.

Variable generateFileId : nat -> string.

Variable batchId : string.

Variable sendMessage : PeerMessage -> bool.

Variable cancelled : CheckPoint -> bool.

Hypothesis channel_accepts : forall m, sendMessage m = true.

Hypothesis never_cancelled : forall c, cancelled c = false.


Lemma validFilesOf_valid (i : nat) (files : list File) :
  Forall (validPair toLowerCase)
    (validFilesOf toLowerCase generateFileId i files).
Proof.
  revert i. induction files as [|f files IH]; intros i; [constructor|].
  cbn [validFilesOf]. destruct (validateFile toLowerCase f) eqn:Ef.
  - constructor; [|apply IH]. split; [exact Ef|]. eexists. reflexivity.
  - apply IH.
Qed.






Lemma omap_present {A B} (f : A -> B) (l : list A) :
  omap (fun c => c) (List.map (fun i => Some (f i)) l) = List.map f l.
Proof. induction l as [|i l IH]; cbn; congruence. Qed.

Lemma assemble_storedChunks (file : File) (k : nat) :
  assemble (storedChunks file k)
  = List.concat (List.map (chunkBytes file) (List.seq 0 k)).
Proof.
  unfold assemble, storedChunks. f_equal. apply omap_present.
Qed.

Lemma verifyChecksum_own (d : list byte) :
  verifyChecksum d (generateChecksum d) = true.
Proof. unfold verifyChecksum. apply String.eqb_refl. Qed.

End RoundTrip.



Lemma valid_file_is_not_empty (toLowerCase : list N -> list N) (file : File) :
  validateFile toLowerCase file = [] ->
  (0 < List.length (content file))%nat.
Proof.
  unfold validateFile, fileSize.
  destruct (content file) as [|b bs]; [|cbn [List.length]; lia].
  change (Z.of_nat (List.length [])) with 0%Z.
  change (0 =? 0)%Z with true. intros Hfile.
  destruct (MAX_FILE_SIZE <? 0)%Z; discriminate Hfile.
Qed.




(** ** Arrays of chunks *)

Lemma arraySet_length {A} (arr : list (option A)) (i : nat) (v : A) :
  (Z.of_nat i <= 4294967294)%Z ->
  List.length (JS.arraySet arr (Z.of_nat i) v)
  = Nat.max (List.length arr) (S i).
Proof.
  intros Hi. unfold JS.arraySet.
  destruct (Z.ltb_spec (Z.of_nat i) 0); [lia|].
  destruct (Z.ltb_spec 4294967294 (Z.of_nat i)); [lia|].
  cbn [orb]. rewrite Nat2Z.id.
  destruct (Nat.ltb_spec i (List.length arr)).
  - rewrite length_insert. lia.
  - rewrite !length_app, repeat_length. cbn [List.length]. lia.
Qed.

Lemma lookup_repeat {A} (x : A) (n i : nat) :
  (i < n)%nat -> List.repeat x n !! i = Some x.
Proof.
  revert i. induction n as [|n IH]; intros i Hi; [lia|].
  destruct i as [|i]; [reflexivity|]. cbn. apply IH. lia.
Qed.

Lemma arraySet_lookup {A} (arr : list (option A)) (i j : nat) (v : A) :
  (Z.of_nat i <= 4294967294)%Z ->
  JS.arraySet arr (Z.of_nat i) v !! j
  = if decide (j = i) then Some (Some v)
    else if decide (j < List.length arr)%nat then arr !! j
         else if decide (j < i)%nat then Some None else None.
Proof.
  intros Hi. unfold JS.arraySet.
  destruct (Z.ltb_spec (Z.of_nat i) 0); [lia|].
  destruct (Z.ltb_spec 4294967294 (Z.of_nat i)); [lia|].
  cbn [orb]. rewrite Nat2Z.id.
  destruct (Nat.ltb_spec i (List.length arr)) as [Hin|Hout].
  - destruct (decide (j = i)) as [->|Hne].
    + apply list_lookup_insert_eq. exact Hin.
    + rewrite list_lookup_insert_ne by congruence.
      destruct (decide (j < List.length arr)%nat) as [|Hj]; [reflexivity|].
      rewrite lookup_ge_None_2 by lia.
      destruct (decide (j < i)%nat); [lia|reflexivity].
  - destruct (decide (j < List.length arr)%nat) as [Hj|Hj].
    + rewrite lookup_app_l by exact Hj.
      destruct (decide (j = i)); [lia|reflexivity].
    + rewrite lookup_app_r by lia.
      destruct (decide (j = i)) as [->|Hne].
      * rewrite lookup_app_r by (rewrite repeat_length; lia).
        rewrite repeat_length, Nat.sub_diag. reflexivity.
      * destruct (decide (j < i)%nat) as [Hlt|Hge].
        -- rewrite lookup_app_l by (rewrite repeat_length; lia).
           apply lookup_repeat. lia.
        -- apply lookup_ge_None_2.
           rewrite length_app, repeat_length. cbn [List.length]. lia.
Qed.

Lemma holdsChunksOf_step (file : File) (n i : nat) (received : nat -> Prop)
    (arr : list (option (list byte))) :
  (Z.of_nat n <= 4294967295)%Z -> (i < n)%nat ->
  holdsChunksOf file n received arr ->
  holdsChunksOf file n (fun j => j = i \/ received j)
    (JS.arraySet arr (Z.of_nat i) (chunkBytes file i)).
Proof.
  intros Hn Hi (Hlen & Hown & Hhas).
  assert (Hb : (Z.of_nat i <= 4294967294)%Z) by lia.
  split; [|split].
  - rewrite arraySet_length by exact Hb. lia.
  - intros j d. rewrite arraySet_lookup by exact Hb.
    destruct (decide (j = i)) as [->|Hne]; [congruence|].
    destruct (decide (j < List.length arr)%nat); [apply Hown|].
    destruct (decide (j < i)%nat); discriminate.
  - intros j Hj. rewrite arraySet_lookup by exact Hb.
    destruct (decide (j = i)) as [->|Hne]; [reflexivity|].
    destruct Hj as [Hj|Hj]; [contradiction|].
    specialize (Hhas j Hj).
    destruct (decide (j < List.length arr)%nat) as [|Hge]; [exact Hhas|].
    apply lookup_lt_Some in Hhas. lia.
Qed.

Lemma holdsChunksOf_all (file : File) (n : nat) (received : nat -> Prop)
    (arr : list (option (list byte))) :
  holdsChunksOf file n received arr ->
  (forall j, (j < n)%nat -> received j) ->
  arr = storedChunks file n.
Proof.
  intros (Hlen & _ & Hhas) Hall. apply list_eq. intros j.
  unfold storedChunks.
  destruct (decide (j < n)%nat) as [Hj|Hj].
  - rewrite (Hhas j (Hall j Hj)).
    change (List.map ?f ?l) with (f <$> l).
    rewrite list_lookup_fmap, lookup_seq_lt by lia. reflexivity.
  - rewrite !lookup_ge_None_2; [reflexivity| |lia].
    rewrite length_map, length_seq. lia.
Qed.

(** ** Receiving under a schedule *)

Lemma holdsChunksOf_weaken (file : File) (n : nat)
    (received received' : nat -> Prop) (arr : list (option (list byte))) :
  (forall j, received' j -> received j) ->
  holdsChunksOf file n received arr -> holdsChunksOf file n received' arr.
Proof.
  intros Hsub (A & B & C). split; [exact A|]. split; [exact B|].
  intros j Hj. apply C, Hsub, Hj.
Qed.

Lemma verificationOf_inj (file : File) (metadata : FileMetadata)
    (a i j : nat) :
  verificationOf file metadata a i = verificationOf file metadata a j ->
  i = j.
Proof.
  unfold verificationOf, chunkPayload. intros H.
  injection H as H _ _. lia.
Qed.

Lemma In_delete {A} (l : list A) (k : nat) (x y : A) :
  l !! k = Some y -> List.In x l -> x = y \/ List.In x (delete k l).
Proof.
  intros Hk Hin. rewrite <- (take_drop_middle l k y Hk) in Hin.
  rewrite delete_take_drop.
  apply List.in_app_or in Hin. destruct Hin as [Hin|[Hin|Hin]].
  - right. apply List.in_or_app. left. exact Hin.
  - left. congruence.
  - right. apply List.in_or_app. right. exact Hin.
Qed.

Lemma Forall_delete_keeps {A} (P : A -> Prop) (l : list A) (k : nat) :
  Forall P l -> Forall P (delete k l).
Proof.
  intros H. rewrite delete_take_drop. apply Forall_app.
  split; [apply Forall_take|apply Forall_drop]; exact H.
Qed.

(** What a continuation changes when its checksum is right: the array
    it captured, and the progress records. *)
Lemma verified_valid (c : Receiving.Continuation) (s : Receiving.State) :
  verifyChecksum (data (Receiving.chunk c)) (checksum (Receiving.chunk c))
  = true ->
  let s' := Receiving.verified c s in
  Receiving.receivedChunksRef s' = Receiving.receivedChunksRef s
  /\ Receiving.fileMetadataRef s' = Receiving.fileMetadataRef s
  /\ Receiving.calls s' = Receiving.calls s
  /\ Receiving.pending s' = Receiving.pending s
  /\ Receiving.isReceiving s' = Receiving.isReceiving s
  /\ Receiving.arrays s'
     = <[Receiving.chunks c :=
           JS.arraySet (Receiving.elements (Receiving.chunks c) s)
             (chunkIndex (Receiving.chunk c)) (data (Receiving.chunk c))]>
         (Receiving.arrays s).
Proof.
  intros Hvalid. cbv zeta. unfold Receiving.verified. rewrite Hvalid.
  cbn [negb Receiving.fileMetadataRef Receiving.setArrays].
  destruct (Receiving.fileMetadataRef s !! _); repeat split; reflexivity.
Qed.

Section OneFile.

Variable file : File.

Variable metadata : FileMetadata.

Hypothesis Hfit : (Z.of_nat (chunkCount file) <= 4294967295)%Z.

Lemma chunk_is_delivered (a j : nat) (arrived : list nat)
    (kept : list FileTransfer.Callback) (s : Receiving.State) :
  receivingFile file metadata a arrived kept s ->
  (j < chunkCount file)%nat ->
  receivingFile file metadata a (j :: arrived) kept
    (Receiving.handleMessage (expectedChunk file metadata j) s).
Proof.
  intros (Href & Hmeta & Hcalls & Hpending & arr & Harr & Hholds) Hj.
  unfold expectedChunk. cbn [Receiving.handleMessage fileId].
  rewrite Href.
  unfold receivingFile.
  cbn [Receiving.setPending Receiving.receivedChunksRef
       Receiving.fileMetadataRef Receiving.calls Receiving.pending
       Receiving.arrays].
  split; [exact Href|]. split; [exact Hmeta|]. split; [exact Hcalls|].
  split.
  - apply Forall_app. split; [exact Hpending|].
    constructor; [|constructor]. exists j. split; [exact Hj|reflexivity].
  - exists arr. split; [exact Harr|].
    eapply holdsChunksOf_weaken; [|exact Hholds].
    intros i [Hi Hnot]. split.
    + destruct Hi as [<-|Hi]; [|exact Hi].
      exfalso. apply Hnot. apply List.in_or_app. right. left. reflexivity.
    + intros Hin. apply Hnot. apply List.in_or_app. left. exact Hin.
Qed.

Lemma chunk_is_verified (a k : nat) (arrived : list nat)
    (kept : list FileTransfer.Callback) (s : Receiving.State)
    (c : Receiving.Continuation) :
  receivingFile file metadata a arrived kept s ->
  Receiving.pending s !! k = Some c ->
  receivingFile file metadata a arrived kept
    (Receiving.step (Receiving.Verified k) s).
Proof.
  intros (Href & Hmeta & Hcalls & Hpending & arr & Harr & Hholds) Hk.
  cbn [Receiving.step]. rewrite Hk.
  pose proof (proj1 (Forall_lookup _ _) Hpending k c Hk) as (j & Hj & ->).
  destruct (verified_valid (verificationOf file metadata a j)
              (Receiving.setPending (delete k (Receiving.pending s)) s)
              (verifyChecksum_own _))
    as (E1 & E2 & E3 & E4 & _ & E5).
  unfold receivingFile. rewrite E1, E2, E3, E4, E5.
  unfold Receiving.elements.
  cbn [Receiving.setPending Receiving.receivedChunksRef
       Receiving.fileMetadataRef Receiving.calls Receiving.pending
       Receiving.arrays verificationOf Receiving.chunks Receiving.chunk
       chunkPayload chunkIndex data].
  rewrite Harr. cbn [default].
  split; [exact Href|]. split; [exact Hmeta|]. split; [exact Hcalls|].
  split; [apply Forall_delete_keeps; exact Hpending|].
  eexists. split.
  - apply list_lookup_insert_eq. apply lookup_lt_Some in Harr. exact Harr.
  - eapply holdsChunksOf_weaken;
      [|exact (holdsChunksOf_step _ _ _ _ _ Hfit Hj Hholds)].
    intros i [Hi Hnot]. cbv beta.
    destruct (decide (i = j)) as [->|Hne]; [left; reflexivity|].
    right. split; [exact Hi|]. intros Hin.
    destruct (In_delete _ _ _ _ Hk Hin) as [E|Hin']; [|exact (Hnot Hin')].
    apply verificationOf_inj in E. contradiction.
Qed.

Lemma metadata_opens_the_file (batchId : string) (fileIndex fileCount : Z)
    (s : Receiving.State) :
  Receiving.pending s = [] ->
  let s' :=
    Receiving.handleMessage
      (file_metadata
         (mkFileMetadataPayload metadata batchId fileIndex fileCount)) s in
  receivingFile file metadata (List.length (Receiving.arrays s)) []
    (Receiving.calls s) s'
  /\ Receiving.pending s' = [].
Proof.
  intros Hidle. cbv zeta.
  cbn [Receiving.handleMessage Protocol.metadata].
  unfold receivingFile.
  cbn [Receiving.setBatchProgress Receiving.setFileProgress
       Receiving.setReceivedChunks Receiving.setArrays
       Receiving.setFileMetadata
       Receiving.receivedChunksRef Receiving.fileMetadataRef Receiving.calls
       Receiving.pending Receiving.arrays].
  rewrite !lookup_insert_eq, Hidle.
  split; [|reflexivity].
  split; [reflexivity|]. split; [reflexivity|]. split; [reflexivity|].
  split; [constructor|].
  exists []. split.
  - rewrite lookup_app_r by lia. rewrite Nat.sub_diag. reflexivity.
  - split; [cbn [List.length]; lia|].
    split; [intros j d H; discriminate H|]. intros j [[] _].
Qed.

Lemma complete_hands_on_the_file (a : nat) (arrived : list nat)
    (kept : list FileTransfer.Callback) (finalHash : string)
    (s : Receiving.State) :
  receivingFile file metadata a arrived kept s ->
  Receiving.pending s = [] ->
  (forall j, (j < chunkCount file)%nat -> List.In j arrived) ->
  let s' :=
    Receiving.handleMessage (file_complete (id metadata) finalHash) s in
  Receiving.calls s' = kept ++ [delivered (file, metadata)]
  /\ Receiving.pending s' = [].
Proof.
  intros (Href & Hmeta & Hcalls & _ & arr & Harr & Hholds) Hidle Hall.
  cbv zeta. cbn [Receiving.handleMessage]. rewrite Href, Hmeta.
  unfold Receiving.elements. rewrite Harr.
  change (default [] (Some arr)) with arr.
  cbn [Receiving.call Receiving.setReceivedChunks Receiving.setBatchProgress
       Receiving.updateFileProgress Receiving.setFileProgress
       Receiving.calls Receiving.pending].
  rewrite Hcalls, Hidle. split; [|reflexivity].
  assert (E : arr = storedChunks file (chunkCount file)).
  { apply (holdsChunksOf_all file _ _ arr Hholds).
    intros j Hj. split; [exact (Hall j Hj)|].
    rewrite Hidle. intros []. }
  rewrite E, assemble_storedChunks. unfold chunkCount.
  rewrite chunks_reassemble. reflexivity.
Qed.

(** The chunks of the file and then its [file_complete], under any
    schedule that lets no verification be under way when the
    [file_complete] is handled: the file is handed on, and the rest of the
    schedule starts with no verification under way. *)
Lemma chunks_then_complete (finalHash : string) (tail : list PeerMessage)
    (kept : list FileTransfer.Callback) (a : nat)
    (schedule : list Receiving.Event) :
  forall (remaining arrived : list nat) (s : Receiving.State),
    receivingFile file metadata a arrived kept s ->
    Receiving.messagesOf schedule
    = List.map (expectedChunk file metadata) remaining
      ++ file_complete (id metadata) finalHash :: tail ->
    Forall (fun j => (j < chunkCount file)%nat) remaining ->
    (forall j, (j < chunkCount file)%nat ->
               List.In j arrived \/ List.In j remaining) ->
    Receiving.verifiedBeforeCompletion schedule s = true ->
    exists rest s',
      Receiving.run schedule s = Receiving.run rest s'
      /\ Receiving.messagesOf rest = tail
      /\ Receiving.verifiedBeforeCompletion rest s' = true
      /\ Receiving.pending s' = []
      /\ Receiving.calls s'
         = kept ++ [delivered (file, metadata)].
Proof.
  induction schedule as [|ev schedule IH];
    intros remaining arrived s Hinv Hmessages Hremaining Hcovers Hsettled.
  - destruct remaining; discriminate Hmessages.
  - destruct ev as [m|k].
    + change (Receiving.messagesOf (Receiving.Message m :: schedule))
        with (m :: Receiving.messagesOf schedule) in Hmessages.
      destruct remaining as [|j remaining].
      * cbn [List.map List.app] in Hmessages.
        injection Hmessages as -> Hmessages.
        cbn [Receiving.verifiedBeforeCompletion] in Hsettled.
        destruct (Receiving.pending s) eqn:Hidle; [|discriminate Hsettled].
        destruct (complete_hands_on_the_file a arrived kept finalHash s
                    Hinv Hidle) as (Hcalls & Hidle').
        { intros j Hj. destruct (Hcovers j Hj) as [H|[]]. exact H. }
        exists schedule, (Receiving.step
                            (Receiving.Message
                               (file_complete (id metadata) finalHash)) s).
        repeat split; assumption.
      * cbn [List.map List.app] in Hmessages.
        injection Hmessages as -> Hmessages.
        apply Forall_cons in Hremaining. destruct Hremaining as [Hj Hremaining].
        apply (IH remaining (j :: arrived)
                 (Receiving.step
                    (Receiving.Message (expectedChunk file metadata j)) s)).
        -- apply chunk_is_delivered; assumption.
        -- exact Hmessages.
        -- exact Hremaining.
        -- intros i Hi. destruct (Hcovers i Hi) as [H|[<-|H]].
           ++ left. right. exact H.
           ++ left. left. reflexivity.
           ++ right. exact H.
        -- exact Hsettled.
    + change (Receiving.messagesOf (Receiving.Verified k :: schedule))
        with (Receiving.messagesOf schedule) in Hmessages.
      cbn [Receiving.verifiedBeforeCompletion] in Hsettled.
      apply (IH remaining arrived (Receiving.step (Receiving.Verified k) s));
        try assumption.
      destruct (Receiving.pending s !! k) as [c|] eqn:Hk.
      * exact (chunk_is_verified a k arrived kept s c Hinv Hk).
      * cbn [Receiving.step]. rewrite Hk. exact Hinv.
Qed.

End OneFile.

(** With no verification under way, the schedule comes to its next
    message without a change. *)
Lemma next_message (schedule : list Receiving.Event) (m : PeerMessage)
    (tail : list PeerMessage) (s : Receiving.State) :
  Receiving.pending s = [] ->
  Receiving.messagesOf schedule = m :: tail ->
  Receiving.verifiedBeforeCompletion schedule s = true ->
  exists rest,
    Receiving.run schedule s = Receiving.run rest (Receiving.handleMessage m s)
    /\ Receiving.messagesOf rest = tail
    /\ Receiving.verifiedBeforeCompletion rest (Receiving.handleMessage m s)
       = true.
Proof.
  intros Hidle. induction schedule as [|ev schedule IH];
    intros Hmessages Hsettled; [discriminate Hmessages|].
  destruct ev as [m'|k].
  - change (Receiving.messagesOf (Receiving.Message m' :: schedule))
      with (m' :: Receiving.messagesOf schedule) in Hmessages.
    injection Hmessages as -> Hmessages.
    exists schedule. split; [reflexivity|]. split; [exact Hmessages|].
    cbn [Receiving.verifiedBeforeCompletion] in Hsettled.
    rewrite Hidle in Hsettled.
    destruct m; exact Hsettled.
  - change (Receiving.messagesOf (Receiving.Verified k :: schedule))
      with (Receiving.messagesOf schedule) in Hmessages.
    cbn [Receiving.verifiedBeforeCompletion Receiving.step] in Hsettled.
    cbn [Receiving.run List.fold_left Receiving.step].
    rewrite Hidle in Hsettled |- *. rewrite lookup_nil in Hsettled |- *.
    exact (IH Hmessages Hsettled).
Qed.

Lemma no_more_messages (schedule : list Receiving.Event)
    (s : Receiving.State) :
  Receiving.pending s = [] ->
  Receiving.messagesOf schedule = [] ->
  Receiving.run schedule s = s.
Proof.
  intros Hidle. induction schedule as [|ev schedule IH]; intros Hmessages;
    [reflexivity|].
  destruct ev as [m|k]; [discriminate Hmessages|].
  cbn [Receiving.run List.fold_left Receiving.step].
  rewrite Hidle, lookup_nil. exact (IH Hmessages).
Qed.








(** ** Room codes: generation, validation and display *)

Lemma alphabet_symbol (c : ascii) :
  alphabetIncludes c = true ->
  Ascii.eqb c "-" = false /\ JS.upperAscii c = c
  /\ isAmbiguousGlyph c = false.
Proof.
  unfold alphabetIncludes. intros H.
  apply List.existsb_exists in H. destruct H as (x & Hin & Hx).
  apply Ascii.eqb_eq in Hx. subst x.
  vm_compute in Hin.
  repeat (destruct Hin as [<-|Hin]; [vm_compute; auto|]).
  destruct Hin.
Qed.

Lemma string_of_list_ascii_app (a b : list ascii) :
  string_of_list_ascii (a ++ b)
  = string_of_list_ascii a +:+ string_of_list_ascii b.
Proof. induction a as [|c a IH]; cbn; [reflexivity|]. rewrite IH. reflexivity. Qed.

Lemma generated_glyphs (random : nat -> byte) :
  List.forallb (fun c => negb (isAmbiguousGlyph c))
    (list_ascii_of_string (generateSecureRoomCode random)) = true.
Proof.
  destruct (generateSecureRoomCode_shape random)
    as (c0 & c1 & c2 & c3 & c4 & c5 & c6 & c7 & G & _ & F & _).
  cbn [List.forallb] in F.
  repeat (apply andb_prop in F; destruct F as [? F]).
  repeat match goal with
         | H : alphabetIncludes _ = true |- _ =>
             apply alphabet_symbol in H; destruct H as (_ & _ & H)
         end.
  rewrite G, list_ascii_of_string_of_list_ascii. cbn [List.forallb].
  repeat match goal with
         | H : isAmbiguousGlyph _ = false |- _ => rewrite H; clear H
         end.
  reflexivity.
Qed.

(** X1.  Whatever the random bytes, the generated room code is nine
    characters long, passes [isValidRoomCodeFormat], is left as it is by
    [formatRoomCode], is obtained back by [formatRoomCode] from its
    normalised form, and contains none of the glyphs 0, O, I, 1 and L. *)
Theorem generated_room_code_is_valid_and_displayed_unchanged
    (random : nat -> byte) :
  let code := generateSecureRoomCode random in
  String.length code = 9%nat
  /\ isValidRoomCodeFormat code = true
  /\ formatRoomCode code = code
  /\ formatRoomCode (normalizeRoomCode code) = code
  /\ List.forallb (fun c => negb (isAmbiguousGlyph c))
       (list_ascii_of_string code) = true.
Proof.
  cbv zeta. pose proof (generated_glyphs random) as Hglyphs.
  destruct (generateSecureRoomCode_shape random)
    as (c0 & c1 & c2 & c3 & c4 & c5 & c6 & c7 & G & Nm & F & V).
  cbn [List.forallb] in F.
  repeat (apply andb_prop in F; destruct F as [? F]).
  repeat match goal with
         | H : alphabetIncludes _ = true |- _ =>
             apply alphabet_symbol in H; destruct H as (? & ? & _)
         end.
  split; [rewrite G; reflexivity|]. split; [exact V|].
  assert (Nn : normalizeRoomCode
                 (string_of_list_ascii [c0; c1; c2; c3; c4; c5; c6; c7])
               = string_of_list_ascii [c0; c1; c2; c3; c4; c5; c6; c7]).
  { unfold normalizeRoomCode, JS.stripDashes, JS.toUpperCase.
    rewrite !list_ascii_of_string_of_list_ascii. cbn [List.filter].
    repeat match goal with
           | H : Ascii.eqb _ "-" = false |- _ => rewrite H; clear H
           end.
    cbn [negb List.map].
    repeat match goal with
           | H : JS.upperAscii _ = _ |- _ => rewrite H; clear H
           end.
    reflexivity. }
  split; [unfold formatRoomCode; rewrite Nm, G; reflexivity|].
  split; [|exact Hglyphs].
  rewrite Nm. unfold formatRoomCode. rewrite Nn, G. reflexivity.
Qed.

(** *** Normalisation *)

Lemma upperAscii_dash (c : ascii) :
  Ascii.eqb (JS.upperAscii c) "-" = Ascii.eqb c "-".
Proof.
  destruct c as [[] [] [] [] [] [] [] []]; reflexivity.
Qed.

Lemma upperAscii_idem (c : ascii) :
  JS.upperAscii (JS.upperAscii c) = JS.upperAscii c.
Proof.
  destruct c as [[] [] [] [] [] [] [] []]; reflexivity.
Qed.

Lemma filter_noDash (l : list ascii) :
  noDash l -> List.filter (fun c => negb (Ascii.eqb c "-")) l = l.
Proof.
  induction 1 as [|c l Hc Hl IH]; [reflexivity|].
  cbn. rewrite Hc. cbn. rewrite IH. reflexivity.
Qed.

Lemma noDash_filter (l : list ascii) :
  noDash (List.filter (fun c => negb (Ascii.eqb c "-")) l).
Proof.
  induction l as [|c l IH]; [constructor|]. cbn.
  destruct (Ascii.eqb c "-") eqn:E; cbn; [exact IH|].
  constructor; assumption.
Qed.

Lemma noDash_upper (l : list ascii) :
  noDash l -> noDash (List.map JS.upperAscii l).
Proof.
  induction 1 as [|c l Hc Hl IH]; [constructor|].
  cbn. constructor; [rewrite upperAscii_dash; exact Hc|exact IH].
Qed.

Lemma normalizeRoomCode_chars (code : string) :
  normalizeRoomCode code = string_of_list_ascii (normalizedChars code).
Proof.
  unfold normalizeRoomCode, JS.toUpperCase, JS.stripDashes, normalizedChars.
  rewrite list_ascii_of_string_of_list_ascii. reflexivity.
Qed.

Lemma normalizedChars_fixed (l : list ascii) :
  noDash l -> List.map JS.upperAscii l = l ->
  normalizedChars (string_of_list_ascii l) = l.
Proof.
  intros Hd Hu. unfold normalizedChars.
  rewrite list_ascii_of_string_of_list_ascii, filter_noDash by exact Hd.
  exact Hu.
Qed.

Lemma normalizedChars_normal (code : string) :
  noDash (normalizedChars code)
  /\ List.map JS.upperAscii (normalizedChars code) = normalizedChars code.
Proof.
  unfold normalizedChars. split.
  - apply noDash_upper, noDash_filter.
  - rewrite List.map_map. apply List.map_ext. intros c. apply upperAscii_idem.
Qed.

Lemma normalizeRoomCode_idem (code : string) :
  normalizeRoomCode (normalizeRoomCode code) = normalizeRoomCode code.
Proof.
  rewrite !normalizeRoomCode_chars. f_equal.
  destruct (normalizedChars_normal code) as [Hd Hu].
  apply normalizedChars_fixed; assumption.
Qed.

Lemma substring_chars (l : list ascii) (n m : nat) :
  String.substring n m (string_of_list_ascii l)
  = string_of_list_ascii (firstn m (skipn n l)).
Proof.
  revert n m. induction l as [|c l IH]; intros n m.
  - destruct n, m; reflexivity.
  - destruct n as [|n].
    + destruct m as [|m]; [reflexivity|].
      cbn [string_of_list_ascii String.substring skipn firstn].
      f_equal. apply (IH 0%nat m).
    + cbn [string_of_list_ascii String.substring skipn]. apply IH.
Qed.

Lemma length_string_of_list_ascii (l : list ascii) :
  String.length (string_of_list_ascii l) = List.length l.
Proof. induction l as [|c l IH]; cbn; congruence. Qed.

Lemma filter_dash_insert (a b : list ascii) :
  List.filter (fun c => negb (Ascii.eqb c "-")) (a ++ ["-"%char] ++ b)
  = List.filter (fun c => negb (Ascii.eqb c "-")) (a ++ b).
Proof. rewrite !List.filter_app. reflexivity. Qed.

Lemma normalizeRoomCode_formatRoomCode (code : string) :
  normalizeRoomCode (formatRoomCode code) = normalizeRoomCode code.
Proof.
  unfold formatRoomCode.
  destruct (String.length (normalizeRoomCode code) =? ROOM_CODE_LENGTH)%nat
    eqn:E; cbn [negb]; [|reflexivity].
  rewrite (normalizeRoomCode_chars code) in *.
  destruct (normalizedChars_normal code) as [Hd Hu].
  set (l := normalizedChars code) in *.
  rewrite length_string_of_list_ascii in *. rewrite !substring_chars.
  change "-" with (string_of_list_ascii ["-"%char]).
  rewrite <- !string_of_list_ascii_app.
  rewrite normalizeRoomCode_chars. f_equal.
  unfold normalizedChars.
  rewrite list_ascii_of_string_of_list_ascii.
  rewrite filter_dash_insert.
  rewrite (firstn_all2 (skipn 4 l)) by (rewrite length_skipn; lia).
  change (skipn 0 l) with l. rewrite firstn_skipn.
  rewrite filter_noDash by exact Hd. exact Hu.
Qed.

(** X2.  Normalising is idempotent and undoes [formatRoomCode]: however
    a code is spelled, its display form normalises to the same key, is
    judged by [isValidRoomCodeFormat] like the code itself, and names the
    same session.  (Stated for ASCII text, the range in which the
    upper-casing of the model is that of the source.) *)
Theorem room_code_spellings_share_one_key
    (code : string) (store : gmap string Session)
    (Hascii : isAsciiText code) :
  normalizeRoomCode (normalizeRoomCode code) = normalizeRoomCode code
  /\ normalizeRoomCode (formatRoomCode code) = normalizeRoomCode code
  /\ isValidRoomCodeFormat (formatRoomCode code) = isValidRoomCodeFormat code
  /\ isValidRoomCodeFormat (normalizeRoomCode code)
     = isValidRoomCodeFormat code
  /\ getSession (formatRoomCode code) store = getSession code store.
Proof.
  pose proof (normalizeRoomCode_idem code) as Hi.
  pose proof (normalizeRoomCode_formatRoomCode code) as Hf.
  split; [exact Hi|]. split; [exact Hf|].
  unfold isValidRoomCodeFormat, getSession. rewrite Hi, Hf. auto.
Qed.

Lemma room_code_spellings_share_one_key_witness :
  normalizeRoomCode (formatRoomCode "abcd-efgh") = normalizeRoomCode "abcd-efgh"
  /\ formatRoomCode "abcdefgh" = "ABCD-EFGH".
Proof.
  split; [|reflexivity].
  refine (proj1 (proj2 (room_code_spellings_share_one_key "abcd-efgh" ∅ _))).
  unfold isAsciiText. cbn. repeat constructor.
Defined.

(** ** PIN hashes *)

Lemma hashPin_length (pin : string) : String.length (hashPin pin) = 64%nat.
Proof. unfold hashPin. rewrite join_hex_length, digest_length. reflexivity. Qed.

Lemma hashPin_truthy (pin : string) : truthy (Some (hashPin pin)) = true.
Proof.
  pose proof (hashPin_length pin) as L. cbn [truthy].
  destruct (hashPin pin); [discriminate L|reflexivity].
Qed.

(** X3.  Whatever the PIN, [hashPin] returns 64 lowercase hexadecimal
    characters; in particular the stored hash is never an empty string,
    so a host that has called [setPin] always asks for the PIN. *)
Theorem hashPin_is_64_lowercase_hex_characters (pin : string) (h : Hook) :
  String.length (hashPin pin) = 64%nat
  /\ List.forallb isLowerHex (list_ascii_of_string (hashPin pin)) = true
  /\ truthy (pinHashRef (Connection.setPin pin h)) = true.
Proof.
  split; [apply hashPin_length|]. split; [apply join_hex_chars|].
  unfold Connection.setPin, setInfo. cbn [pinHashRef].
  apply hashPin_truthy.
Qed.

(** ** Escaping text for display *)

Lemma replaceAll_app (c : N) (r a b : list N) :
  JS.replaceAll c r (a ++ b) = JS.replaceAll c r a ++ JS.replaceAll c r b.
Proof. unfold JS.replaceAll. apply List.flat_map_app. Qed.

Lemma sanitizeText_app (a b : list N) :
  sanitizeText (a ++ b) = sanitizeText a ++ sanitizeText b.
Proof. unfold sanitizeText. rewrite !replaceAll_app. reflexivity. Qed.

Lemma sanitizeText_unit (c : N) : sanitizeText [c] = escapeUnit c.
Proof.
  unfold sanitizeText, escapeUnit, JS.replaceAll. cbn [List.flat_map].
  destruct (N.eqb_spec c 38) as [->|H38]; [reflexivity|].
  cbn [List.app List.flat_map].
  destruct (N.eqb_spec c 60) as [->|H60]; [reflexivity|].
  cbn [List.app List.flat_map].
  destruct (N.eqb_spec c 62) as [->|H62]; [reflexivity|].
  cbn [List.app List.flat_map].
  destruct (N.eqb_spec c 34) as [->|H34]; [reflexivity|].
  cbn [List.app List.flat_map].
  destruct (N.eqb_spec c 39) as [->|H39]; reflexivity.
Qed.

Lemma escapeUnit_no_markup (c : N) :
  Forall (fun u => isMarkup u = false) (escapeUnit c).
Proof.
  unfold escapeUnit.
  destruct (N.eqb_spec c 38); [repeat constructor|].
  destruct (N.eqb_spec c 60); [repeat constructor|].
  destruct (N.eqb_spec c 62); [repeat constructor|].
  destruct (N.eqb_spec c 34); [repeat constructor|].
  destruct (N.eqb_spec c 39); [repeat constructor|].
  constructor; [|constructor]. unfold isMarkup.
  repeat match goal with
         | H : c <> _ |- _ => apply N.eqb_neq in H; rewrite H; clear H
         end.
  reflexivity.
Qed.

(** X4.  The five successive replacements of [sanitizeText] amount to
    escaping every code unit once, independently of its neighbours (an
    ampersand written by a later replacement is not escaped again, because
    the ampersand is replaced first); the result contains no less-than,
    greater-than, double quote or apostrophe; and text made of other
    characters than the five is returned unchanged. *)
Theorem sanitizeText_escapes_every_unit_once (text : list N) :
  sanitizeText text = List.flat_map escapeUnit text
  /\ Forall (fun u => isMarkup u = false) (sanitizeText text)
  /\ sanitizeText (List.filter isPlain text) = List.filter isPlain text.
Proof.
  assert (E : forall t, sanitizeText t = List.flat_map escapeUnit t).
  { intros t. induction t as [|c t IH]; [reflexivity|].
    change (c :: t) with ([c] ++ t).
    rewrite sanitizeText_app, sanitizeText_unit, IH. reflexivity. }
  split; [apply E|]. rewrite !E. clear E. split.
  - induction text as [|c text IH]; [constructor|].
    cbn [List.flat_map]. apply Forall_app_2; [apply escapeUnit_no_markup|].
    exact IH.
  - induction text as [|c text IH]; [reflexivity|].
    cbn [List.filter]. destruct (isPlain c) eqn:Hc; [|exact IH].
    cbn [List.flat_map]. rewrite IH.
    unfold isPlain in Hc. apply negb_true_iff in Hc.
    apply orb_false_elim in Hc. destruct Hc as [Hm H38].
    unfold isMarkup in Hm.
    repeat (apply orb_false_elim in Hm; destruct Hm as [Hm ?]).
    unfold escapeUnit. rewrite H38, Hm.
    repeat match goal with H : (_ =? _)%N = false |- _ => rewrite H; clear H end.
    reflexivity.
Qed.

(** ** File-name sanitisation, continued *)

Lemma removeDotDot_length (s : list N) :
  (List.length (removeDotDot s) <= List.length s)%nat.
Proof.
  assert (H : forall n s, (List.length s <= n)%nat ->
                          (List.length (removeDotDot s) <= List.length s)%nat).
  { intros n. induction n as [|n IH]; intros t Ht.
    - destruct t; [cbn; lia|cbn in Ht; lia].
    - destruct t as [|a [|b r]]; [cbn; lia|cbn; lia|].
      change (removeDotDot (a :: b :: r))
        with (if ((a =? DOT) && (b =? DOT))%N then removeDotDot r
              else a :: removeDotDot (b :: r)).
      destruct ((a =? DOT) && (b =? DOT))%N.
      + specialize (IH r). cbn [List.length] in *. lia.
      + assert (Hr : (List.length (b :: r) <= n)%nat)
          by (cbn [List.length] in *; lia).
        specialize (IH (b :: r) Hr).
        change (List.length (a :: removeDotDot (b :: r)))
          with (S (List.length (removeDotDot (b :: r)))).
        change (List.length (a :: b :: r)) with (S (List.length (b :: r))).
        lia. }
  apply (H (List.length s)). lia.
Qed.

Lemma remove_length (p : N -> bool) (s : list N) :
  (List.length (remove p s) <= List.length s)%nat.
Proof. unfold remove. apply List.filter_length_le. Qed.

Lemma sanitizeFileName_clean (name : list N) :
  isCleanName (sanitizeFileName name).
Proof.
  destruct (sanitizeFileName_strips_and_is_not_empty name)
    as (H1 & H2 & H3 & _).
  repeat split; try assumption.
  unfold sanitizeFileName.
  destruct (JS.trim (limitLength _)) eqn:E.
  - vm_compute. discriminate.
  - rewrite E. discriminate.
Qed.

(** X5.  For every name the result of [sanitizeFileName] contains no
    slash or backslash, none of the seven special characters and no
    control character, and it is not blank. *)
Theorem sanitizeFileName_result_is_clean_and_not_blank (name : list N) :
  Forall (fun c => isPathSeparator c = false) (sanitizeFileName name)
  /\ Forall (fun c => isSpecial c = false) (sanitizeFileName name)
  /\ Forall (fun c => isControl c = false) (sanitizeFileName name)
  /\ JS.trim (sanitizeFileName name) <> [].
Proof.
  destruct (sanitizeFileName_clean name) as (A & B & C & D).
  split; [exact A|]. split; [exact B|]. split; [exact C|exact D].
Qed.

(** X6.  A name of at most 255 code units is never made longer than 255
    units by [sanitizeFileName]. *)
Theorem sanitizeFileName_keeps_short_names_short (name : list N)
    (Hshort : (List.length name <= 255)%nat) :
  (List.length (sanitizeFileName name) <= 255)%nat.
Proof.
  unfold sanitizeFileName.
  set (cleaned := remove isControl
                    (remove isSpecial
                       (remove isPathSeparator (removeDotDot name)))).
  assert (Hc : (List.length cleaned <= 255)%nat).
  { subst cleaned.
    pose proof (removeDotDot_length name).
    pose proof (remove_length isPathSeparator (removeDotDot name)).
    pose proof (remove_length isSpecial
                  (remove isPathSeparator (removeDotDot name))).
    pose proof (remove_length isControl
                  (remove isSpecial
                     (remove isPathSeparator (removeDotDot name)))).
    lia. }
  assert (Hl : limitLength cleaned = cleaned).
  { unfold limitLength.
    destruct (Nat.ltb_spec 255 (List.length cleaned)); [lia|reflexivity]. }
  rewrite Hl. destruct (JS.trim cleaned); [cbn; lia|exact Hc].
Qed.

Lemma sanitizeFileName_keeps_short_names_short_witness :
  (List.length (sanitizeFileName (JS.units "../../etc/passwd")) <= 255)%nat.
Proof.
  apply sanitizeFileName_keeps_short_names_short. cbn. lia.
Defined.

(** ** Rate limiting, continued *)

Lemma recordAttempts_counts (key : string) (m w b : Z) (times : list Z)
    (store : gmap string RateLimitEntry) (entry : RateLimitEntry) :
  store !! key = Some entry ->
  Forall (fun t => (t - firstAttempt entry <= w)%Z) times ->
  (blocked entry = true -> (m <= attempts entry)%Z) ->
  exists entry',
    recordAttempts key m w b times store !! key = Some entry'
    /\ attempts entry' = (attempts entry + Z.of_nat (List.length times))%Z
    /\ firstAttempt entry' = firstAttempt entry
    /\ (blocked entry' = true -> (m <= attempts entry')%Z).
Proof.
  intros Hk Hall. revert store entry Hk Hall.
  induction times as [|t times IH]; intros store entry Hk Hall Hb.
  - exists entry. cbn. rewrite Z.add_0_r. auto.
  - apply Forall_cons in Hall. destruct Hall as [Ht Hall].
    cbn [recordAttempts List.fold_left].
    rewrite (recordAttempt_next _ _ _ _ _ _ _ Hk Ht).
    match goal with
    | |- context [<[key := ?e]> store] =>
        destruct (IH (<[key := e]> store) e) as (e' & A & B & C & D)
    end.
    + apply lookup_insert_eq.
    + destruct (m <=? attempts entry + 1)%Z; exact Hall.
    + destruct (Z.leb_spec m (attempts entry + 1)); cbn; [lia|].
      intros Hbl. specialize (Hb Hbl). lia.
    + exists e'. split; [exact A|].
      destruct (m <=? attempts entry + 1)%Z; cbn in *;
        repeat split; try assumption; try lia.
Qed.

(** X7.  Within one window attempts are counted exactly: after a first
    attempt by a key unknown to the store and any number of further
    attempts, each at most [windowMs] after the first, the key is rate
    limited at a time inside that window exactly when it has made at
    least [maxAttempts] attempts. *)
Theorem key_is_limited_exactly_from_the_limit_on
    (key : string) (m w b t1 now : Z) (times : list Z)
    (store : gmap string RateLimitEntry)
    (Hnew : store !! key = None)
    (Hwindow : Forall (fun t => (t - t1 <= w)%Z) times)
    (Hnow : (now - t1 <= w)%Z) :
  let store' := recordAttempts key m w b (t1 :: times) store in
  fst (isRateLimited now key m w store')
  = (m <=? 1 + Z.of_nat (List.length times))%Z.
Proof.
  cbv zeta. cbn [recordAttempts List.fold_left].
  rewrite recordAttempt_first by exact Hnew.
  destruct (recordAttempts_counts key m w b times
              (<[key := mkRateLimitEntry 1 t1 t1 false None]> store)
              (mkRateLimitEntry 1 t1 t1 false None))
    as (e & A & B & C & D).
  - apply lookup_insert_eq.
  - exact Hwindow.
  - discriminate.
  - fold (recordAttempts key m w b times
            (<[key := mkRateLimitEntry 1 t1 t1 false None]> store)).
    unfold isRateLimited. rewrite A. cbn [attempts firstAttempt] in B, C.
    unfold blockActive.
    destruct (blocked e) eqn:Eb.
    + specialize (D eq_refl). cbn [andb].
      destruct (blockedUntil e) as [u|].
      * destruct (negb (u =? 0)%Z && (now <? u)%Z); cbn [fst].
        -- symmetry. apply Z.leb_le. lia.
        -- rewrite C. destruct (Z.ltb_spec w (now - t1)); [lia|].
           cbn [fst]. rewrite B. reflexivity.
      * rewrite C. destruct (Z.ltb_spec w (now - t1)); [lia|].
        cbn [fst]. rewrite B. reflexivity.
    + cbn [andb]. rewrite C. destruct (Z.ltb_spec w (now - t1)); [lia|].
      cbn [fst]. rewrite B. reflexivity.
Qed.

Lemma key_is_limited_exactly_from_the_limit_on_witness :
  fst (isRateLimited 4000 "client-1" 3 300000
         (recordAttempts "client-1" 3 300000 300000 [1000; 2000; 3000]%Z ∅))
  = true
  /\ fst (isRateLimited 4000 "client-1" 3 300000
            (recordAttempts "client-1" 3 300000 300000 [1000; 2000]%Z ∅))
     = false.
Proof.
  split.
  - exact (key_is_limited_exactly_from_the_limit_on "client-1" 3 300000 300000
             1000 4000 [2000; 3000]%Z ∅ eq_refl
             ltac:(repeat constructor; lia) ltac:(lia)).
  - reflexivity.
Defined.

(** X8.  The attempt that reaches the limit blocks the key for
    [blockDurationMs]: until then the key is rate limited, also at times
    at which the window of the first attempt has long passed. *)
Theorem reaching_the_limit_blocks_beyond_the_window
    (key : string) (m w b now later : Z)
    (store : gmap string RateLimitEntry) (entry : RateLimitEntry)
    (Hentry : store !! key = Some entry)
    (Hwindow : (now - firstAttempt entry <= w)%Z)
    (Hlimit : (m <= attempts entry + 1)%Z)
    (Hclock : (0 < now + b)%Z)
    (Hlater : (later < now + b)%Z) :
  let store' := snd (recordAttempt now key m w b store) in
  isRateLimited later key m w store' = (true, store').
Proof.
  cbv zeta. rewrite (recordAttempt_next _ _ _ _ _ _ _ Hentry Hwindow).
  destruct (Z.leb_spec m (attempts entry + 1)); [|lia].
  unfold isRateLimited. rewrite lookup_insert_eq.
  unfold blockActive. cbn [blocked blockedUntil andb].
  destruct (Z.eqb_spec (now + b) 0); [lia|].
  destruct (Z.ltb_spec later (now + b)); [|lia]. reflexivity.
Qed.

Lemma reaching_the_limit_blocks_beyond_the_window_witness :
  fst (isRateLimited 500000 "client-1" 3 300000
         (snd (recordAttempt 290000 "client-1" 3 300000 300000
                 {[ "client-1" := mkRateLimitEntry 2 0 1000 false None ]})))
  = true.
Proof.
  refine (f_equal fst
            (reaching_the_limit_blocks_beyond_the_window "client-1" 3 300000
               300000 290000 500000
               {[ "client-1" := mkRateLimitEntry 2 0 1000 false None ]}
               (mkRateLimitEntry 2 0 1000 false None) eq_refl _ _ _ _));
    cbn; lia.
Defined.

(** X9.  Once the window of the first attempt has passed and no block
    is active, the attempts are forgotten: the key is not rate limited,
    the test deletes its entry, and the next attempt counts as the first
    of a new window. *)
Theorem expired_window_forgets_the_attempts
    (key : string) (m w b now : Z)
    (store : gmap string RateLimitEntry) (entry : RateLimitEntry)
    (Hentry : store !! key = Some entry)
    (Hexpired : (w < now - firstAttempt entry)%Z)
    (Hunblocked : blockActive now entry = false) :
  isRateLimited now key m w store = (false, delete key store)
  /\ fst (recordAttempt now key m w b store)
     = mkRateLimitEntry 1 now now false None
  /\ snd (recordAttempt now key m w b (delete key store))
     = snd (recordAttempt now key m w b store).
Proof.
  unfold isRateLimited, recordAttempt.
  rewrite Hentry, Hunblocked, lookup_delete_eq.
  destruct (Z.ltb_spec w (now - firstAttempt entry)); [|lia].
  repeat split. cbn [snd]. apply insert_delete_eq.
Qed.

Lemma expired_window_forgets_the_attempts_witness :
  isRateLimited 400000 "client-1" 3 300000
    {[ "client-1" := mkRateLimitEntry 2 0 1000 false None ]}
  = (false, delete "client-1"
              {[ "client-1" := mkRateLimitEntry 2 0 1000 false None ]}).
Proof.
  exact (proj1 (expired_window_forgets_the_attempts "client-1" 3 300000
                  300000 400000
                  {[ "client-1" := mkRateLimitEntry 2 0 1000 false None ]}
                  (mkRateLimitEntry 2 0 1000 false None)
                  eq_refl eq_refl eq_refl)).
Defined.

(** X10.  Approval wipes the slate: when the user approves a request,
    the entry of the peer is removed from the rate-limit store, and a
    later request of the same peer is put before the user again whatever
    the peer had accumulated before. *)
Theorem approval_clears_the_attempts_of_the_peer
    (h : Hook) (now later again : Z) (p dev dev' : string)
    (Hhost : mode h = host)
    (Hcallback : hasOnConnectionRequest h = true)
    (Hfree :
       fst (isRateLimited now p MAX_CONNECTION_ATTEMPTS
              CONNECTION_ATTEMPT_WINDOW_MS (rateLimitStore h)) = false) :
  let h1 := fst (WebRTC.handleMessage now (connection_request p dev) h) in
  let h2 := resumeApproval later p true h1 in
  rateLimitStore h1 !! p <> None
  /\ rateLimitStore h2 !! p = None
  /\ snd (WebRTC.handleMessage again (connection_request p dev') h2)
     = AwaitApproval p.
Proof.
  cbv zeta. cbn [WebRTC.handleMessage]. unfold isHost.
  rewrite Hhost, Hcallback. cbn [andb].
  destruct (isRateLimited now p _ _ (rateLimitStore h))
    as [limited store] eqn:E.
  cbn [fst] in Hfree. subst limited.
  destruct (recordAttempt now p _ _ _ _) as [entry store'] eqn:R.
  assert (Hs : store' = <[p := entry]> store).
  { unfold recordAttempt in R. cbn in R. injection R as <- <-. reflexivity. }
  cbn [fst rateLimitStore setRateLimitStore setInfo WebRTC.call].
  split; [rewrite Hs, lookup_insert_eq; discriminate|].
  set (h1 := WebRTC.call _ _).
  assert (F : mode (resumeApproval later p true h1) = host
              /\ hasOnConnectionRequest (resumeApproval later p true h1) = true
              /\ rateLimitStore (resumeApproval later p true h1)
                 = delete p store').
  { unfold resumeApproval, clearRateLimit, send, sendMessage.
    subst h1. cbn [rateLimitStore setRateLimitStore setInfo WebRTC.call
                   pinHashRef connectionRef].
    destruct (truthy (pinHashRef h)), (connectionRef h) as [[|]|];
      cbn; auto. }
  destruct F as (Fm & Fc & Fs).
  split; [rewrite Fs; apply lookup_delete_eq|].
  rewrite Fm, Fc. cbn [andb].
  unfold isRateLimited. rewrite Fs, lookup_delete_eq. reflexivity.
Qed.

Lemma approval_clears_the_attempts_of_the_peer_witness :
  rateLimitStore
    (resumeApproval 2000 "client-1" true
       (fst (WebRTC.handleMessage 1000 (connection_request "client-1" "agent")
               idleHost))) !! "client-1"
  = None.
Proof.
  exact (proj1 (proj2 (approval_clears_the_attempts_of_the_peer idleHost
                         1000 2000 3000 "client-1" "agent" "agent"
                         eq_refl eq_refl eq_refl))).
Defined.

(** ** Sessions *)

(** X11.  A session created at [now] is found under every spelling of
    its room code, and [isSessionValid] accepts it up to and including
    [now + ROOM_CODE_EXPIRY_MS]; asked later, it answers no and deletes
    the session. *)
Theorem session_is_valid_until_it_expires
    (now later : Z) (code spelled : string) (store : gmap string Session)
    (Hsame : normalizeRoomCode spelled = normalizeRoomCode code) :
  let created := createSession now code store in
  getSession spelled (snd created) = Some (fst created)
  /\ expiresAt (fst created) = (now + ROOM_CODE_EXPIRY_MS)%Z
  /\ isSessionValid later spelled (snd created)
     = if (now + ROOM_CODE_EXPIRY_MS <? later)%Z
       then (false, delete (normalizeRoomCode code) (snd created))
       else (true, snd created).
Proof.
  cbv zeta. unfold createSession, getSession, isSessionValid.
  cbn [fst snd sessionRoomCode expiresAt]. rewrite Hsame, lookup_insert_eq.
  cbn [expiresAt]. auto.
Qed.

Lemma session_is_valid_until_it_expires_witness :
  fst (isSessionValid 3600000 "abcd-efgh"
         (snd (createSession 0 "ABCDEFGH" ∅))) = true
  /\ fst (isSessionValid 3600001 "abcd-efgh"
            (snd (createSession 0 "ABCDEFGH" ∅))) = false.
Proof.
  split.
  - exact (f_equal fst
             (proj2 (proj2 (session_is_valid_until_it_expires 0 3600000
                              "ABCDEFGH" "abcd-efgh" ∅ eq_refl)))).
  - reflexivity.
Defined.

(** X12.  [setSessionPin] stores the hash in an existing session without
    touching its lifetime and returns true; for a code without a session,
    for instance after [destroySession], it returns false and leaves the
    store as it is. *)
Theorem setSessionPin_needs_a_session
    (now : Z) (code hashedPin : string) (store : gmap string Session) :
  let created := snd (createSession now code store) in
  let updated := setSessionPin code hashedPin created in
  fst updated = true
  /\ getSession code (snd updated)
     = Some (mkSession (normalizeRoomCode code) now
               (now + ROOM_CODE_EXPIRY_MS)%Z (Some hashedPin))
  /\ setSessionPin code hashedPin (destroySession code created)
     = (false, destroySession code created)
  /\ getSession code (destroySession code created) = None.
Proof.
  cbv zeta.
  unfold setSessionPin, createSession, getSession, destroySession.
  cbn [fst snd sessionRoomCode]. rewrite lookup_insert_eq.
  cbn [fst snd sessionRoomCode createdAt expiresAt].
  rewrite lookup_insert_eq, lookup_delete_eq. auto.
Qed.

Lemma cleanup_fold (now : Z) (store m : gmap string Session) :
  let r :=
    map_fold
      (fun code session acc =>
         if (expiresAt session <? now)%Z
         then (S (fst acc), delete code (snd acc))
         else acc)
      (O, store) m in
  fst r = base.size (filter (fun entry => (expiresAt (snd entry) < now)%Z) m)
  /\ forall code,
       snd r !! code
       = match filter (fun entry => (expiresAt (snd entry) < now)%Z) m
               !! code with
         | Some _ => None
         | None => store !! code
         end.
Proof.
  cbv zeta.
  apply (map_fold_weak_ind
           (fun r m =>
              fst r
              = base.size (filter (fun entry => (expiresAt (snd entry) < now)%Z) m)
              /\ forall code,
                   snd r !! code
                   = match filter
                             (fun entry => (expiresAt (snd entry) < now)%Z) m
                           !! code with
                     | Some _ => None
                     | None => store !! code
                     end)).
  - rewrite map_filter_empty. split; [reflexivity|].
    intros code. rewrite lookup_empty. reflexivity.
  - intros i x m0 r Hi [Hn Hl].
    destruct (Z.ltb_spec (expiresAt x) now) as [Hx|Hx].
    + rewrite map_filter_insert_True by exact Hx.
      cbn [fst snd]. split.
      * rewrite map_size_insert_None; [congruence|].
        apply map_lookup_filter_None. left. exact Hi.
      * intros code. destruct (decide (code = i)) as [->|Hne].
        -- rewrite lookup_delete_eq, lookup_insert_eq. reflexivity.
        -- rewrite lookup_delete_ne, lookup_insert_ne by congruence.
           apply Hl.
    + rewrite map_filter_insert_False by (cbn; lia).
      rewrite delete_id by exact Hi. split; assumption.
Qed.

(** X13.  [cleanupExpiredSessions] deletes exactly the sessions whose
    expiry lies before [now], keeps every other session as it is, and
    returns the number of sessions it deleted. *)
Theorem cleanupExpiredSessions_removes_exactly_the_expired
    (now : Z) (store : gmap string Session) :
  let r := cleanupExpiredSessions now store in
  snd r = filter (fun entry => ~ (expiresAt (snd entry) < now)%Z) store
  /\ fst r = base.size (filter (fun entry => (expiresAt (snd entry) < now)%Z) store)
  /\ (fst r + base.size (snd r))%nat = base.size store
  /\ map_Forall (fun _ session => (now <= expiresAt session)%Z) (snd r).
Proof.
  cbv zeta. unfold cleanupExpiredSessions.
  destruct (cleanup_fold now store store) as [Hn Hl].
  set (r := map_fold _ _ _) in *.
  assert (Hs : snd r
               = filter (fun entry => ~ (expiresAt (snd entry) < now)%Z)
                   store).
  { apply map_eq. intros code. rewrite Hl.
    destruct (store !! code) as [session|] eqn:Hc.
    - destruct (decide (expiresAt session < now)%Z) as [Hx|Hx].
      + rewrite (proj2 (map_lookup_filter_Some _ store code session))
          by (split; [exact Hc|exact Hx]).
        symmetry. apply map_lookup_filter_None. right.
        intros s Hs Hnot. rewrite Hc in Hs. injection Hs as <-.
        exact (Hnot Hx).
      + rewrite (proj2 (map_lookup_filter_None _ store code)).
        * symmetry. apply map_lookup_filter_Some. split; [exact Hc|exact Hx].
        * right. intros s Hs. rewrite Hc in Hs. injection Hs as <-. exact Hx.
    - rewrite (proj2 (map_lookup_filter_None _ store code)) by (left; exact Hc).
      symmetry. apply map_lookup_filter_None. left. exact Hc. }
  split; [exact Hs|]. split; [exact Hn|]. split.
  - rewrite Hn, Hs.
    rewrite <- map_size_disj_union
      by apply map_disjoint_filter_complement.
    rewrite map_filter_union_complement. reflexivity.
  - rewrite Hs. intros code session Hc.
    apply map_lookup_filter_Some in Hc. destruct Hc as [_ Hx].
    cbn in Hx. lia.
Qed.

(** ** File types and signatures *)

Lemma arrayIncludes_app (a b : list string) (s : string) :
  FileValidation.arrayIncludes (a ++ b) s
  = FileValidation.arrayIncludes a s || FileValidation.arrayIncludes b s.
Proof. unfold FileValidation.arrayIncludes. apply List.existsb_app. Qed.

(** [isAllowedMimeType] and [getFileCategory] agree: a MIME type is
    allowed exactly when it has a category other than unknown. *)
Lemma allowed_mime_types_are_those_with_a_category (mimeType : string) :
  FileValidation.isAllowedMimeType mimeType
  = match FileValidation.getFileCategory mimeType with
    | FileValidation.Unknown => false
    | _ => true
    end.
Proof.
  unfold FileValidation.isAllowedMimeType, FileValidation.getFileCategory.
  rewrite !arrayIncludes_app.
  destruct (FileValidation.arrayIncludes ALLOWED_FILE_TYPES.images mimeType);
    [reflexivity|].
  destruct (FileValidation.arrayIncludes ALLOWED_FILE_TYPES.videos mimeType);
    [reflexivity|].
  destruct (FileValidation.arrayIncludes ALLOWED_FILE_TYPES.documents mimeType);
    [reflexivity|].
  destruct (FileValidation.arrayIncludes ALLOWED_FILE_TYPES.audio mimeType);
    reflexivity.
Qed.

Lemma every_drop (sig : list byte) (index : nat) (bytes : list byte) :
  FileValidation.every sig index bytes = beginsWith sig (drop index bytes).
Proof.
  revert index. induction sig as [|byte sig IH]; intros index.
  - destruct (drop index bytes); reflexivity.
  - cbn [FileValidation.every]. rewrite IH.
    destruct (bytes !! index) as [b|] eqn:E.
    + rewrite (drop_S _ _ _ E). reflexivity.
    + rewrite (drop_ge bytes index) by (apply lookup_ge_None; exact E).
      reflexivity.
Qed.

Lemma beginsWith_take (sig content : list byte) (n : nat) :
  (List.length sig <= n)%nat ->
  beginsWith sig (take n content) = beginsWith sig content.
Proof.
  revert content n. induction sig as [|byte sig IH]; intros content n Hn.
  - destruct (take n content), content; reflexivity.
  - destruct n as [|n]; [cbn in Hn; lia|].
    destruct content as [|b content]; [reflexivity|].
    cbn [take beginsWith]. rewrite IH by (cbn in Hn; lia). reflexivity.
Qed.

Lemma slice_head {A} (l : list A) (n : nat) :
  JS.slice l 0 (Z.of_nat n) = take n l.
Proof.
  unfold JS.slice, JS.relIndex.
  destruct (Z.ltb_spec 0 0); [lia|].
  destruct (Z.ltb_spec (Z.of_nat n) 0); [lia|].
  replace (Z.min 0 (Z.of_nat (List.length l))) with 0%Z by lia.
  cbn [Z.to_nat skipn]. rewrite Z.sub_0_r.
  destruct (Nat.le_gt_cases n (List.length l)).
  - replace (Z.min (Z.of_nat n) (Z.of_nat (List.length l)))
      with (Z.of_nat n) by lia.
    rewrite Nat2Z.id. reflexivity.
  - replace (Z.min (Z.of_nat n) (Z.of_nat (List.length l)))
      with (Z.of_nat (List.length l)) by lia.
    rewrite Nat2Z.id, firstn_all, take_ge by lia. reflexivity.
Qed.

(** No signature in the table is longer than the twelve bytes read. *)
Lemma signatures_fit_the_head (fileType : string)
    (signatures : list (list byte)) :
  FileValidation.magicBytes fileType = FileValidation.Own signatures ->
  Forall (fun sig => (List.length sig <= 12)%nat) signatures.
Proof.
  unfold FileValidation.magicBytes.
  destruct (List.find _ FileValidation.MAGIC_BYTES) as [entry|] eqn:E.
  - intros [= <-]. apply List.find_some in E. destruct E as [Hin _].
    assert (Hall : Forall (fun entry : string * list (list byte) =>
                             Forall (fun sig => (List.length sig <= 12)%nat)
                               (snd entry))
                     FileValidation.MAGIC_BYTES).
    { unfold FileValidation.MAGIC_BYTES.
      repeat constructor; cbn [List.length]; lia. }
    rewrite Forall_forall in Hall. apply (Hall entry).
    apply list_elem_of_In. exact Hin.
  - destruct (FileValidation.arrayIncludes _ _); discriminate.
Qed.

(** X14.  For a declared type that has signatures, [verifyFileSignature]
    accepts the file exactly when its content begins with one of them:
    comparing position by position against the first twelve bytes loses
    nothing, and bytes after the signature do not matter. *)
Theorem signature_check_is_a_prefix_test
    (file : File) (signatures : list (list byte))
    (Hknown :
       FileValidation.magicBytes (fileType file)
       = FileValidation.Own signatures) :
  FileValidation.verifyFileSignature file
  = Some (List.existsb (fun sig => beginsWith sig (content file)) signatures).
Proof.
  unfold FileValidation.verifyFileSignature. rewrite Hknown. f_equal.
  pose proof (signatures_fit_the_head _ _ Hknown) as Hfit.
  clear Hknown. induction Hfit as [|sig signatures Hsig Hfit IH];
    [reflexivity|].
  cbn [List.existsb]. rewrite IH, every_drop, drop_0.
  change 12%Z with (Z.of_nat 12). rewrite slice_head.
  rewrite beginsWith_take by exact Hsig. reflexivity.
Qed.

Lemma signature_check_is_a_prefix_test_witness :
  FileValidation.verifyFileSignature
    (mkFile (JS.units "a.pdf") "application/pdf" 0
       [x25; x50; x44; x46; x2d; x31])
  = Some true
  /\ FileValidation.verifyFileSignature
       (mkFile (JS.units "a.pdf") "application/pdf" 0 [x25; x50])
     = Some false.
Proof.
  split.
  - exact (signature_check_is_a_prefix_test
             (mkFile (JS.units "a.pdf") "application/pdf" 0
                [x25; x50; x44; x46; x2d; x31])
             [[x25; x50; x44; x46]] eq_refl).
  - reflexivity.
Defined.

(** ** Truncation for display *)

Lemma slice_prefix_Z {A} (l : list A) (n : Z) :
  (0 <= n)%Z -> JS.slice l 0 n = take (Z.to_nat n) l.
Proof.
  intros Hn. rewrite <- (Z2Nat.id n) at 1 by exact Hn. apply slice_head.
Qed.

Lemma truncate_length (str : list N) (maxLength : Z) :
  (3 <= maxLength)%Z ->
  Z.of_nat (List.length (Formatters.truncate str maxLength))
  = Z.min (Z.of_nat (List.length str)) maxLength.
Proof.
  intros Hlimit. unfold Formatters.truncate.
  destruct (Z.leb_spec (Z.of_nat (List.length str)) maxLength) as [Hle|Hgt];
    [lia|].
  rewrite slice_prefix_Z by lia.
  rewrite length_app, length_take.
  change (List.length (JS.units "...")) with 3%nat. lia.
Qed.

(** X15.  With a limit of at least three, [truncate] returns a string of
    at most [maxLength] units: the string itself when it fits, otherwise
    its first [maxLength - 3] units followed by three dots, which is
    exactly [maxLength] units long. *)
Theorem truncate_respects_a_limit_of_three_or_more
    (str : list N) (maxLength : Z) (Hlimit : (3 <= maxLength)%Z) :
  Formatters.truncate str maxLength
  = (if (Z.of_nat (List.length str) <=? maxLength)%Z then str
     else take (Z.to_nat (maxLength - 3)) str ++ JS.units "...")
  /\ Z.of_nat (List.length (Formatters.truncate str maxLength))
     = Z.min (Z.of_nat (List.length str)) maxLength.
Proof.
  split; [|apply truncate_length; exact Hlimit].
  unfold Formatters.truncate.
  destruct (Z.leb_spec (Z.of_nat (List.length str)) maxLength) as [Hle|Hgt];
    [reflexivity|].
  rewrite slice_prefix_Z by lia. reflexivity.
Qed.

Lemma truncate_respects_a_limit_of_three_or_more_witness :
  Formatters.truncate (JS.units "abcdefghij") 8 = JS.units "abcde...".
Proof.
  exact (proj1 (truncate_respects_a_limit_of_three_or_more
                  (JS.units "abcdefghij") 8 ltac:(lia))).
Defined.

(** X16.  With a limit below three the subtraction gives a negative end
    index, which [slice] counts from the end: a string that is too long
    comes back longer than it was, by [maxLength] units. *)
Theorem truncate_lengthens_below_a_limit_of_three
    (str : list N) (maxLength : Z)
    (Hlow : (0 <= maxLength < 3)%Z)
    (Hlong : (3 <= Z.of_nat (List.length str))%Z) :
  Z.of_nat (List.length (Formatters.truncate str maxLength))
  = (Z.of_nat (List.length str) + maxLength)%Z.
Proof.
  unfold Formatters.truncate.
  destruct (Z.leb_spec (Z.of_nat (List.length str)) maxLength); [lia|].
  unfold JS.slice, JS.relIndex.
  destruct (Z.ltb_spec 0 0); [lia|].
  destruct (Z.ltb_spec (maxLength - 3) 0); [|lia].
  replace (Z.min 0 (Z.of_nat (List.length str))) with 0%Z by lia.
  change (Z.to_nat 0) with 0%nat. rewrite drop_0.
  rewrite length_app, length_firstn.
  change (List.length (JS.units "...")) with 3%nat. lia.
Qed.

Lemma truncate_lengthens_below_a_limit_of_three_witness :
  Z.of_nat (List.length (Formatters.truncate (JS.units "abcdef") 2)) = 8%Z.
Proof.
  refine (truncate_lengthens_below_a_limit_of_three (JS.units "abcdef") 2 _ _);
    cbn; lia.
Defined.

(** *** The position of the last dot *)

Lemma lastIndexOf_from_app (c : N) (a b : list N) (i found : Z) :
  JS.lastIndexOf_from c (a ++ b) i found
  = JS.lastIndexOf_from c b (i + Z.of_nat (List.length a))
      (JS.lastIndexOf_from c a i found).
Proof.
  revert i found. induction a as [|x a IH]; intros i found.
  - cbn. rewrite Z.add_0_r. reflexivity.
  - cbn [List.app JS.lastIndexOf_from List.length]. rewrite IH.
    f_equal. lia.
Qed.

Lemma lastIndexOf_from_absent (c : N) (s : list N) (i found : Z) :
  Forall (fun x => x <> c) s -> JS.lastIndexOf_from c s i found = found.
Proof.
  intros H. revert i found. induction H as [|x s Hx Hs IH]; intros i found.
  - reflexivity.
  - cbn [JS.lastIndexOf_from].
    destruct (N.eqb_spec x c); [contradiction|]. apply IH.
Qed.

Lemma lastIndexOf_from_range (c : N) (s : list N) (i found : Z) :
  JS.lastIndexOf_from c s i found = found
  \/ (i <= JS.lastIndexOf_from c s i found < i + Z.of_nat (List.length s))%Z.
Proof.
  revert i found. induction s as [|x s IH]; intros i found.
  - left. reflexivity.
  - cbn [JS.lastIndexOf_from List.length].
    destruct (IH (i + 1)%Z (if (x =? c)%N then i else found)) as [E|R].
    + rewrite E. destruct (x =? c)%N; [right; lia|left; reflexivity].
    + right. lia.
Qed.

Lemma lastIndexOf_range (c : N) (s : list N) :
  JS.lastIndexOf c s = (-1)%Z
  \/ (0 <= JS.lastIndexOf c s < Z.of_nat (List.length s))%Z.
Proof.
  unfold JS.lastIndexOf.
  destruct (lastIndexOf_from_range c s 0 (-1)) as [E|R]; [left|right];
    [exact E|lia].
Qed.

Lemma sliceFrom_drop {A} (l : list A) (k : nat) :
  (k <= List.length l)%nat -> JS.sliceFrom l (Z.of_nat k) = drop k l.
Proof.
  intros Hk. unfold JS.sliceFrom, JS.slice, JS.relIndex.
  destruct (Z.ltb_spec (Z.of_nat k) 0); [lia|].
  destruct (Z.ltb_spec (Z.of_nat (List.length l)) 0); [lia|].
  replace (Z.min (Z.of_nat k) (Z.of_nat (List.length l)))
    with (Z.of_nat k) by lia.
  replace (Z.min (Z.of_nat (List.length l)) (Z.of_nat (List.length l)))
    with (Z.of_nat (List.length l)) by lia.
  rewrite Nat2Z.id. apply firstn_all2. rewrite length_skipn. lia.
Qed.

Lemma truncateFilename_with_room (filename : list N) (maxLength : Z) :
  (maxLength < Z.of_nat (List.length filename))%Z ->
  JS.lastIndexOf DOT filename <> (-1)%Z ->
  (5 <= maxLength
        - (Z.of_nat (List.length filename) - JS.lastIndexOf DOT filename)
        - 3)%Z ->
  let lastDot := Z.to_nat (JS.lastIndexOf DOT filename) in
  let kept :=
    Z.to_nat (maxLength - Z.of_nat (List.length filename - lastDot) - 3) in
  Formatters.truncateFilename filename maxLength
  = take kept filename ++ JS.units "..." ++ drop lastDot filename
  /\ (kept <= lastDot)%nat /\ (lastDot < List.length filename)%nat.
Proof.
  intros Hlong Hdot Hroom. cbv zeta. unfold Formatters.truncateFilename.
  destruct (Z.leb_spec (Z.of_nat (List.length filename)) maxLength); [lia|].
  destruct (lastIndexOf_range DOT filename) as [E|R]; [contradiction|].
  destruct (Z.eqb_spec (JS.lastIndexOf DOT filename) (-1)); [contradiction|].
  assert (Hd : JS.lastIndexOf DOT filename
               = Z.of_nat (Z.to_nat (JS.lastIndexOf DOT filename))) by lia.
  set (k := Z.to_nat (JS.lastIndexOf DOT filename)) in *.
  rewrite Hd in *. clear Hd.
  rewrite sliceFrom_drop by lia. rewrite slice_head.
  rewrite length_drop.
  destruct (Z.ltb_spec
              (maxLength - Z.of_nat (List.length filename - k) - 3) 5);
    [lia|].
  rewrite slice_prefix_Z by lia.
  rewrite take_take.
  replace (Z.to_nat (maxLength - Z.of_nat (List.length filename - k) - 3)
           `min` k)%nat
    with (Z.to_nat (maxLength - Z.of_nat (List.length filename - k) - 3))
    by lia.
  split; [reflexivity|lia].
Qed.

(** X17.  When a file name is too long, has a dot, and the limit leaves
    at least five units for the name before the three dots and the
    extension, [truncateFilename] keeps the whole extension (the part
    from the last dot on) and as much of the beginning as makes the
    result exactly [maxLength] units long. *)
Theorem truncateFilename_keeps_the_extension
    (filename : list N) (maxLength : Z)
    (Hlong : (maxLength < Z.of_nat (List.length filename))%Z)
    (Hdot : JS.lastIndexOf DOT filename <> (-1)%Z)
    (Hroom :
       (5 <= maxLength
             - (Z.of_nat (List.length filename)
                - JS.lastIndexOf DOT filename) - 3)%Z) :
  let lastDot := Z.to_nat (JS.lastIndexOf DOT filename) in
  let kept :=
    Z.to_nat (maxLength - Z.of_nat (List.length filename - lastDot) - 3) in
  Formatters.truncateFilename filename maxLength
  = take kept filename ++ JS.units "..." ++ drop lastDot filename
  /\ Z.of_nat (List.length (Formatters.truncateFilename filename maxLength))
     = maxLength.
Proof.
  cbv zeta.
  destruct (truncateFilename_with_room filename maxLength Hlong Hdot Hroom)
    as (E & Hk & Hd).
  split; [exact E|]. rewrite E.
  rewrite !length_app, length_take, length_drop.
  change (List.length (JS.units "...")) with 3%nat. lia.
Qed.

Lemma truncateFilename_keeps_the_extension_witness :
  Formatters.truncateFilename (JS.units "holiday-pictures-2024.tar") 16
  = JS.units "holiday-p....tar".
Proof.
  refine (proj1 (truncateFilename_keeps_the_extension
                   (JS.units "holiday-pictures-2024.tar") 16 _ _ _));
    vm_compute; try discriminate; reflexivity.
Defined.

(** X18.  With a limit of at least three, [truncateFilename] never
    returns more than [maxLength] units, and returns a name that fits
    unchanged. *)
Theorem truncateFilename_respects_a_limit_of_three_or_more
    (filename : list N) (maxLength : Z) (Hlimit : (3 <= maxLength)%Z) :
  Z.of_nat (List.length (Formatters.truncateFilename filename maxLength))
  = Z.min (Z.of_nat (List.length filename)) maxLength
  /\ ((Z.of_nat (List.length filename) <= maxLength)%Z ->
      Formatters.truncateFilename filename maxLength = filename).
Proof.
  split.
  2:{ intros Hfits. unfold Formatters.truncateFilename.
      destruct (Z.leb_spec (Z.of_nat (List.length filename)) maxLength);
        [reflexivity|lia]. }
  destruct (Z.leb_spec (Z.of_nat (List.length filename)) maxLength)
    as [Hfits|Hlong].
  - unfold Formatters.truncateFilename.
    destruct (Z.leb_spec (Z.of_nat (List.length filename)) maxLength); lia.
  - destruct (Z.eq_dec (JS.lastIndexOf DOT filename) (-1)%Z) as [Hnone|Hdot].
    + unfold Formatters.truncateFilename.
      destruct (Z.leb_spec (Z.of_nat (List.length filename)) maxLength);
        [lia|].
      rewrite Hnone. change (-1 =? -1)%Z with true. cbv iota.
      apply truncate_length, Hlimit.
    + destruct (Z.le_gt_cases 5%Z
                  (maxLength
                   - (Z.of_nat (List.length filename)
                      - JS.lastIndexOf DOT filename) - 3)) as [Hroom|Htight].
      * destruct (truncateFilename_with_room filename maxLength
                    Hlong Hdot Hroom) as (E & Hk & Hd).
        rewrite E, !length_app, length_take, length_drop.
        change (List.length (JS.units "...")) with 3%nat. lia.
      * unfold Formatters.truncateFilename.
        destruct (Z.leb_spec (Z.of_nat (List.length filename)) maxLength);
          [lia|].
        destruct (Z.eqb_spec (JS.lastIndexOf DOT filename) (-1));
          [contradiction|].
        destruct (lastIndexOf_range DOT filename) as [E|R]; [contradiction|].
        assert (Hd : JS.lastIndexOf DOT filename
                     = Z.of_nat (Z.to_nat (JS.lastIndexOf DOT filename)))
          by lia.
        set (k := Z.to_nat (JS.lastIndexOf DOT filename)) in *.
        rewrite Hd in *. clear Hd.
        rewrite sliceFrom_drop by lia. rewrite length_drop.
        destruct (Z.ltb_spec
                    (maxLength - Z.of_nat (List.length filename - k) - 3) 5);
          [|lia].
        apply truncate_length, Hlimit.
Qed.

Lemma truncateFilename_respects_a_limit_of_three_or_more_witness :
  Z.of_nat
    (List.length (Formatters.truncateFilename (JS.units "a-name-without-dot") 10))
  = 10%Z
  /\ Formatters.truncateFilename (JS.units "notes.txt") 10
     = JS.units "notes.txt".
Proof.
  split.
  - exact (proj1 (truncateFilename_respects_a_limit_of_three_or_more
                    (JS.units "a-name-without-dot") 10 ltac:(lia))).
  - apply (proj2 (truncateFilename_respects_a_limit_of_three_or_more
                    (JS.units "notes.txt") 10 ltac:(lia))).
    vm_compute. discriminate.
Defined.

(** ** Validation before sending *)

Lemma validFilesOf_app (toLowerCase : list N -> list N)
    (generateFileId : nat -> string) (i : nat) (a b : list File) :
  validFilesOf toLowerCase generateFileId i (a ++ b)
  = validFilesOf toLowerCase generateFileId i a
    ++ validFilesOf toLowerCase generateFileId (i + List.length a) b.
Proof.
  revert i. induction a as [|f a IH]; intros i.
  - cbn. rewrite Nat.add_0_r. reflexivity.
  - cbn [List.app validFilesOf List.length]. rewrite IH.
    replace (S i + List.length a)%nat with (i + S (List.length a))%nat by lia.
    destruct (FileTransfer.validateFile toLowerCase f); reflexivity.
Qed.

Lemma validateFile_returns (toLowerCase : list N -> list N) (file : File) :
  hasPlainType file ->
  exists result,
    FileValidation.validateFile toLowerCase file = Some result
    /\ FileValidation.isValid result = passesValidation toLowerCase file
    /\ FileValidation.errors result
       = FileTransfer.validateFile toLowerCase file.
Proof.
  unfold hasPlainType, FileValidation.validateFile, passesValidation.
  unfold FileValidation.verifyFileSignature, FileValidation.magicBytes.
  intros Hplain. rewrite Hplain.
  destruct (List.find _ FileValidation.MAGIC_BYTES) as [entry|];
    destruct (String.eqb (fileType file) ""); cbn [negb andb];
    try destruct (List.existsb _ (snd entry));
    eexists; (split; [reflexivity|split; reflexivity]).
Qed.

(** X19.  A file whose name ends in a blocked extension, in whatever
    letter case it is written, fails validation with the security error,
    and the sender leaves it out of the batch: the valid files are those
    of the files before it and after it.  (For files for which
    [validateFile] returns, that is, whose declared type is not the name
    of a property every object inherits.) *)
Theorem blocked_extension_is_rejected_in_any_letter_case
    (toLowerCase : list N -> list N) (generateFileId : nat -> string)
    (file : File) (base ext : list N) (blocked : string)
    (i : nat) (before after : list File)
    (Htypes : Forall hasPlainType (before ++ file :: after))
    (Hname : fileName file = base ++ DOT :: ext)
    (Hext : Forall (fun c => c <> DOT) ext)
    (Hblocked : List.In blocked BLOCKED_EXTENSIONS)
    (Hlower : toLowerCase (DOT :: ext) = JS.units blocked) :
  (exists result,
     FileValidation.validateFile toLowerCase file = Some result
     /\ FileValidation.isValid result = false
     /\ List.In "This file type is not allowed for security reasons"
          (FileValidation.errors result))
  /\ validFilesOf toLowerCase generateFileId i (before ++ file :: after)
     = validFilesOf toLowerCase generateFileId i before
       ++ validFilesOf toLowerCase generateFileId (S (i + List.length before))
            after.
Proof.
  assert (Hb : isBlockedExtension toLowerCase (fileName file) = true).
  { unfold isBlockedExtension, getFileExtension. rewrite Hname.
    unfold JS.lastIndexOf. rewrite lastIndexOf_from_app.
    cbn [JS.lastIndexOf_from]. rewrite N.eqb_refl.
    rewrite lastIndexOf_from_absent by exact Hext.
    rewrite Z.add_0_l.
    destruct (Z.eqb_spec (Z.of_nat (List.length base)) (-1)); [lia|].
    rewrite sliceFrom_drop by (rewrite length_app; lia).
    rewrite drop_app_length, Hlower.
    apply List.existsb_exists. exists blocked. split; [exact Hblocked|].
    apply bool_decide_eq_true. reflexivity. }
  assert (Hin : List.In "This file type is not allowed for security reasons"
                  (FileTransfer.validateFile toLowerCase file)).
  { unfold FileTransfer.validateFile. rewrite Hb.
    apply List.in_or_app. right. apply List.in_or_app. right.
    left. reflexivity. }
  assert (Hplain : hasPlainType file).
  { apply Forall_app in Htypes. destruct Htypes as [_ Htypes].
    apply Forall_cons in Htypes. exact (proj1 Htypes). }
  split.
  - destruct (validateFile_returns toLowerCase file Hplain)
      as (result & E & Hvalid & Herrors).
    exists result. split; [exact E|]. rewrite Hvalid, Herrors.
    split; [|exact Hin]. unfold passesValidation.
    destruct (FileTransfer.validateFile toLowerCase file);
      [destruct Hin|reflexivity].
  - rewrite validFilesOf_app. f_equal. cbn [validFilesOf].
    destruct (FileTransfer.validateFile toLowerCase file) as [|err errs];
      [destruct Hin|].
    reflexivity.
Qed.

Lemma blocked_extension_is_rejected_in_any_letter_case_witness :
  validFilesOf asciiLower twoFileIds 0
    [mkFile (JS.units "Setup.EXE") "application/octet-stream" 0 [x4d; x5a]]
  = [].
Proof.
  refine (proj2 (blocked_extension_is_rejected_in_any_letter_case
                   asciiLower twoFileIds
                   (mkFile (JS.units "Setup.EXE") "application/octet-stream"
                      0 [x4d; x5a])
                   (JS.units "Setup") (JS.units "EXE") ".exe" 0 [] []
                   _ eq_refl _ _ eq_refl)).
  - repeat constructor.
  - repeat constructor; discriminate.
  - left. reflexivity.
Defined.

Lemma validateBatch_fold (toLowerCase : list N -> list N)
    (files : list File) (batch : FileValidation.BatchValidation) :
  Forall hasPlainType files ->
  List.fold_left (FileValidation.validateBatchStep toLowerCase) files
    (Some batch)
  = Some (FileValidation.mkBatchValidation
            (FileValidation.validFiles batch
             ++ List.filter (passesValidation toLowerCase) files)
            (FileValidation.invalidFiles batch
             ++ invalidEntries toLowerCase files)
            (FileValidation.totalSize batch
             + sizeOfFiles (List.filter (passesValidation toLowerCase) files))
            (FileValidation.isWithinSessionLimit batch)).
Proof.
  intros Hall. revert batch.
  induction Hall as [|file files Hfile Hfiles IH]; intros batch.
  - cbn. rewrite !app_nil_r, Z.add_0_r. destruct batch; reflexivity.
  - destruct (validateFile_returns toLowerCase file Hfile)
      as (result & E & Hv & _).
    cbn [List.fold_left FileValidation.validateBatchStep]. rewrite E, Hv.
    unfold invalidEntries. cbn [List.filter omap list_omap].
    rewrite E, Hv.
    destruct (passesValidation toLowerCase file); rewrite IH;
      cbn [FileValidation.validFiles FileValidation.invalidFiles
           FileValidation.totalSize FileValidation.isWithinSessionLimit
           sizeOfFiles List.fold_right];
      fold (sizeOfFiles (List.filter (passesValidation toLowerCase) files));
      rewrite <- ?app_assoc; cbn [List.app]; f_equal; f_equal;
      try reflexivity; try lia.
Qed.

Lemma validFilesOf_filter (toLowerCase : list N -> list N)
    (generateFileId : nat -> string) (i : nat) (files : list File) :
  List.map fst (validFilesOf toLowerCase generateFileId i files)
  = List.filter (passesValidation toLowerCase) files
  /\ totalSizeOf (validFilesOf toLowerCase generateFileId i files)
     = sizeOfFiles (List.filter (passesValidation toLowerCase) files).
Proof.
  revert i. induction files as [|file files IH]; intros i; [auto|].
  destruct (IH (S i)) as [A B].
  assert (Hp : passesValidation toLowerCase file
               = match FileTransfer.validateFile toLowerCase file with
                 | [] => true
                 | _ :: _ => false
                 end) by reflexivity.
  cbn [validFilesOf List.filter]. rewrite Hp.
  destruct (FileTransfer.validateFile toLowerCase file).
  - cbn [List.map fst totalSizeOf sizeOfFiles List.fold_right].
    fold (totalSizeOf (validFilesOf toLowerCase generateFileId (S i) files)).
    fold (sizeOfFiles (List.filter (passesValidation toLowerCase) files)).
    rewrite A, B. split; reflexivity.
  - split; assumption.
Qed.

(** X20.  [validateBatch] sorts the files, in their order, into those
    without an error and those with one (each paired with its own
    validation result), adds up the sizes of the former and compares the
    sum with the session limit.  The files it finds valid and their total
    size are exactly the ones the sender computes for itself in
    [sendFiles]. *)
Theorem validateBatch_agrees_with_the_sender
    (toLowerCase : list N -> list N) (generateFileId : nat -> string)
    (files : list File)
    (Htypes : Forall hasPlainType files) :
  let sent := validFilesOf toLowerCase generateFileId 0 files in
  exists batch,
    FileValidation.validateBatch toLowerCase files = Some batch
    /\ FileValidation.validFiles batch
       = List.filter (passesValidation toLowerCase) files
    /\ FileValidation.invalidFiles batch = invalidEntries toLowerCase files
    /\ List.map fst (FileValidation.invalidFiles batch)
       = List.filter (fun f => negb (passesValidation toLowerCase f)) files
    /\ FileValidation.validFiles batch = List.map fst sent
    /\ FileValidation.totalSize batch = totalSizeOf sent
    /\ FileValidation.isWithinSessionLimit batch
       = negb (MAX_SESSION_SIZE <? totalSizeOf sent)%Z.
Proof.
  cbv zeta. unfold FileValidation.validateBatch.
  rewrite validateBatch_fold by exact Htypes.
  destruct (validFilesOf_filter toLowerCase generateFileId 0 files) as [A B].
  eexists. split; [reflexivity|].
  cbn [FileValidation.validFiles FileValidation.invalidFiles
       FileValidation.totalSize FileValidation.isWithinSessionLimit List.app].
  rewrite A, B, Z.add_0_l. repeat split.
  - clear A B. induction Htypes as [|file files Hfile Hfiles IH];
      [reflexivity|].
    destruct (validateFile_returns toLowerCase file Hfile)
      as (result & E & Hv & _).
    unfold invalidEntries in *. cbn [omap list_omap List.filter].
    rewrite E, Hv.
    destruct (passesValidation toLowerCase file); cbn [negb List.map fst];
      rewrite IH; reflexivity.
  - rewrite Z.leb_antisym. reflexivity.
Qed.

Lemma validateBatch_agrees_with_the_sender_witness :
  FileValidation.validFiles
    <$> FileValidation.validateBatch asciiLower [notesFile; emptyFile; memo]
  = Some [notesFile; memo].
Proof.
  destruct (validateBatch_agrees_with_the_sender asciiLower twoFileIds
              [notesFile; emptyFile; memo]
              ltac:(repeat constructor))
    as (batch & E & V & _).
  rewrite E. cbn [fmap option_fmap option_map]. rewrite V. reflexivity.
Defined.

(** ** Sending: what stops a transfer *)

Lemma validation_outcome (toLowerCase : list N -> list N)
    (generateFileId : nat -> string) (files : list File) (i : nat)
    (acc : list (File * FileMetadata)) (total : Z) (e : Engine) :
  List.fold_left (validateStep toLowerCase generateFileId) files
    (i, acc, total, e)
  = ((i + List.length files)%nat,
     acc ++ validFilesOf toLowerCase generateFileId i files,
     (total + totalSizeOf (validFilesOf toLowerCase generateFileId i files))%Z,
     reported (validationErrors toLowerCase files) e).
Proof.
  revert i acc total e.
  induction files as [|file files IH]; intros i acc total e.
  - cbn. unfold reported. rewrite !app_nil_r, Nat.add_0_r, Z.add_0_r.
    destruct e; reflexivity.
  - cbn [List.fold_left validFilesOf validationErrors List.flat_map].
    unfold validateStep at 2.
    destruct (FileTransfer.validateFile toLowerCase file) as [|err errs].
    + rewrite IH. cbn [totalSizeOf List.fold_right List.length fst List.app].
      fold (totalSizeOf (validFilesOf toLowerCase generateFileId (S i) files)).
      fold (validationErrors toLowerCase files).
      rewrite <- app_assoc. cbn [List.app].
      replace (S i + List.length files)%nat
        with (i + S (List.length files))%nat by lia.
      rewrite Z.add_assoc. reflexivity.
    + rewrite IH. fold (validationErrors toLowerCase files).
      replace (S i + List.length files)%nat
        with (i + S (List.length files))%nat by lia.
      unfold reported, FileTransfer.call.
      cbn [fileProgress batchProgress isSending isReceiving
           receivedChunksRef fileMetadataRef outbox FileTransfer.calls
           List.length].
      rewrite <- app_assoc. reflexivity.
Qed.

(** X21.  A batch in which no file passes validation, or whose valid
    files exceed the session limit, puts nothing on the wire and leaves
    the progress records alone: the engine ends as it began, not sending,
    with one error report for each invalid file followed by the report
    that nothing is sent.  (For files for which [validateFile]
    returns.) *)
Theorem refused_batch_sends_nothing
    (toLowerCase : list N -> list N) (generateFileId : nat -> string)
    (batchId : string) (sendMessage : PeerMessage -> bool)
    (cancelled : CheckPoint -> bool) (files : list File) (e : Engine)
    (Htypes : Forall hasPlainType files)
    (Hfiles : files <> [])
    (Hrefused :
       validFilesOf toLowerCase generateFileId 0 files = []
       \/ (MAX_SESSION_SIZE
           < totalSizeOf (validFilesOf toLowerCase generateFileId 0 files))%Z) :
  let validFiles := validFilesOf toLowerCase generateFileId 0 files in
  sendFiles toLowerCase generateFileId batchId sendMessage cancelled files e
  = mkEngine (fileProgress e) (batchProgress e) false (isReceiving e)
      (receivedChunksRef e) (fileMetadataRef e) (outbox e)
      (FileTransfer.calls e ++ validationErrors toLowerCase files
       ++ [FileTransfer.onError
             match validFiles with
             | [] => NoValidFiles
             | _ :: _ => SessionLimitExceeded (totalSizeOf validFiles)
             end]).
Proof.
  cbv zeta. unfold sendFiles.
  destruct files as [|f0 files]; [contradiction Hfiles; reflexivity|].
  remember (f0 :: files) as batch eqn:Eb.
  rewrite validation_outcome. cbn [List.app]. rewrite Z.add_0_l.
  destruct (validFilesOf toLowerCase generateFileId 0 batch)
    as [|first others] eqn:Ev.
  - unfold reported, FileTransfer.call, setIsSending. cbn.
    rewrite app_assoc. reflexivity.
  - destruct Hrefused as [Hnone|Hover]; [discriminate Hnone|].
    destruct (Z.ltb_spec MAX_SESSION_SIZE (totalSizeOf (first :: others)));
      [|lia].
    unfold reported, FileTransfer.call, setIsSending. cbn.
    rewrite app_assoc. reflexivity.
Qed.

Lemma refused_batch_sends_nothing_witness :
  outbox (sendFiles asciiLower twoFileIds "batch-1" (fun _ => true)
            (fun _ => false) [emptyFile] initialEngine)
  = [].
Proof.
  exact (f_equal outbox
           (refused_batch_sends_nothing asciiLower twoFileIds "batch-1"
              (fun _ => true) (fun _ => false) [emptyFile] initialEngine
              ltac:(repeat constructor) ltac:(discriminate)
              (or_introl eq_refl))).
Defined.

Lemma ceilDiv_positive (size : nat) :
  (0 < size)%nat -> exists n, ceilDiv size CHUNK_SIZE = S n.
Proof.
  intros Hs. unfold ceilDiv.
  destruct ((size + CHUNK_SIZE - 1) / CHUNK_SIZE)%nat eqn:E; [|eauto].
  apply Nat.div_small_iff in E; [lia|]. pose proof CHUNK_SIZE_pos. lia.
Qed.

Lemma chunk_slice (file : File) (i : nat) :
  JS.slice (content file) (Z.of_nat (i * CHUNK_SIZE))
    (Z.of_nat (Nat.min (i * CHUNK_SIZE + CHUNK_SIZE)
                 (List.length (content file))))
  = chunkBytes file i.
Proof.
  unfold chunkBytes. rewrite slice_within by lia.
  replace (i * CHUNK_SIZE + CHUNK_SIZE - i * CHUNK_SIZE)%nat
    with CHUNK_SIZE by lia.
  reflexivity.
Qed.

(** X22.  When the channel refuses a chunk, the transfer stops there:
    after [batch_start] and the metadata of the first valid file, the
    first chunk is the last message handed to the channel; neither
    [file_complete] nor [batch_complete] follows, [onTransferComplete] is
    not called, the failure is reported once, and the engine is no longer
    sending.  (For files for which [validateFile] returns.) *)
Theorem refused_chunk_stops_the_transfer
    (toLowerCase : list N -> list N) (generateFileId : nat -> string)
    (batchId : string) (sendMessage : PeerMessage -> bool)
    (cancelled : CheckPoint -> bool) (files : list File) (e : Engine)
    (Htypes : Forall hasPlainType files)
    (first : File * FileMetadata) (others : list (File * FileMetadata))
    (Hvalid :
       validFilesOf toLowerCase generateFileId 0 files = first :: others)
    (Hsession : (totalSizeOf (first :: others) <= MAX_SESSION_SIZE)%Z)
    (Hrefuses : forall chunk, sendMessage (file_chunk chunk) = false)
    (Hrun : forall c, cancelled c = false) :
  let r :=
    sendFiles toLowerCase generateFileId batchId sendMessage cancelled
      files e in
  outbox r
  = outbox e
    ++ [ batch_start batchId (Z.of_nat (S (List.length others)))
           (totalSizeOf (first :: others));
         file_metadata
           (mkFileMetadataPayload (snd first) batchId 0
              (Z.of_nat (S (List.length others))));
         expectedChunk (fst first) (snd first) 0 ]
  /\ FileTransfer.calls r
     = FileTransfer.calls e ++ validationErrors toLowerCase files
       ++ [FileTransfer.onError SendFailed]
  /\ isSending r = false.
Proof.
  cbv zeta. unfold sendFiles.
  destruct files as [|f0 files]; [discriminate Hvalid|].
  remember (f0 :: files) as batch eqn:Eb.
  rewrite validation_outcome. cbn [List.app]. rewrite Z.add_0_l, Hvalid.
  destruct (Z.ltb_spec MAX_SESSION_SIZE (totalSizeOf (first :: others)));
    [lia|].
  cbn [sendEach]. rewrite Hrun.
  pose proof (validFilesOf_valid toLowerCase generateFileId 0 batch) as Hv.
  rewrite Hvalid in Hv. apply Forall_cons in Hv. destruct Hv as [Hfirst _].
  destruct first as [file metadata]. destruct Hfirst as (Hfile & fileId & Hm).
  cbn [fst snd] in Hfile, Hm.
  destruct (ceilDiv_positive _ (valid_file_is_not_empty _ _ Hfile))
    as (n & Hn).
  assert (Ht : Z.to_nat (totalChunks metadata) = S n).
  { rewrite Hm. unfold createFileMetadata. cbn [totalChunks].
    rewrite Nat2Z.id. exact Hn. }
  clear Hm Hn. unfold sendFile. rewrite Ht.
  cbn [List.seq sendChunks]. rewrite Hrun, Hrefuses. cbn [negb].
  unfold expectedChunk. rewrite (chunk_slice file 0).
  cbn [outbox FileTransfer.calls isSending engine fst snd reported
       FileTransfer.call setIsSending updateFileProgress setFileProgress
       setBatchProgress emit].
  rewrite <- !app_assoc. cbn [List.app].
  repeat split; reflexivity.
Qed.

Lemma refused_chunk_stops_the_transfer_witness :
  List.length
    (outbox (sendFiles asciiLower twoFileIds "batch-1"
               (fun m => match m with file_chunk _ => false | _ => true end)
               (fun _ => false) [notesFile; memo] initialEngine))
  = 3%nat.
Proof.
  refine (f_equal (@List.length PeerMessage)
            (proj1 (refused_chunk_stops_the_transfer asciiLower twoFileIds
                      "batch-1"
                      (fun m => match m with
                                | file_chunk _ => false
                                | _ => true
                                end)
                      (fun _ => false) [notesFile; memo] initialEngine
                      _ _ _ eq_refl _ (fun _ => eq_refl)
                      (fun _ => eq_refl)))).
  - repeat constructor.
  - vm_compute. discriminate.
Defined.

(** X23.  A transfer cancelled before its first file announces the batch
    and nothing else: no file, no [batch_complete], no call of
    [onTransferComplete]; the engine is no longer sending and the batch is
    not marked completed.  (For files for which [validateFile]
    returns.) *)
Theorem transfer_cancelled_at_once_sends_only_batch_start
    (toLowerCase : list N -> list N) (generateFileId : nat -> string)
    (batchId : string) (sendMessage : PeerMessage -> bool)
    (cancelled : CheckPoint -> bool) (files : list File) (e : Engine)
    (Htypes : Forall hasPlainType files)
    (first : File * FileMetadata) (others : list (File * FileMetadata))
    (Hvalid :
       validFilesOf toLowerCase generateFileId 0 files = first :: others)
    (Hsession : (totalSizeOf (first :: others) <= MAX_SESSION_SIZE)%Z)
    (Hcancelled : forall c, cancelled c = true) :
  let r :=
    sendFiles toLowerCase generateFileId batchId sendMessage cancelled
      files e in
  outbox r
  = outbox e
    ++ [ batch_start batchId (Z.of_nat (S (List.length others)))
           (totalSizeOf (first :: others)) ]
  /\ FileTransfer.calls r
     = FileTransfer.calls e ++ validationErrors toLowerCase files
  /\ isSending r = false
  /\ batchStatus (batchProgress r) = batch_transferring.
Proof.
  cbv zeta. unfold sendFiles.
  destruct files as [|f0 files]; [discriminate Hvalid|].
  remember (f0 :: files) as batch eqn:Eb.
  rewrite validation_outcome. cbn [List.app]. rewrite Z.add_0_l, Hvalid.
  destruct (Z.ltb_spec MAX_SESSION_SIZE (totalSizeOf (first :: others)));
    [lia|].
  cbn [sendEach]. rewrite !Hcancelled.
  repeat split.
Qed.

Lemma transfer_cancelled_at_once_sends_only_batch_start_witness :
  outbox (sendFiles asciiLower twoFileIds "batch-1" (fun _ => true)
            (fun _ => true) [notesFile; memo] initialEngine)
  = [batch_start "batch-1" 2 4].
Proof.
  refine (proj1 (transfer_cancelled_at_once_sends_only_batch_start
                   asciiLower twoFileIds "batch-1" (fun _ => true)
                   (fun _ => true) [notesFile; memo] initialEngine
                   _ _ _ eq_refl _ (fun _ => eq_refl))).
  - repeat constructor.
  - vm_compute. discriminate.
Defined.

(** ** Receiving: chunk order and file names *)

(** Chunk messages of a file that has its array start verifications
    and change nothing else. *)
Lemma chunks_wait_for_their_checks (file : File) (metadata : FileMetadata)
    (a : nat) (order : list nat) (s : Receiving.State) :
  Receiving.receivedChunksRef s !! id metadata = Some a ->
  let s' :=
    Receiving.run
      (nothingVerified (List.map (expectedChunk file metadata) order)) s in
  Receiving.receivedChunksRef s' = Receiving.receivedChunksRef s
  /\ Receiving.fileMetadataRef s' = Receiving.fileMetadataRef s
  /\ Receiving.arrays s' = Receiving.arrays s
  /\ Receiving.calls s' = Receiving.calls s.
Proof.
  revert s. induction order as [|i order IH]; intros s Href; [cbn; auto|].
  cbv zeta.
  cbn [nothingVerified List.map Receiving.run List.fold_left Receiving.step
       Receiving.handleMessage expectedChunk fileId].
  rewrite Href.
  destruct (IH (Receiving.setPending
                  (Receiving.pending s
                   ++ [Receiving.mkContinuation
                         (mkFileChunkPayload (id metadata) (Z.of_nat i)
                            (totalChunks metadata) (chunkBytes file i)
                            (generateChecksum (chunkBytes file i))) a]) s)
              Href) as (A & B & C & D).
  unfold nothingVerified, Receiving.run in A, B, C, D.
  rewrite A, B, C, D. auto.
Qed.

(** X24.  The order in which the chunks of a file arrive does not
    matter, neither do repetitions, nor the order in which their
    checksum verifications come through: if the chunk messages between
    the metadata and [file_complete] carry every chunk index of the file
    at least once, and no other, and no verification is under way when
    [file_complete] is handled, the receiver hands on exactly the bytes of
    the file.  When [file_complete] is handled before any verification is
    through, the receiver hands on a blob without bytes instead. *)
Theorem chunks_in_any_order_reassemble
    (batchId : string) (fileCount fileIndex : nat)
    (vf : File * FileMetadata) (order : list nat)
    (schedule : list Receiving.Event) (r : Receiving.State)
    (Hfit : chunksFitAnArray vf)
    (Hcovers :
       forall i,
         (i < ceilDiv (List.length (content (fst vf))) CHUNK_SIZE)%nat
         <-> List.In i order)
    (Hidle : Receiving.pending r = [])
    (Harrive :
       Receiving.messagesOf schedule
       = file_metadata
           (mkFileMetadataPayload (snd vf) batchId (Z.of_nat fileIndex)
              (Z.of_nat fileCount))
         :: List.map (expectedChunk (fst vf) (snd vf)) order
         ++ [file_complete (id (snd vf)) (default "" (hash (snd vf)))])
    (Hverified : Receiving.verifiedBeforeCompletion schedule r = true) :
  Receiving.calls (Receiving.run schedule r)
  = Receiving.calls r ++ [delivered vf]
  /\ Receiving.calls
       (Receiving.run (nothingVerified (Receiving.messagesOf schedule)) r)
     = Receiving.calls r
       ++ [onFileReceived (mkBlob [] (type (snd vf)))
             (sanitizedCopy (snd vf))].
Proof.
  destruct vf as [file metadata]. unfold chunksFitAnArray in Hfit.
  cbn [fst snd] in *. split.
  - destruct (next_message _ _ _ r Hidle Harrive Hverified)
      as (rest1 & Hrun1 & Hmessages1 & Hverified1).
    destruct (metadata_opens_the_file file metadata batchId
                (Z.of_nat fileIndex) (Z.of_nat fileCount) r Hidle)
      as (Hopen & _).
    destruct (chunks_then_complete file metadata Hfit _ [] _ _ rest1 order []
                _ Hopen Hmessages1)
      as (rest2 & s2 & Hrun2 & Hmessages2 & _ & Hidle2 & Hcalls2).
    { apply Forall_forall. intros j Hj. apply Hcovers.
      apply list_elem_of_In. exact Hj. }
    { intros j Hj. right. apply Hcovers. exact Hj. }
    { exact Hverified1. }
    rewrite Hrun1, Hrun2, no_more_messages by assumption.
    exact Hcalls2.
  - rewrite Harrive. unfold nothingVerified.
    cbn [List.map Receiving.run List.fold_left Receiving.step].
    rewrite List.map_app, List.fold_left_app.
    set (s1 := Receiving.handleMessage (file_metadata _) r).
    assert (Href : Receiving.receivedChunksRef s1 !! id metadata
                   = Some (List.length (Receiving.arrays r))).
    { subst s1.
      cbn [Receiving.handleMessage Protocol.metadata
           Receiving.setBatchProgress Receiving.setFileProgress
           Receiving.setReceivedChunks Receiving.receivedChunksRef].
      apply lookup_insert_eq. }
    assert (Hmeta : Receiving.fileMetadataRef s1 !! id metadata
                    = Some (sanitizedCopy metadata)).
    { subst s1.
      cbn [Receiving.handleMessage Protocol.metadata
           Receiving.setBatchProgress Receiving.setFileProgress
           Receiving.setReceivedChunks Receiving.setArrays
           Receiving.setFileMetadata Receiving.fileMetadataRef].
      apply lookup_insert_eq. }
    assert (Harr : Receiving.arrays s1
                   !! List.length (Receiving.arrays r) = Some []).
    { subst s1.
      cbn [Receiving.handleMessage Protocol.metadata
           Receiving.setBatchProgress Receiving.setFileProgress
           Receiving.setReceivedChunks Receiving.setArrays
           Receiving.setFileMetadata Receiving.arrays].
      rewrite lookup_app_r by lia. rewrite Nat.sub_diag. reflexivity. }
    assert (Hcalls : Receiving.calls s1 = Receiving.calls r) by reflexivity.
    destruct (chunks_wait_for_their_checks file metadata _ order s1 Href)
      as (A & B & C & D).
    unfold nothingVerified, Receiving.run in A, B, C, D.
    set (s2 := List.fold_left _ _ s1) in *.
    cbn [List.map List.fold_left Receiving.step Receiving.handleMessage].
    rewrite A, B, Href, Hmeta. unfold Receiving.elements. rewrite C, Harr.
    cbn [Receiving.call Receiving.setReceivedChunks Receiving.setBatchProgress
         Receiving.updateFileProgress Receiving.setFileProgress
         Receiving.calls].
    rewrite D, Hcalls. reflexivity.
Qed.

Lemma chunks_in_any_order_reassemble_witness :
  Receiving.calls (Receiving.run notesTwice Receiving.initialState)
  = [delivered (notesFile, createFileMetadata notesFile "file-1")].
Proof.
  refine (proj1 (chunks_in_any_order_reassemble "batch-1" 1 0
                   (notesFile, createFileMetadata notesFile "file-1")
                   [0; 0]%nat notesTwice Receiving.initialState
                   _ _ eq_refl eq_refl _)).
  - unfold chunksFitAnArray. cbn [fst]. vm_compute. discriminate.
  - intros i. cbn [fst].
    replace (ceilDiv (List.length (content notesFile)) CHUNK_SIZE)
      with 1%nat by (vm_compute; reflexivity).
    cbn [List.In]. lia.
  - vm_compute. reflexivity.
Defined.

Lemma handleMessage_keepsCleanNames (message : PeerMessage) (e : Engine) :
  keepsCleanNames e -> keepsCleanNames (FileTransfer.handleMessage message e).
Proof.
  intros [Hm Hc]. unfold keepsCleanNames.
  destruct message; cbn [FileTransfer.handleMessage]; try (split; assumption).
  - (* batch_start *)
    split; [apply map_Forall_empty|exact Hc].
  - (* file_metadata *)
    split; [|exact Hc].
    cbn [fileMetadataRef setBatchProgress setFileProgress setReceivedChunks
         setFileMetadata].
    apply map_Forall_insert_2; [|exact Hm].
    cbn [name sanitizedName]. split; apply sanitizeFileName_clean.
  - (* file_chunk *)
    destruct (receivedChunksRef e !! _);
      [|split; [exact Hm|apply Forall_app_2; [exact Hc|repeat constructor]]].
    destruct (negb _);
      [split; [exact Hm|apply Forall_app_2; [exact Hc|repeat constructor]]|].
    cbn [receivedChunksRef fileMetadataRef setReceivedChunks].
    destruct (fileMetadataRef e !! _); split; assumption.
  - (* file_complete *)
    destruct (receivedChunksRef e !! _) as [chunks|];
      [|split; [exact Hm|apply Forall_app_2; [exact Hc|repeat constructor]]].
    destruct (fileMetadataRef e !! _) as [metadata|] eqn:E;
      [|split; [exact Hm|apply Forall_app_2; [exact Hc|repeat constructor]]].
    split; [exact Hm|].
    cbn [FileTransfer.calls FileTransfer.call].
    apply Forall_app_2; [exact Hc|]. constructor; [|constructor].
    exact (Hm _ metadata E).
  - (* batch_complete *)
    split; [apply map_Forall_empty|].
    cbn [FileTransfer.calls FileTransfer.call].
    apply Forall_app_2; [exact Hc|repeat constructor].
  - (* file_error *)
    split; [exact Hm|].
    cbn [FileTransfer.calls FileTransfer.call].
    apply Forall_app_2; [exact Hc|repeat constructor].
Qed.

(** X25.  Whatever messages a peer sends, in whatever order, every file
    the receiver hands to [onFileReceived] carries metadata whose two
    names come out of [sanitizeFileName]: no slash or backslash, none of
    the special characters, no control character, not blank.  The names
    the sender put into the metadata are never handed on as they came. *)
Theorem received_files_always_carry_sanitized_names
    (messages : list PeerMessage) :
  Forall handsOnCleanNames
    (FileTransfer.calls (receive initialEngine messages)).
Proof.
  assert (H : forall e, keepsCleanNames e ->
                        keepsCleanNames (receive e messages)).
  { induction messages as [|m messages IH]; intros e He; [exact He|].
    cbn [receive List.fold_left]. apply IH.
    apply handleMessage_keepsCleanNames, He. }
  apply (H initialEngine). split; [apply map_Forall_empty|constructor].
Qed.

(** ** The PIN exchange with a correct PIN *)

Lemma valid_pin_is_truthy (pin : string) :
  isValidPinFormat pin = true -> truthy (Some pin) = true.
Proof.
  unfold isValidPinFormat. intros H. apply andb_prop in H.
  destruct H as [H _]. destruct pin; [discriminate H|reflexivity].
Qed.

(** Evaluation of the hook's setters and projections, by value. *)
Ltac hook_step :=
  cbv beta iota zeta delta
      [resumeApproval resumePin send sendMessage setRateLimitStore
       setInfo WebRTC.call pushSent startHeartbeat setPinAttempts pinMatches
       Connection.setPin WebRTC.handleMessage isHost isClient andb negb
       default Datatypes.id
       fst snd mode hasOnConnectionRequest hasOnPinRequired rateLimitStore
       connectionInfo connectionRef peerRef heartbeatIntervalRef pinHashRef
       pinAttemptsRef roomCodeRef sessionStore sent WebRTC.calls
       state isPinVerified withState withConnectedAt withPinVerified
       withPinRequired withRemotePeerId].

(** X26.  A PIN set with [setPin] is asked for and, entered correctly,
    completes the connection: after the approval the host sends
    [pin_required]; the client that is given the PIN answers with its
    hash; the host replies [pin_verified] and [connection_approved],
    whatever attempt number the message declares, and is connected with
    its heartbeat armed; and on these two messages the client is connected
    as well. *)
Theorem correct_pin_completes_the_connection
    (h c : Hook) (pin p dev : string) (t0 t1 t2 t3 t4 t5 declared : Z)
    (Hhost : mode h = host)
    (Hcallback : hasOnConnectionRequest h = true)
    (Hchannel : connectionRef h = Some true)
    (Hfree :
       fst (isRateLimited t0 p MAX_CONNECTION_ATTEMPTS
              CONNECTION_ATTEMPT_WINDOW_MS (rateLimitStore h)) = false)
    (Hclient : mode c = client)
    (Hprompt : hasOnPinRequired c = true)
    (Hchannel' : connectionRef c = Some true)
    (Hpin : isValidPinFormat pin = true) :
  let h1 :=
    resumeApproval t1 p true
      (fst (WebRTC.handleMessage t0 (connection_request p dev)
              (Connection.setPin pin h))) in
  let c1 := WebRTC.handleMessage t2 pin_required c in
  let c2 := resumePin (snd c1) (Some pin) (fst c1) in
  let h2 :=
    fst (WebRTC.handleMessage t3 (pin_attempt (hashPin pin) declared) h1) in
  let c4 :=
    fst (WebRTC.handleMessage t5 connection_approved
           (fst (WebRTC.handleMessage t4 pin_verified c2))) in
  sent h1 = sent h ++ [pin_required]
  /\ sent c2 = sent c ++ [pin_attempt (hashPin pin) (pinAttemptsRef c + 1)]
  /\ sent h2 = sent h ++ [pin_required; pin_verified; connection_approved]
  /\ state (connectionInfo h2) = connected
  /\ isPinVerified (connectionInfo h2) = true
  /\ heartbeatIntervalRef h2 = true
  /\ WebRTC.calls h2
     = WebRTC.calls h ++ [onConnectionRequest p; onConnected]
  /\ state (connectionInfo c4) = connected
  /\ isPinVerified (connectionInfo c4) = true
  /\ heartbeatIntervalRef c4 = true.
Proof.
  pose proof (hashPin_truthy pin) as Htruthy.
  pose proof (valid_pin_is_truthy pin Hpin) as Htyped.
  destruct (isRateLimited t0 p MAX_CONNECTION_ATTEMPTS
              CONNECTION_ATTEMPT_WINDOW_MS (rateLimitStore h))
    as [limited store] eqn:Elimit.
  cbn [fst] in Hfree. subst limited.
  destruct (recordAttempt t0 p MAX_CONNECTION_ATTEMPTS
              CONNECTION_ATTEMPT_WINDOW_MS BLOCK_DURATION_MS store)
    as [entry store'] eqn:Erecord.
  destruct h as [hm hcb hpr hinfo hconn hpeer hhb hpin hatt hroom hstore
                 hsess hsent hcalls].
  destruct c as [cm ccb cpr cinfo cconn cpeer chb cpin catt croom cstore
                 csess csent ccalls].
  cbn [mode hasOnConnectionRequest connectionRef rateLimitStore
       hasOnPinRequired]
    in Hhost, Hcallback, Hchannel, Hclient, Hprompt, Hchannel', Elimit.
  subst hm hcb hconn cm cpr cconn.
  intros h1.
  eassert (Eh1 : h1 = _).
  { subst h1. hook_step. rewrite Elimit. hook_step. rewrite Erecord.
    hook_step. rewrite Htruthy. hook_step. reflexivity. }
  clearbody h1. subst h1.
  intros c1.
  eassert (Ec1 : c1 = _) by (subst c1; hook_step; reflexivity).
  clearbody c1. subst c1.
  intros c2.
  eassert (Ec2 : c2 = _).
  { subst c2. hook_step. rewrite Htyped. hook_step. reflexivity. }
  clearbody c2. subst c2.
  intros h2.
  eassert (Eh2 : h2 = _).
  { subst h2. hook_step. rewrite String.eqb_refl. hook_step. reflexivity. }
  clearbody h2. subst h2.
  intros c4.
  eassert (Ec4 : c4 = _) by (subst c4; hook_step; reflexivity).
  clearbody c4. subst c4.
  hook_step. rewrite <- !app_assoc. cbn [List.app].
  repeat split; reflexivity.
Qed.

Lemma correct_pin_completes_the_connection_witness :
  let h1 :=
    resumeApproval 1 "client-1" true
      (fst (WebRTC.handleMessage 0 (connection_request "client-1" "agent")
              (Connection.setPin "1234" idleHost))) in
  sent (fst (WebRTC.handleMessage 3 (pin_attempt (hashPin "1234") 1) h1))
  = sent idleHost ++ [pin_required; pin_verified; connection_approved].
Proof.
  exact (proj1 (proj2 (proj2
           (correct_pin_completes_the_connection idleHost pinClient
              "1234" "client-1" "agent" 0 1 2 3 4 5 1
              eq_refl eq_refl eq_refl eq_refl eq_refl eq_refl eq_refl
              eq_refl)))).
Defined.

(** ** Heartbeats and disconnecting *)

Lemma heartbeats_while_connected (n : nat) (h : Hook) :
  connectionRef h = Some true -> heartbeatIntervalRef h = true ->
  let h' := Nat.iter n heartbeatTick h in
  sent h' = sent h ++ List.repeat heartbeat n
  /\ connectionRef h' = Some true /\ heartbeatIntervalRef h' = true
  /\ connectionInfo h' = connectionInfo h
  /\ WebRTC.calls h' = WebRTC.calls h.
Proof.
  intros Ho Hb. induction n as [|n IH].
  - cbn. rewrite app_nil_r. auto.
  - cbv zeta in IH |- *. destruct IH as (A & B & C & D & E).
    change (Nat.iter (S n) heartbeatTick h)
      with (heartbeatTick (Nat.iter n heartbeatTick h)).
    unfold heartbeatTick at 1 3 5 7 9. rewrite C.
    unfold send, sendMessage. rewrite B.
    cbn [snd sent pushSent connectionRef heartbeatIntervalRef connectionInfo
         WebRTC.calls].
    rewrite A, <- app_assoc.
    change (heartbeat :: List.repeat heartbeat n)
      with (List.repeat heartbeat (S n)).
    rewrite <- repeat_cons. auto.
Qed.

Lemma no_heartbeat_when_disarmed (n : nat) (h : Hook) :
  heartbeatIntervalRef h = false -> Nat.iter n heartbeatTick h = h.
Proof.
  intros Hb. induction n as [|n IH]; [reflexivity|].
  change (Nat.iter (S n) heartbeatTick h)
    with (heartbeatTick (Nat.iter n heartbeatTick h)).
  rewrite IH. unfold heartbeatTick. rewrite Hb. reflexivity.
Qed.

(** X27.  While the hook is connected with the heartbeat armed, it sends
    one [heartbeat] per full interval of five seconds and nothing else.
    [disconnect] sends [disconnect] on the channel it had, after which the
    hook holds neither channel nor PIN hash, its connection record is the
    initial one, the session of its room code is gone, every
    [sendMessage] is refused and no heartbeat is sent any more. *)
Theorem disconnect_ends_all_sending
    (h : Hook) (code : string) (ms : Z) (message : PeerMessage)
    (Hchannel : connectionRef h = Some true)
    (Hbeat : heartbeatIntervalRef h = true)
    (Hcode : roomCodeRef h = Some code)
    (Hnamed : code <> "") :
  let gone := Connection.disconnect h in
  sent (elapse ms h)
  = sent h ++ List.repeat heartbeat (Z.to_nat (ms / HEARTBEAT_INTERVAL_MS))
  /\ sent gone = sent h ++ [Protocol.disconnect]
  /\ connectionRef gone = None
  /\ pinHashRef gone = None
  /\ connectionInfo gone = initialConnectionInfo
  /\ getSession code (sessionStore gone) = None
  /\ sendMessage message gone = (false, gone)
  /\ elapse ms gone = gone.
Proof.
  cbv zeta. split.
  - unfold elapse.
    apply (heartbeats_while_connected _ h Hchannel Hbeat).
  - unfold Connection.disconnect. rewrite Hchannel.
    unfold send, sendMessage. rewrite Hchannel.
    unfold cleanup, setInfo, pushSent, truthy.
    cbn [snd mode hasOnConnectionRequest hasOnPinRequired connectionInfo
         connectionRef peerRef heartbeatIntervalRef pinHashRef pinAttemptsRef
         roomCodeRef rateLimitStore sessionStore sent WebRTC.calls].
    rewrite Hcode. destruct (String.eqb_spec code ""); [contradiction|].
    cbn [negb default].
    repeat split.
    + unfold getSession, destroySession. apply lookup_delete_eq.
    + unfold elapse. apply no_heartbeat_when_disarmed. reflexivity.
Qed.

Lemma disconnect_ends_all_sending_witness :
  sent (Connection.disconnect
          (startHeartbeat (Connection.setPin "1234" idleHost)))
  = [Protocol.disconnect]
  /\ sent (elapse 12000 (startHeartbeat idleHost)) = [heartbeat; heartbeat].
Proof.
  pose proof (disconnect_ends_all_sending
                (startHeartbeat (Connection.setPin "1234" idleHost))
                "ABCD-EFGH" 0 heartbeat eq_refl eq_refl eq_refl
                ltac:(discriminate)) as (_ & H & _).
  split; [exact H|reflexivity].
Defined.

(** ** What the hook passes on *)

(** X28.  The hook hands every transfer message to [onMessage] as it
    comes, in either mode and in every connection state, also while a
    request awaits approval or a PIN is outstanding; it sends nothing in
    reply and changes nothing else.  The view passes each of them to the
    transfer hook, so that handling a run of transfer messages through
    the connection hook and the view is handling it with the transfer
    hook directly. *)
Theorem transfer_messages_are_passed_on_in_every_state
    (now : Z) (stream : list PeerMessage) (h : Hook) (e : Engine)
    (Hstream :
       List.forallb ReceiverView.isTransferMessage stream = true) :
  let h' := hostReceives now stream h in
  WebRTC.calls h' = WebRTC.calls h ++ List.map onMessage stream
  /\ sent h' = sent h
  /\ connectionInfo h' = connectionInfo h
  /\ List.fold_left (fun e m => ReceiverView.handleIncomingMessage m e)
       stream e
     = receive e stream.
Proof.
  cbv zeta. revert h e.
  induction stream as [|m stream IH]; intros h e.
  - cbn. rewrite app_nil_r. auto.
  - cbn [List.forallb] in Hstream. apply andb_prop in Hstream.
    destruct Hstream as [Hm Hrest].
    cbn [hostReceives List.fold_left receive List.map].
    assert (Hstep : WebRTC.handleMessage now m h
                    = (WebRTC.call (onMessage m) h, Finished))
      by (destruct m; try discriminate Hm; reflexivity).
    rewrite Hstep. cbn [fst].
    destruct (IH Hrest (WebRTC.call (onMessage m) h)
                (FileTransfer.handleMessage m e)) as (A & B & C & D).
    unfold hostReceives in A, B, C. rewrite A, B, C.
    unfold receive in D.
    unfold ReceiverView.handleIncomingMessage at 2. rewrite Hm, D.
    cbn [WebRTC.calls WebRTC.call sent connectionInfo].
    rewrite <- app_assoc. auto.
Qed.

Lemma transfer_messages_are_passed_on_in_every_state_witness :
  WebRTC.calls
    (hostReceives 0 [batch_start "batch-1" 1 3; batch_complete "batch-1"]
       pinHost)
  = [onMessage (batch_start "batch-1" 1 3);
     onMessage (batch_complete "batch-1")].
Proof.
  exact (proj1 (transfer_messages_are_passed_on_in_every_state 0
                  [batch_start "batch-1" 1 3; batch_complete "batch-1"]
                  pinHost initialEngine eq_refl)).
Defined.

(** ** The audit log *)

Lemma shiftWhileOver_drop {Other} (events : list (AuditLog.AuditEvent Other)) :
  AuditLog.shiftWhileOver events
  = drop (List.length events - AuditLog.MAX_EVENTS) events.
Proof.
  induction events as [|x events IH]; [reflexivity|].
  cbn [AuditLog.shiftWhileOver].
  destruct (Nat.ltb_spec AuditLog.MAX_EVENTS (List.length (x :: events)))
    as [Hover|Hfits].
  - rewrite IH. cbn [List.length] in *.
    replace (S (List.length events) - AuditLog.MAX_EVENTS)%nat
      with (S (List.length events - AuditLog.MAX_EVENTS))%nat
      by (unfold AuditLog.MAX_EVENTS in *; lia).
    reflexivity.
  - replace (List.length (x :: events) - AuditLog.MAX_EVENTS)%nat
      with 0%nat by lia.
    reflexivity.
Qed.

(** X29.  The audit log is a window on the latest events: logging
    appends the new event and drops the oldest events beyond
    [MAX_EVENTS], so the log never holds more than fifty events and always
    ends with the event just logged. *)
Theorem audit_log_keeps_the_latest_events
    {Other} (toLowerCase : list N -> list N) (id : string) (now : Z)
    (event : AuditLog.AuditEventType)
    (details : gmap (list N) (AuditLog.Value Other))
    (severity : AuditLog.Severity)
    (events : list (AuditLog.AuditEvent Other)) :
  let logged :=
    AuditLog.logAuditEvent toLowerCase id now event details severity events in
  snd logged
  = drop (List.length events + 1 - AuditLog.MAX_EVENTS)
      (events ++ [fst logged])
  /\ (List.length (snd logged) <= AuditLog.MAX_EVENTS)%nat
  /\ List.last (snd logged) (fst logged) = fst logged
  /\ snd logged <> [].
Proof.
  cbv zeta. unfold AuditLog.logAuditEvent. cbn [fst snd].
  set (new := AuditLog.mkAuditEvent id now event _ severity).
  rewrite shiftWhileOver_drop, length_app. cbn [List.length].
  split; [reflexivity|]. split.
  - rewrite length_drop, length_app. cbn [List.length]. lia.
  - assert (Hd : exists kept,
               drop (List.length events + 1 - AuditLog.MAX_EVENTS)
                 (events ++ [new]) = kept ++ [new]).
    { exists (drop (List.length events + 1 - AuditLog.MAX_EVENTS) events).
      rewrite drop_app_le; [reflexivity|].
      unfold AuditLog.MAX_EVENTS. lia. }
    destruct Hd as (kept & ->). split.
    + apply List.last_last.
    + destruct kept; discriminate.
Qed.

Lemma splitOn_pieces (sep : N -> bool) (s : list N) :
  JS.splitOn sep s <> []
  /\ Forall (Forall (fun c => sep c = false)) (JS.splitOn sep s).
Proof.
  induction s as [|c s [Hne Hall]].
  - split; [discriminate|repeat constructor].
  - cbn [JS.splitOn]. destruct (sep c) eqn:Ec.
    + split; [discriminate|]. constructor; [constructor|exact Hall].
    + destruct (JS.splitOn sep s) as [|piece pieces]; [contradiction|].
      split; [discriminate|].
      apply Forall_cons in Hall. destruct Hall as [Hp Hps].
      constructor; [|exact Hps]. constructor; assumption.
Qed.

Lemma lastPiece_clean (sep : N -> bool) (s : list N) :
  Forall (fun c => sep c = false) (AuditLog.lastPiece (JS.splitOn sep s)).
Proof.
  destruct (splitOn_pieces sep s) as [Hne Hall].
  unfold AuditLog.lastPiece.
  induction Hall as [|piece pieces Hp Hps IH]; [contradiction|].
  destruct pieces as [|next pieces]; [exact Hp|].
  change (List.last (piece :: next :: pieces) [])
    with (List.last (next :: pieces) []).
  apply IH. discriminate.
Qed.

Lemma splitOn_last (sep : N -> bool) (s : list N) :
  exists piece pieces before,
    JS.splitOn sep s = piece :: pieces
    /\ s = before ++ List.last (piece :: pieces) []
    /\ match pieces with
       | [] => before = []
       | _ :: _ => exists b c, before = b ++ [c] /\ sep c = true
       end.
Proof.
  induction s as [|c s (piece & pieces & before & E & Hlast & Hbefore)].
  - exists [], [], []. repeat split.
  - cbn [JS.splitOn]. rewrite E. destruct (sep c) eqn:Ec.
    + exists [], (piece :: pieces), (c :: before).
      split; [reflexivity|]. split.
      * change (List.last ([] :: piece :: pieces) [])
          with (List.last (piece :: pieces) []).
        cbn [List.app]. rewrite <- Hlast. reflexivity.
      * destruct pieces as [|next pieces].
        -- subst before. exists [], c. split; [reflexivity|exact Ec].
        -- destruct Hbefore as (b & x & -> & Hx).
           exists (c :: b), x. split; [reflexivity|exact Hx].
    + destruct pieces as [|next pieces].
      * subst before. cbn [List.app List.last] in Hlast. subst piece.
        exists (c :: s), [], []. repeat split.
      * destruct Hbefore as (b & x & -> & Hx).
        exists (c :: piece), (next :: pieces), (c :: b ++ [x]).
        split; [reflexivity|]. split.
        -- change (List.last ((c :: piece) :: next :: pieces) [])
             with (List.last (piece :: next :: pieces) []).
           cbn [List.app]. rewrite <- Hlast. reflexivity.
        -- exists (c :: b), x. split; [reflexivity|exact Hx].
Qed.

Lemma lastPiece_suffix (sep : N -> bool) (s : list N) :
  exists before,
    s = before ++ AuditLog.lastPiece (JS.splitOn sep s)
    /\ (before = [] \/ exists b c, before = b ++ [c] /\ sep c = true).
Proof.
  destruct (splitOn_last sep s)
    as (piece & pieces & before & E & Hlast & Hbefore).
  unfold AuditLog.lastPiece. rewrite E. exists before.
  split; [exact Hlast|].
  destruct pieces; [left|right]; exact Hbefore.
Qed.

Lemma sanitizeValue_safe {Other} (toLowerCase : list N -> list N)
    (key : list N) (value : AuditLog.Value Other) :
  storedSafely toLowerCase key value
    (AuditLog.sanitizeValue toLowerCase key value).
Proof.
  unfold storedSafely, AuditLog.sanitizeValue, isSensitiveKey.
  cbv zeta.
  destruct (List.existsb _ AuditLog.SENSITIVE) eqn:Es.
  - split; [reflexivity|discriminate].
  - split; [discriminate|]. intros _.
    destruct value as [text|o]; [|reflexivity].
    destruct (JS.includes (JS.units "peerid") (toLowerCase key)) eqn:Ep.
    + split; [|split; discriminate]. intros _.
      change 8%Z with (Z.of_nat 8). rewrite slice_head. reflexivity.
    + destruct (JS.includes (JS.units "filename") (toLowerCase key)) eqn:Ef.
      * split; [discriminate|]. split; [|discriminate]. intros _ _.
        split; [apply lastPiece_clean|apply lastPiece_suffix].
      * split; [discriminate|]. split; [discriminate|reflexivity].
Qed.

(** X30.  What is logged never contains the value of a sensitive key.
    The logged details have the keys of the given ones, except a key
    [__proto__], which is lost.  Under a key whose lower-cased form
    contains pin, password, token, secret or key the log holds the
    redaction mark whatever the value was; a string under another key
    that contains peerid is cut to its first eight units followed by
    three dots; a string under a file-name key is kept from after its
    last slash or backslash; every other value is logged as it is. *)
Theorem sensitive_details_never_reach_the_log
    {Other} (toLowerCase : list N -> list N) (id : string) (now : Z)
    (event : AuditLog.AuditEventType)
    (details : gmap (list N) (AuditLog.Value Other))
    (severity : AuditLog.Severity)
    (events : list (AuditLog.AuditEvent Other)) :
  let logged :=
    fst (AuditLog.logAuditEvent toLowerCase id now event details severity
           events) in
  dom (AuditLog.details logged) = dom details ∖ {[ AuditLog.PROTO ]}
  /\ map_Forall
       (fun key stored =>
          exists given,
            details !! key = Some given
            /\ storedSafely toLowerCase key given stored)
       (AuditLog.details logged).
Proof.
  cbv zeta. unfold AuditLog.logAuditEvent, AuditLog.sanitizeDetails.
  cbn [fst AuditLog.details]. split.
  - apply set_eq. intros key.
    rewrite elem_of_difference, !elem_of_dom, map_lookup_imap,
      not_elem_of_singleton.
    unfold is_Some.
    destruct (details !! key) as [given|]; cbn [mbind option_bind].
    + destruct (bool_decide_reflect (key = AuditLog.PROTO)) as [Hk|Hk].
      * split; [intros [x Hx]; discriminate Hx|].
        intros [_ Hne]. contradiction.
      * split; [intros _; split; [exists given; reflexivity|exact Hk]|].
        intros _. eexists. reflexivity.
    + split; [intros [x Hx]; discriminate Hx|].
      intros [[x Hx] _]. discriminate Hx.
  - intros key stored. rewrite map_lookup_imap.
    destruct (details !! key) as [given|]; cbn [mbind option_bind];
      [|discriminate].
    destruct (bool_decide (key = AuditLog.PROTO)); [discriminate|].
    intros [= <-]. exists given. split; [reflexivity|].
    apply sanitizeValue_safe.
Qed.

(** ** The receiver whose verifications never wait

    [FileTransfer.handleMessage] is the receiver under the schedule in
    which the verification a message starts is through before the next
    message is handled. *)

Lemma elements_after_write
    (arrays : list (list (option (list byte)))) (refs : gmap string nat)
    (fileId : string) (a : nat) (written : list (option (list byte))) :
  (forall fileId a, refs !! fileId = Some a -> (a < List.length arrays)%nat) ->
  (forall id1 id2 a,
      refs !! id1 = Some a -> refs !! id2 = Some a -> id1 = id2) ->
  refs !! fileId = Some a ->
  (fun a' => default [] (<[a := written]> arrays !! a')) <$> refs
  = <[fileId := written]> ((fun a' => default [] (arrays !! a')) <$> refs).
Proof.
  intros Hvalid Hown Href. apply map_eq. intros k.
  rewrite lookup_fmap.
  destruct (decide (k = fileId)) as [->|Hne].
  - rewrite lookup_insert_eq, Href. cbn.
    rewrite list_lookup_insert_eq by exact (Hvalid _ _ Href). reflexivity.
  - rewrite lookup_insert_ne by congruence. rewrite lookup_fmap.
    destruct (refs !! k) as [a'|] eqn:Hk; [|reflexivity]. cbn.
    rewrite list_lookup_insert_ne; [reflexivity|].
    intros ->. apply Hne. exact (Hown _ _ _ Hk Href).
Qed.

Lemma elements_after_creation
    (arrays : list (list (option (list byte)))) (refs : gmap string nat)
    (fileId : string) :
  (forall fileId a, refs !! fileId = Some a -> (a < List.length arrays)%nat) ->
  (fun a' => default [] ((arrays ++ [[]]) !! a'))
    <$> <[fileId := List.length arrays]> refs
  = <[fileId := []]> ((fun a' => default [] (arrays !! a')) <$> refs).
Proof.
  intros Hvalid. rewrite fmap_insert.
  rewrite lookup_app_r by lia. rewrite Nat.sub_diag. cbn [lookup list_lookup].
  f_equal. apply map_eq. intros k. rewrite !lookup_fmap.
  destruct (refs !! k) as [a'|] eqn:Hk; [|reflexivity]. cbn.
  rewrite lookup_app_l by exact (Hvalid _ _ Hk). reflexivity.
Qed.

Lemma totalBytesReceived_view (e : Engine) (s : Receiving.State) :
  FileTransfer.totalBytesReceived (receivedChunksRef (Receiving.view e s))
  = Receiving.totalBytesReceived s.
Proof.
  unfold FileTransfer.totalBytesReceived, Receiving.totalBytesReceived,
    Receiving.view.
  cbn [receivedChunksRef]. rewrite map_fold_fmap. reflexivity.
Qed.

(** Evaluation of setters under projections, on both receivers. *)
Ltac receiver_cbn :=
  cbn [Receiving.setBatchProgress Receiving.updateFileProgress
       Receiving.setFileProgress Receiving.setReceivedChunks
       Receiving.setArrays Receiving.setFileMetadata Receiving.setIsReceiving
       Receiving.setPending Receiving.call
       Receiving.fileProgress Receiving.batchProgress Receiving.isReceiving
       Receiving.arrays Receiving.receivedChunksRef Receiving.fileMetadataRef
       Receiving.calls Receiving.pending
       setBatchProgress updateFileProgress setFileProgress setReceivedChunks
       setFileMetadata setIsReceiving FileTransfer.call
       fileProgress batchProgress isSending isReceiving receivedChunksRef
       fileMetadataRef outbox FileTransfer.calls].

Lemma view_step (e : Engine) (m : PeerMessage) (s : Receiving.State) :
  wellFormed s -> Receiving.pending s = [] ->
  let s' := Receiving.run (Receiving.immediately [m]) s in
  wellFormed s' /\ Receiving.pending s' = []
  /\ Receiving.view e s' = FileTransfer.handleMessage m (Receiving.view e s).
Proof.
  intros [Hvalid Hown] Hidle. cbv zeta.
  destruct s as [fp bp ir arrs refs metas cs pend].
  cbn [Receiving.pending] in Hidle. subst pend.
  cbn [Receiving.receivedChunksRef Receiving.arrays] in Hvalid, Hown.
  unfold wellFormed.
  destruct m;
    try (cbn; repeat split; eauto; fail).
  - (* batch_start *)
    cbn. split; [split; [intros ? ? H; discriminate H
                        |intros ? ? ? H; discriminate H]|].
    split; [reflexivity|]. unfold Receiving.view. cbn.
    rewrite fmap_empty. reflexivity.
  - (* file_metadata *)
    cbn [Receiving.immediately List.flat_map List.app Receiving.run
         List.fold_left Receiving.step Receiving.handleMessage
         Receiving.setBatchProgress Receiving.setFileProgress
         Receiving.setReceivedChunks Receiving.setArrays
         Receiving.setFileMetadata Receiving.pending Receiving.arrays
         Receiving.receivedChunksRef Receiving.fileMetadataRef
         Receiving.fileProgress Receiving.batchProgress
         Receiving.isReceiving Receiving.calls].
    rewrite lookup_nil. receiver_cbn.
    split; [split|split; [reflexivity|]].
    + intros k a Hk. rewrite length_app. cbn [List.length].
      destruct (decide (k = id (metadata payload))) as [->|Hne].
      * rewrite lookup_insert_eq in Hk. injection Hk as <-. lia.
      * rewrite lookup_insert_ne in Hk by congruence.
        pose proof (Hvalid _ _ Hk). lia.
    + intros id1 id2 a H1 H2.
      destruct (decide (id1 = id (metadata payload))) as [->|Hne1];
        destruct (decide (id2 = id (metadata payload))) as [->|Hne2];
        try reflexivity.
      * rewrite lookup_insert_eq in H1. injection H1 as <-.
        rewrite lookup_insert_ne in H2 by congruence.
        pose proof (Hvalid _ _ H2). lia.
      * rewrite lookup_insert_eq in H2. injection H2 as <-.
        rewrite lookup_insert_ne in H1 by congruence.
        pose proof (Hvalid _ _ H1). lia.
      * rewrite lookup_insert_ne in H1, H2 by congruence.
        exact (Hown _ _ _ H1 H2).
    + unfold Receiving.view, Receiving.elements.
      cbn [FileTransfer.handleMessage]. receiver_cbn.
      rewrite (elements_after_creation arrs refs _ Hvalid). reflexivity.
  - (* file_chunk *)
    set (S := Receiving.mkState fp bp ir arrs refs metas cs []).
    assert (Hrun :
      Receiving.run (Receiving.immediately [file_chunk payload]) S
      = match refs !! fileId payload with
        | Some a =>
            Receiving.verified (Receiving.mkContinuation payload a) S
        | None => Receiving.call (FileTransfer.onError FileTransfer.UnknownFileChunk) S
        end).
    { subst S.
      cbn [Receiving.immediately List.flat_map List.app Receiving.run
           List.fold_left Receiving.step Receiving.handleMessage
           Receiving.receivedChunksRef].
      destruct (refs !! fileId payload); reflexivity. }
    rewrite Hrun. clear Hrun.
    unfold Receiving.view at 2. cbn [FileTransfer.handleMessage].
    subst S. receiver_cbn. rewrite lookup_fmap.
    destruct (refs !! fileId payload) as [a|] eqn:Href;
      cbn [fmap option_fmap option_map].
    + unfold Receiving.verified. cbn [Receiving.chunk Receiving.chunks].
      destruct (verifyChecksum (data payload) (checksum payload));
        cbn [negb].
      * unfold Receiving.elements. receiver_cbn.
        pose proof (elements_after_write arrs refs _ a
                      (JS.arraySet (default [] (arrs !! a))
                         (chunkIndex payload) (data payload))
                      Hvalid Hown Href) as Hmap.
        assert (Hvalid' :
          forall k a0,
            refs !! k = Some a0 ->
            (a0 < List.length
                    (<[a := JS.arraySet (default [] (arrs !! a))
                              (chunkIndex payload) (data payload)]> arrs))%nat).
        { intros k a0 Hk. rewrite length_insert. exact (Hvalid _ _ Hk). }
        destruct (metas !! fileId payload) as [kept|]; receiver_cbn.
        -- split; [split; [exact Hvalid'|exact Hown]|].
           split; [reflexivity|].
           unfold Receiving.view, FileTransfer.totalBytesReceived,
             Receiving.totalBytesReceived, Receiving.elements.
           receiver_cbn. rewrite <- Hmap, map_fold_fmap. reflexivity.
        -- split; [split; [exact Hvalid'|exact Hown]|].
           split; [reflexivity|].
           unfold Receiving.view, Receiving.elements. receiver_cbn.
           rewrite Hmap. reflexivity.
      * receiver_cbn. split; [split; assumption|].
        split; [reflexivity|]. reflexivity.
    + receiver_cbn. split; [split; assumption|].
      split; [reflexivity|]. reflexivity.
  - (* file_complete *)
    set (S := Receiving.mkState fp bp ir arrs refs metas cs []).
    assert (Hrun :
      Receiving.run (Receiving.immediately [file_complete fileId0 finalHash]) S
      = Receiving.handleMessage (file_complete fileId0 finalHash) S).
    { subst S.
      cbn [Receiving.immediately List.flat_map List.app Receiving.run
           List.fold_left Receiving.step Receiving.handleMessage
           Receiving.receivedChunksRef Receiving.fileMetadataRef].
      destruct (refs !! fileId0); [destruct (metas !! fileId0)|];
        reflexivity. }
    rewrite Hrun. clear Hrun.
    unfold Receiving.view at 2.
    cbn [FileTransfer.handleMessage Receiving.handleMessage].
    subst S. receiver_cbn. rewrite lookup_fmap.
    destruct (refs !! fileId0) as [a|] eqn:Href;
      cbn [fmap option_fmap option_map];
      [destruct (metas !! fileId0) as [kept|] eqn:Hmeta|]; receiver_cbn.
    + split; [split|split; [reflexivity|]].
      * intros k a0 Hk. apply lookup_delete_Some in Hk.
        exact (Hvalid _ _ (proj2 Hk)).
      * intros id1 id2 a0 H1 H2. apply lookup_delete_Some in H1, H2.
        exact (Hown _ _ _ (proj2 H1) (proj2 H2)).
      * unfold Receiving.view, Receiving.elements. receiver_cbn.
        rewrite fmap_delete. reflexivity.
    + split; [split; assumption|]. split; reflexivity.
    + split; [split; assumption|]. split; reflexivity.
Qed.

(** Handling a run of messages, each with its verification through at
    once, is handling it with [FileTransfer.handleMessage]. *)
Lemma view_immediately (e : Engine) (messages : list PeerMessage)
    (s : Receiving.State) :
  wellFormed s -> Receiving.pending s = [] ->
  Receiving.view e (Receiving.run (Receiving.immediately messages) s)
  = receive (Receiving.view e s) messages.
Proof.
  revert s. induction messages as [|m messages IH]; intros s Hwf Hidle;
    [reflexivity|].
  destruct (view_step e m s Hwf Hidle) as (Hwf' & Hidle' & Hview).
  change (Receiving.immediately (m :: messages))
    with (Receiving.immediately [m] ++ Receiving.immediately messages).
  unfold Receiving.run in *. rewrite List.fold_left_app.
  rewrite (IH _ Hwf' Hidle'), Hview. reflexivity.
Qed.
